(** * StegoTorus chopper: block codec, reassembly window, send scheduler

    A shallow embedding of [src/protocol/chop.cc].  Fixed-width C++
    integers are integers of [Z] whose wrap-around is written out, byte
    buffers ([uint8_t[]], [evbuffer]) are lists of such integers, the
    256-entry circular buffer is a list updated by index, and the
    OpenSSL contexts behind [ecb_encryptor], [ecb_decryptor],
    [gcm_encryptor] and [gcm_decryptor] are an abstract record of
    functions.  The circuit table ([unordered_map]) is a finite map, and
    command-line options are strings. *)

From Stdlib Require Import ZArith Znumtheory List Bool Lia.
From Stdlib Require String.
From stdpp Require Import base list gmap.
Import ListNotations.
Import String.StringSyntax.

Local Open Scope Z_scope.

(** ** Machine integers *)

Definition wrap8 (x : Z) : Z := x mod 2 ^ 8.
Definition wrap16 (x : Z) : Z := x mod 2 ^ 16.
Definition wrap32 (x : Z) : Z := x mod 2 ^ 32.
(** [size_t] and [uint64_t] *)
Definition wrap64 (x : Z) : Z := x mod 2 ^ 64.

Definition is_u8 (x : Z) : Prop := 0 <= x < 2 ^ 8.
Definition is_u32 (x : Z) : Prop := 0 <= x < 2 ^ 32.

(** C's [!x] on an integer, as an integer. *)
Definition lognot (x : Z) : Z := if x =? 0 then 1 else 0.

(** [a[i]] on a byte array. *)
Definition at_ (a : list Z) (i : nat) : Z := nth i a 0.

(** ** Constants of the wire format *)

Definition HEADER_LEN : Z := 16.
Definition TRAILER_LEN : Z := 16.
Definition SECTION_LEN : Z := 65535.
Definition MIN_BLOCK_SIZE : Z := HEADER_LEN + TRAILER_LEN.
Definition MAX_BLOCK_SIZE : Z := MIN_BLOCK_SIZE + SECTION_LEN * 2.

(** [enum opcode_t]: the enumerators are names for integers, and
    [opcode_t(clear[8])] can produce any value of a byte. *)
Definition opcode_t : Type := Z.
Definition op_DAT : opcode_t := 0.
Definition op_FIN : opcode_t := 1.
Definition op_RST : opcode_t := 2.
Definition op_RK1 : opcode_t := 3.
Definition op_RK2 : opcode_t := 4.
Definition op_RK3 : opcode_t := 5.
Definition op_RESERVED0 : opcode_t := 6.
Definition op_STEG0 : opcode_t := 128.
Definition op_LAST : opcode_t := 255.

(** ** Cipher contexts

    [ecb_*] work on one 16-byte AES block.  [gcm_encrypt in nonce]
    gives the ciphertext and the tag that the code writes at [out] and
    [out + inlen]; [gcm_decrypt in nonce] takes ciphertext followed by
    tag and fails ([None]) when the tag does not verify. *)

Record ciphers : Type := {
  ecb_encrypt : list Z -> list Z;
  ecb_decrypt : list Z -> list Z;
  gcm_encrypt : list Z -> list Z -> list Z * list Z;
  gcm_decrypt : list Z -> list Z -> option (list Z)
}.

(** What the code checks of OpenSSL's output lengths before it goes on
    ([log_crypto_abort] otherwise). *)
Record cipher_lengths (K : ciphers) : Prop := {
  ecb_encrypt_length : forall b, length b = 16%nat ->
    length (ecb_encrypt K b) = 16%nat;
  gcm_encrypt_length : forall i n,
    length (fst (gcm_encrypt K i n)) = length i /\
    length (snd (gcm_encrypt K i n)) = 16%nat
}.

(** Decryption undoes encryption under the same key.  The payload
    law is asked for lists of bytes only. *)
Record cipher_inverse (K : ciphers) : Prop := {
  ecb_decrypt_encrypt : forall b, length b = 16%nat ->
    ecb_decrypt K (ecb_encrypt K b) = b;
  gcm_decrypt_encrypt : forall i n, Forall is_u8 i ->
    gcm_decrypt K (fst (gcm_encrypt K i n) ++ snd (gcm_encrypt K i n)) n
    = Some i
}.

(** ** class block_header *)

Record block_header : Type := {
  clear : list Z;
  ciphr : list Z
}.

Definition invalid_header : block_header :=
  {| clear := repeat 0xFF 16; ciphr := repeat 0xFF 16 |}.

(** [block_header(uint32_t s, uint16_t d, uint16_t p, opcode_t f,
    ecb_encryptor &ec)] *)
Definition block_header_enc (K : ciphers) (s d p : Z) (f : opcode_t)
  : block_header :=
  if (f >? op_LAST) || ((f >=? op_RESERVED0) && (f <? op_STEG0)) then
    invalid_header
  else
    let c :=
      [ Z.land (Z.shiftr s 24) 0xFF;
        Z.land (Z.shiftr s 16) 0xFF;
        Z.land (Z.shiftr s 8) 0xFF;
        Z.land s 0xFF;
        Z.land (Z.shiftr d 8) 0xFF;
        Z.land d 0xFF;
        Z.land (Z.shiftr p 8) 0xFF;
        Z.land p 0xFF;
        wrap8 f;
        0; 0; 0; 0; 0; 0; 0 ] in
    {| clear := c; ciphr := ecb_encrypt K c |}.

(** [block_header(evbuffer *buf, ecb_decryptor &dc)]:
    [evbuffer_copyout] gives fewer than 16 bytes when the buffer is
    shorter. *)
Definition block_header_dec (K : ciphers) (buf : list Z) : block_header :=
  if (Z.of_nat (length buf) <? 16) then invalid_header
  else
    let c := firstn 16 buf in
    {| clear := ecb_decrypt K c; ciphr := c |}.

Definition seqno (h : block_header) : Z :=
  Z.lor (Z.lor (Z.lor (Z.shiftl (at_ (clear h) 0) 24)
                      (Z.shiftl (at_ (clear h) 1) 16))
               (Z.shiftl (at_ (clear h) 2) 8))
        (at_ (clear h) 3).

Definition dlen (h : block_header) : Z :=
  Z.lor (Z.shiftl (at_ (clear h) 4) 8) (at_ (clear h) 5).

Definition plen (h : block_header) : Z :=
  Z.lor (Z.shiftl (at_ (clear h) 6) 8) (at_ (clear h) 7).

Definition total_len (h : block_header) : Z :=
  HEADER_LEN + TRAILER_LEN + dlen h + plen h.

Definition opcode (h : block_header) : opcode_t := at_ (clear h) 8.

(** [bool valid(uint64_t window) const]: the subtraction is done on
    64 bits and stored in a [uint32_t]; [ck] is a [uint8_t]. *)
Definition valid (h : block_header) (window : Z) : bool :=
  let ck := Z.lor (Z.lor (Z.lor (Z.lor (Z.lor (Z.lor
              (at_ (clear h) 9) (at_ (clear h) 10)) (at_ (clear h) 11))
              (at_ (clear h) 12)) (at_ (clear h) 13)) (at_ (clear h) 14))
              (at_ (clear h) 15) in
  let delta := wrap32 (wrap64 (seqno h - window)) in
  let ck := wrap8 (Z.lor ck (lognot (lognot (Z.land delta (wrap32 (Z.lnot 0xFF)))))) in
  Z.eqb (lognot ck) 1.

Definition nonce (h : block_header) : list Z := ciphr h.
Definition cleartext (h : block_header) : list Z := clear h.

(** The seven bytes of the check field. *)
Definition check_field (h : block_header) : list Z :=
  firstn 7 (skipn 9 (clear h)).

(** A sequence number is in the window of 256 numbers that starts at
    [w], counting modulo 2^32. *)
Definition in_window (w s : Z) : Prop :=
  exists k, 0 <= k <= 255 /\ s = wrap32 (w + k).

(** The [n] bytes of [x], most significant first. *)
Fixpoint big_endian (n : nat) (x : Z) : list Z :=
  match n with
  | O => []
  | S n' => (x / 256 ^ Z.of_nat n') mod 256 :: big_endian n' x
  end.

(** The opcodes the encoding constructor accepts. *)
Definition legal_opcode (f : opcode_t) : Prop :=
  0 <= f <= 5 \/ 128 <= f <= 255.

(** The cleartext header of the wire format: sequence number, data
    length, padding length, opcode, and seven zero bytes. *)
Definition header_layout (s d p : Z) (f : opcode_t) : list Z :=
  big_endian 4 s ++ big_endian 2 d ++ big_endian 2 p ++ [f] ++ repeat 0 7.

(** Sequence numbers [n], [n+1], ... modulo 2^32. *)
Fixpoint consecutive (n : Z) (k : nat) : list Z :=
  match k with
  | O => []
  | S k' => wrap32 n :: consecutive (n + 1) k'
  end.

(** ** The reassembly queue *)

Definition evbuffer : Type := list Z.

(** A queue element holds a received block iff its [data] pointer is
    non-null. *)
Record reassembly_elt : Type := {
  data : option evbuffer;
  op : opcode_t
}.

Definition empty_elt : reassembly_elt := {| data := None; op := op_DAT |}.

Record reassembly_queue : Type := {
  cbuf : list reassembly_elt;
  next_to_process : Z
}.

(** The constructor: [next_to_process(0)] and [memset(cbuf, 0, ...)]. *)
Definition reassembly_queue_new : reassembly_queue :=
  {| cbuf := repeat empty_elt 256; next_to_process := 0 |}.

(** [cbuf[i]] for an index of type [uint8_t]. *)
Definition slot (q : reassembly_queue) (i : Z) : reassembly_elt :=
  default empty_elt (cbuf q !! Z.to_nat i).

Definition window (q : reassembly_queue) : Z := next_to_process q.

Definition remove_next (q : reassembly_queue)
  : reassembly_elt * reassembly_queue :=
  let rv := empty_elt in
  let front := wrap8 (Z.land (next_to_process q) 0xFF) in
  match data (slot q front) with
  | Some _ =>
      (slot q front,
       {| cbuf := <[Z.to_nat front := empty_elt]> (cbuf q);
          next_to_process := wrap32 (next_to_process q + 1) |})
  | None => (rv, q)
  end.

(** [insert] gives its result, the queue afterwards, and the buffers it
    has handed to [evbuffer_free]. *)
Definition insert (seq : Z) (o : opcode_t) (d : evbuffer)
    (q : reassembly_queue) : bool * reassembly_queue * list evbuffer :=
  if wrap32 (seq - window q) >? 255 then (false, q, [d])
  else
    let front := wrap8 (Z.land (next_to_process q) 0xFF) in
    let pos := wrap8 (wrap32 (front + wrap32 (seq - window q))) in
    match data (slot q pos) with
    | Some _ => (false, q, [d])
    | None =>
        (true,
         {| cbuf := <[Z.to_nat pos := {| data := Some d; op := o |}]> (cbuf q);
            next_to_process := next_to_process q |},
         [])
    end.

(** [reset]: the assertions fail when a slot is occupied. *)
Definition reset (q : reassembly_queue) : option reassembly_queue :=
  if forallb (fun e => negb (bool_decide (is_Some (data e)))) (cbuf q)
  then Some {| cbuf := cbuf q; next_to_process := 0 |}
  else None.

(** Removals one after the other, as the loop of [process_queue] makes
    them: the blocks delivered, each with the value [next_to_process]
    had when it was taken, until a removal comes back empty. *)
Fixpoint remove_run (n : nat) (q : reassembly_queue)
  : list (Z * reassembly_elt) * reassembly_queue :=
  match n with
  | O => ([], q)
  | S n' =>
      match remove_next q with
      | (e, q') =>
          match data e with
          | Some _ =>
              let '(l, q'') := remove_run n' q' in
              ((next_to_process q, e) :: l, q'')
          | None => ([], q')
          end
      end
  end.

(** Blocks put into the queue in the order of their arrival: the
    results of the calls of [insert], and the queue afterwards. *)
Fixpoint insert_all (l : list (Z * opcode_t * evbuffer))
    (q : reassembly_queue) : list bool * reassembly_queue :=
  match l with
  | [] => ([], q)
  | (s, o, d) :: l' =>
      let '(ok, q', _) := insert s o d q in
      let '(oks, q'') := insert_all l' q' in
      (ok :: oks, q'')
  end.

(** The number of slots that hold a block. *)
Definition is_full (e : reassembly_elt) : bool :=
  match data e with
  | Some _ => true
  | None => false
  end.

Definition occupied (q : reassembly_queue) : nat :=
  length (List.filter is_full (cbuf q)).

(** Block number [i] of [blocks] as it comes to [insert], when the first
    of them carries sequence number [n]. *)
Definition arrival (n : Z) (blocks : list reassembly_elt) (i : nat)
  : Z * opcode_t * evbuffer :=
  (wrap32 (n + Z.of_nat i), op (nth i blocks empty_elt),
   default [] (data (nth i blocks empty_elt))).

(** What a sender puts in one block: the opcode, the data and the
    number of padding bytes. *)
Definition item : Type := opcode_t * evbuffer * Z.

Definition item_chunk (it : item) : evbuffer := snd (fst it).

(** The queue element an item becomes at the receiver. *)
Definition item_elt (it : item) : reassembly_elt :=
  {| data := Some (item_chunk it); op := fst (fst it) |}.

(** Items as they come to [insert] when they arrive in sequence, the
    first under sequence number [n]. *)
Fixpoint item_arrivals (n : Z) (items : list item)
  : list (Z * opcode_t * evbuffer) :=
  match items with
  | [] => []
  | it :: t =>
      (wrap32 n, fst (fst it), item_chunk it) :: item_arrivals (n + 1) t
  end.

(** The data of delivered blocks, one after the other. *)
Definition payloads (del : list (Z * reassembly_elt)) : evbuffer :=
  concat (map (fun se => default [] (data (snd se))) del).

(** A run of DAT blocks, with or without one FIN block at its end. *)
Inductive dats_then_fin : list (Z * reassembly_elt) -> Prop :=
| dtf_nil : dats_then_fin []
| dtf_fin (s : Z) (e : reassembly_elt) :
    op e = op_FIN -> dats_then_fin [(s, e)]
| dtf_dat (s : Z) (e : reassembly_elt) (l : list (Z * reassembly_elt)) :
    op e = op_DAT -> dats_then_fin l -> dats_then_fin ((s, e) :: l).

Definition has_fin (del : list (Z * reassembly_elt)) : bool :=
  existsb (fun se => op (snd se) =? op_FIN) del.

(** ** The steganography module, as the chopper sees it

    [transmit] fails with [None]; on success it gives the module's next
    state and says whether the module called [cease_transmission] on the
    connection.  ([transmit_soon] during [transmit] leaves no trace:
    [chop_conn_t::send] deletes the timer right after.)  [receive] takes
    the inbound carrier bytes and gives the hidden bytes it appends to
    [recv_pending], and whether it called [transmit_soon]. *)

Record steg_module (S : Type) : Type := {
  transmit_room : S -> Z;
  transmit : S -> list Z -> option (S * bool);
  receive : S -> list Z -> option (S * list Z * bool)
}.
Arguments transmit_room {S} _ _.
Arguments transmit {S} _ _ _.
Arguments receive {S} _ _ _.

(** A module that always offers the room its state says, and accepts
    every block. *)
Definition fixed_room_steg : steg_module Z :=
  {| transmit_room := fun r => r;
     transmit := fun r _ => Some (r, false);
     receive := fun r inb => Some (r, inb, false) |}.

(** Stand-ins for the AES contexts, for running the model: the header
    "cipher" complements every byte, the payload "cipher" adds the first
    nonce byte, and the tag is sixteen copies of the payload length
    modulo 256. *)
Definition toy_tag (i : list Z) : list Z :=
  repeat (wrap8 (Z.of_nat (length i))) 16.

Definition toy_ciphers : ciphers :=
  {| ecb_encrypt := map (fun b => 255 - b);
     ecb_decrypt := map (fun b => 255 - b);
     gcm_encrypt := fun i n =>
       (map (fun b => wrap8 (b + at_ n 0)) i, toy_tag i);
     gcm_decrypt := fun i n =>
       let ct := firstn (length i - 16) i in
       if bool_decide (skipn (length i - 16) i = toy_tag ct)
       then Some (map (fun b => wrap8 (b - at_ n 0)) ct)
       else None |}.

(** Calls into the connection framework ([connections.h]), kept as a
    log. *)
Inductive call : Type :=
| circuit_recv_eof
| circuit_arm_flush_timer
| circuit_disarm_flush_timer
| circuit_arm_axe_timer
| circuit_disarm_axe_timer
| circuit_reopen_downstreams
| conn_send_eof (c : Z)
| conn_do_flush (c : Z).

(** A block handed to [steg->transmit]: the carrying connection, the
    header object, the block as [send_targeted] built it, and the bytes
    given to the module (the block after an optional handshake). *)
Record wire_block : Type := {
  wb_conn : Z;
  wb_hdr : block_header;
  wb_block : list Z;
  wb_sent : list Z
}.

(** The 4 bytes of a [uint32_t] in host order (little-endian). *)
Definition le32 (x : Z) : list Z :=
  [ Z.land x 0xFF; Z.land (Z.shiftr x 8) 0xFF;
    Z.land (Z.shiftr x 16) 0xFF; Z.land (Z.shiftr x 24) 0xFF ].

(** [payload] arguments of [send_targeted] and [send_special]: null, or
    the circuit's own upstream input buffer. *)
Inductive payload_t : Type := payload_null | payload_xmit_pending.

Section Chop.

Context {St : Type}.
Variable M : steg_module St.
Variable K : ciphers.

Record chop_conn_t : Type := {
  serial : Z;
  steg : option St;
  recv_pending : evbuffer;
  must_send_pending : bool;
  sent_handshake : bool;
  no_more_transmissions : bool
}.

Record chop_circuit_t : Type := {
  recv_queue : reassembly_queue;
  downstreams : list chop_conn_t;
  server_mode : bool;
  circuit_id : Z;
  send_seq : Z;
  dead_cycles : Z;
  received_fin : bool;
  sent_fin : bool;
  upstream_eof : bool;
  up_input : evbuffer;
  up_output : evbuffer;
  wire : list wire_block;
  calls : list call
}.

(** Modelled from the spec: the allocation of a circuit.  The
    constructor [chop_circuit_t::chop_circuit_t] has an empty body and
    the allocator is outside this file; "[send_seq]: u32 (monotone,
    starts at 0 ...)", and the flags and counters are clear.  The
    reassembly queue has its own constructor. *)
Definition chop_circuit_new (server : bool) (id : Z) : chop_circuit_t :=
  {| recv_queue := reassembly_queue_new;
     downstreams := [];
     server_mode := server;
     circuit_id := id;
     send_seq := 0;
     dead_cycles := 0;
     received_fin := false;
     sent_fin := false;
     upstream_eof := false;
     up_input := [];
     up_output := [];
     wire := [];
     calls := [] |}.

(** How a call ends: it returns [rc] and leaves the circuit [ckt], or
    the process ends ([Crash]: a failed [log_assert], or a null pointer
    dereferenced); [OutOfFuel] is for a loop of the model that ran out
    of fuel. *)
Inductive outcome : Type :=
| Ret (rc : Z) (ckt : chop_circuit_t)
| Crash
| OutOfFuel.

Definition set_conn (c : chop_conn_t) (l : list chop_conn_t)
  : list chop_conn_t :=
  map (fun x => if serial x =? serial c then c else x) l.

Definition find_conn (id : Z) (l : list chop_conn_t) : option chop_conn_t :=
  find (fun x => serial x =? id) l.

Definition with_downstreams (ckt : chop_circuit_t) (l : list chop_conn_t) :=
  {| recv_queue := recv_queue ckt; downstreams := l;
     server_mode := server_mode ckt; circuit_id := circuit_id ckt;
     send_seq := send_seq ckt; dead_cycles := dead_cycles ckt;
     received_fin := received_fin ckt; sent_fin := sent_fin ckt;
     upstream_eof := upstream_eof ckt; up_input := up_input ckt;
     up_output := up_output ckt; wire := wire ckt; calls := calls ckt |}.

Definition with_recv_queue (ckt : chop_circuit_t) (q : reassembly_queue) :=
  {| recv_queue := q; downstreams := downstreams ckt;
     server_mode := server_mode ckt; circuit_id := circuit_id ckt;
     send_seq := send_seq ckt; dead_cycles := dead_cycles ckt;
     received_fin := received_fin ckt; sent_fin := sent_fin ckt;
     upstream_eof := upstream_eof ckt; up_input := up_input ckt;
     up_output := up_output ckt; wire := wire ckt; calls := calls ckt |}.

Definition with_dead_cycles (ckt : chop_circuit_t) (n : Z) :=
  {| recv_queue := recv_queue ckt; downstreams := downstreams ckt;
     server_mode := server_mode ckt; circuit_id := circuit_id ckt;
     send_seq := send_seq ckt; dead_cycles := n;
     received_fin := received_fin ckt; sent_fin := sent_fin ckt;
     upstream_eof := upstream_eof ckt; up_input := up_input ckt;
     up_output := up_output ckt; wire := wire ckt; calls := calls ckt |}.

Definition with_received_fin (ckt : chop_circuit_t) (b : bool) :=
  {| recv_queue := recv_queue ckt; downstreams := downstreams ckt;
     server_mode := server_mode ckt; circuit_id := circuit_id ckt;
     send_seq := send_seq ckt; dead_cycles := dead_cycles ckt;
     received_fin := b; sent_fin := sent_fin ckt;
     upstream_eof := upstream_eof ckt; up_input := up_input ckt;
     up_output := up_output ckt; wire := wire ckt; calls := calls ckt |}.

Definition with_upstream_eof (ckt : chop_circuit_t) (b : bool) :=
  {| recv_queue := recv_queue ckt; downstreams := downstreams ckt;
     server_mode := server_mode ckt; circuit_id := circuit_id ckt;
     send_seq := send_seq ckt; dead_cycles := dead_cycles ckt;
     received_fin := received_fin ckt; sent_fin := sent_fin ckt;
     upstream_eof := b; up_input := up_input ckt;
     up_output := up_output ckt; wire := wire ckt; calls := calls ckt |}.

Definition with_up_output (ckt : chop_circuit_t) (o : evbuffer) :=
  {| recv_queue := recv_queue ckt; downstreams := downstreams ckt;
     server_mode := server_mode ckt; circuit_id := circuit_id ckt;
     send_seq := send_seq ckt; dead_cycles := dead_cycles ckt;
     received_fin := received_fin ckt; sent_fin := sent_fin ckt;
     upstream_eof := upstream_eof ckt; up_input := up_input ckt;
     up_output := o; wire := wire ckt; calls := calls ckt |}.

Definition do_call (ckt : chop_circuit_t) (c : call) :=
  {| recv_queue := recv_queue ckt; downstreams := downstreams ckt;
     server_mode := server_mode ckt; circuit_id := circuit_id ckt;
     send_seq := send_seq ckt; dead_cycles := dead_cycles ckt;
     received_fin := received_fin ckt; sent_fin := sent_fin ckt;
     upstream_eof := upstream_eof ckt; up_input := up_input ckt;
     up_output := up_output ckt; wire := wire ckt;
     calls := calls ckt ++ [c] |}.

Definition put_conn (ckt : chop_circuit_t) (c : chop_conn_t) :=
  with_downstreams ckt (set_conn c (downstreams ckt)).

(** *** Sending *)

Inductive conn_send_result : Type :=
| conn_sent (c : chop_conn_t) (bytes : list Z) (cease : bool)
| conn_send_failed
| conn_send_abort.

(** [int chop_conn_t::send(struct evbuffer *block)], for a connection
    attached to [ckt]. *)
Definition conn_send (c : chop_conn_t) (block : list Z)
    (ckt : chop_circuit_t) : conn_send_result :=
  if negb (sent_handshake c) && negb (server_mode ckt)
     && (circuit_id ckt =? 0)
  then conn_send_abort
  else
    let block :=
      if negb (sent_handshake c) && negb (server_mode ckt)
      then le32 (circuit_id ckt) ++ block else block in
    match steg c with
    | None => conn_send_abort
    | Some s =>
        match transmit M s block with
        | None => conn_send_failed
        | Some (s', cease) =>
            conn_sent
              {| serial := serial c; steg := Some s';
                 recv_pending := recv_pending c;
                 must_send_pending := false;
                 sent_handshake := true;
                 no_more_transmissions :=
                   no_more_transmissions c || cease |}
              block cease
        end
    end.

(** The circuit after a block has gone out on [c]. *)
Definition commit_block (ckt : chop_circuit_t) (c : chop_conn_t)
    (b : wire_block) (cease : bool) (rest : evbuffer) (f : opcode_t)
  : chop_circuit_t :=
  {| recv_queue := recv_queue ckt;
     downstreams := set_conn c (downstreams ckt);
     server_mode := server_mode ckt; circuit_id := circuit_id ckt;
     send_seq := wrap32 (send_seq ckt + 1);
     dead_cycles := dead_cycles ckt;
     received_fin := received_fin ckt;
     sent_fin := if f =? op_FIN then true else sent_fin ckt;
     upstream_eof := upstream_eof ckt;
     up_input := rest;
     up_output := up_output ckt;
     wire := wire ckt ++ [b];
     calls := if cease then calls ckt ++ [conn_do_flush (serial c)]
              else calls ckt |}.

(** What [evbuffer_copyout(payload, ...)] reads from; the copy is
    guarded by [if (payload)]. *)
Definition payload_src (payload : payload_t) (ckt : chop_circuit_t)
  : evbuffer :=
  match payload with
  | payload_null => []
  | payload_xmit_pending => up_input ckt
  end.

(** What is left of the upstream input after
    [evbuffer_drain(payload, d)].  This call is not guarded: on a null
    [payload] it dereferences the null pointer, which ends the process
    ([None]). *)
Definition payload_drain (payload : payload_t) (d : Z)
    (ckt : chop_circuit_t) : option evbuffer :=
  match payload with
  | payload_null => None
  | payload_xmit_pending => Some (skipn (Z.to_nat d) (up_input ckt))
  end.

(** The block buffer once the header's ciphertext has been copied in
    and [send_crypt->encrypt] has written ciphertext and tag behind
    it. *)
Definition seal_block (hdr : block_header) (encodebuf : list Z)
  : list Z :=
  nonce hdr ++ fst (gcm_encrypt K encodebuf (nonce hdr))
            ++ snd (gcm_encrypt K encodebuf (nonce hdr)).

(** [int chop_circuit_t::send_targeted(chop_conn_t *conn, size_t d,
    size_t p, opcode_t f, struct evbuffer *payload)].  A failed
    [log_assert] aborts the process, and so does the drain of a null
    [payload] after the block has been handed to the connection.
    Memory allocation is taken to succeed. *)
Definition send_targeted5 (conn : chop_conn_t) (d p : Z) (f : opcode_t)
    (payload : payload_t) (ckt : chop_circuit_t) : outcome :=
  if negb (match payload with payload_null => d =? 0 | _ => true end)
  then Crash
  else if negb (d <=? SECTION_LEN) then Crash
  else if negb (p <=? SECTION_LEN) then Crash
  else
    let hdr := block_header_enc K (send_seq ckt) (wrap16 d) (wrap16 p) f in
    if negb (valid hdr (send_seq ckt)) then Crash
    else
      if Z.of_nat (length (payload_src payload ckt)) <? d then Ret (-1) ckt
      else
        let encodebuf := firstn (Z.to_nat d) (payload_src payload ckt)
                         ++ repeat 0 (Z.to_nat p) in
        let block := seal_block hdr encodebuf in
        match conn_send conn block ckt with
        | conn_send_abort => Crash
        | conn_send_failed => Ret (-1) ckt
        | conn_sent conn' bytes cease =>
            match payload_drain payload d ckt with
            | None => Crash
            | Some rest =>
                Ret 0 (commit_block ckt conn'
                         {| wb_conn := serial conn; wb_hdr := hdr;
                            wb_block := block; wb_sent := bytes |}
                         cease rest f)
            end
        end.

(** [int chop_circuit_t::send_targeted(chop_conn_t *conn,
    size_t blocksize)] *)
Definition send_targeted2 (conn : chop_conn_t) (blocksize : Z)
    (ckt : chop_circuit_t) : outcome :=
  if negb ((blocksize >=? MIN_BLOCK_SIZE) && (blocksize <=? MAX_BLOCK_SIZE))
  then Crash
  else
    let avail := Z.of_nat (length (up_input ckt)) in
    let '(avail, o) :=
      if avail >? SECTION_LEN then (SECTION_LEN, op_DAT)
      else if upstream_eof ckt && negb (sent_fin ckt) then (avail, op_FIN)
      else (avail, op_DAT) in
    send_targeted5 conn avail
      (wrap64 (wrap64 (blocksize - MIN_BLOCK_SIZE) - avail))
      o payload_xmit_pending ckt.

(** [int chop_circuit_t::send_targeted(chop_conn_t *conn)] *)
Definition send_targeted1 (conn : chop_conn_t) (ckt : chop_circuit_t)
  : outcome :=
  let avail := Z.of_nat (length (up_input ckt)) in
  let avail := if avail >? SECTION_LEN then SECTION_LEN else avail in
  let avail := wrap64 (avail + MIN_BLOCK_SIZE) in
  match steg conn with
  | None => Crash
  | Some s =>
      let room := transmit_room M s in
      if room <? MIN_BLOCK_SIZE then Ret (-1) ckt
      else
        let avail := if room <? avail then room else avail in
        send_targeted2 conn avail ckt
  end.

(** The loop body of [pick_connection], on the four locals
    [maxbelow], [minabove], [targbelow], [targabove]. *)
Definition pick_step (desired : Z)
    (acc : Z * Z * option chop_conn_t * option chop_conn_t)
    (conn : chop_conn_t)
  : Z * Z * option chop_conn_t * option chop_conn_t :=
  let '(maxbelow, minabove, targbelow, targabove) := acc in
  match steg conn with
  | Some s =>
      let room := transmit_room M s in
      let room := if room <=? MIN_BLOCK_SIZE then 0 else room in
      let room := if room >? MAX_BLOCK_SIZE then MAX_BLOCK_SIZE else room in
      if room >=? desired then
        if room <? minabove
        then (maxbelow, room, targbelow, Some conn)
        else acc
      else
        if room >? maxbelow
        then (room, minabove, Some conn, targabove)
        else acc
  | None => acc
  end.

(** [chop_conn_t *chop_circuit_t::pick_connection(size_t desired,
    size_t *blocksize)]: the connection and [*blocksize].  The
    downstream set is listed in the order the iterator visits it. *)
Definition pick_connection (desired : Z) (ckt : chop_circuit_t)
  : option chop_conn_t * Z :=
  let desired := if desired >? SECTION_LEN then SECTION_LEN else desired in
  let desired := wrap64 (desired + MIN_BLOCK_SIZE) in
  let '(maxbelow, minabove, targbelow, targabove) :=
    fold_left (pick_step desired) (downstreams ckt)
              (0, MAX_BLOCK_SIZE + 1, None, None) in
  match targabove with
  | Some c => (Some c, desired)
  | None => (targbelow, maxbelow)
  end.

(** The room a connection counts for in [pick_connection]. *)
Definition offered_room (conn : chop_conn_t) : option Z :=
  match steg conn with
  | Some s =>
      let room := transmit_room M s in
      let room := if room <=? MIN_BLOCK_SIZE then 0 else room in
      Some (if room >? MAX_BLOCK_SIZE then MAX_BLOCK_SIZE else room)
  | None => None
  end.

(** [int chop_circuit_t::send_special(opcode_t f,
    struct evbuffer *payload)] *)
Definition send_special (f : opcode_t) (payload : payload_t)
    (ckt : chop_circuit_t) : outcome :=
  let d := match payload with
           | payload_null => 0
           | payload_xmit_pending => Z.of_nat (length (up_input ckt))
           end in
  if negb (d <=? SECTION_LEN) then Crash
  else
    match pick_connection d ckt with
    | (None, _) => Ret (-1) ckt
    | (Some conn, blocksize) =>
        if wrap64 (blocksize - MIN_BLOCK_SIZE) <? d then Ret (-1) ckt
        else send_targeted5 conn d
               (wrap64 (wrap64 (blocksize - MIN_BLOCK_SIZE) - d))
               f payload ckt
    end.

(** [void chop_conn_t::send()], for the connection with serial [id]
    attached to [ckt]: the must-send path. *)
Definition conn_must_send (id : Z) (ckt : chop_circuit_t) : outcome :=
  match find_conn id (downstreams ckt) with
  | None => Crash
  | Some c =>
      let c := {| serial := serial c; steg := steg c;
                  recv_pending := recv_pending c;
                  must_send_pending := false;
                  sent_handshake := sent_handshake c;
                  no_more_transmissions := no_more_transmissions c |} in
      let ckt := put_conn ckt c in
      match steg c with
      | None => Ret 0 (do_call ckt (conn_do_flush id))
      | Some _ =>
          match send_targeted1 c ckt with
          | Ret rc ckt' =>
              if rc =? 0 then Ret 0 ckt'
              else Ret 0 (do_call ckt' (conn_do_flush id))
          | r => r
          end
      end
  end.

(** The loop of [check_for_eof] over the downstream set. *)
Fixpoint eof_loop (ids : list Z) (ckt : chop_circuit_t) : outcome :=
  match ids with
  | [] => Ret 0 ckt
  | id :: ids' =>
      match find_conn id (downstreams ckt) with
      | None => Crash
      | Some c =>
          let r := if must_send_pending c then conn_must_send id ckt
                   else Ret 0 ckt in
          match r with
          | Ret _ ckt' => eof_loop ids' (do_call ckt' (conn_send_eof id))
          | r => r
          end
      end
  end.

(** [int chop_circuit_t::check_for_eof()] *)
Definition check_for_eof (ckt : chop_circuit_t) : outcome :=
  if sent_fin ckt && received_fin ckt then
    eof_loop (map serial (downstreams ckt))
             (do_call ckt circuit_disarm_flush_timer)
  else if negb (server_mode ckt) then
    Ret 0 (do_call ckt circuit_arm_flush_timer)
  else Ret 0 ckt.

(** The [do ... while (avail > 0)] loop of [send]. *)
Fixpoint send_loop (fuel : nat) (ckt : chop_circuit_t) : outcome :=
  match fuel with
  | O => OutOfFuel
  | S fuel' =>
      let avail := Z.of_nat (length (up_input ckt)) in
      match pick_connection avail ckt with
      | (None, _) => Ret 0 ckt
      | (Some target, blocksize) =>
          match send_targeted2 target blocksize ckt with
          | Ret rc ckt' =>
              if rc =? 0 then
                if Z.of_nat (length (up_input ckt')) >? 0
                then send_loop fuel' ckt'
                else Ret 0 ckt'
              else Ret (-1) ckt'
          | r => r
          end
      end
  end.

(** [int chop_circuit_t::send()] *)
Definition send (ckt : chop_circuit_t) : outcome :=
  let ckt := do_call ckt circuit_disarm_flush_timer in
  match downstreams ckt with
  | [] =>
      Ret 0 (do_call ckt (if negb (server_mode ckt)
                          then circuit_reopen_downstreams
                          else circuit_arm_axe_timer))
  | _ =>
      let avail0 := Z.of_nat (length (up_input ckt)) in
      match send_loop (Datatypes.S (length (up_input ckt))) ckt with
      | Ret rc ckt' =>
          if rc =? 0 then
            let avail := Z.of_nat (length (up_input ckt')) in
            check_for_eof
              (with_dead_cycles ckt'
                 (if avail0 >? avail then 0
                  else wrap32 (dead_cycles ckt' + 1)))
          else Ret (-1) ckt'
      | r => r
      end
  end.

(** [int chop_circuit_t::send_eof()] *)
Definition send_eof (ckt : chop_circuit_t) : outcome :=
  send (with_upstream_eof ckt true).

(** *** Receiving *)

(** The locals of [process_queue]. *)
Record pq_locals : Type := {
  count : Z;
  pending_fin : bool;
  pending_error : bool;
  sent_error : bool
}.

(** The [switch] of [process_queue] on one removed block: the circuit
    and [pending_fin], [pending_error] afterwards. *)
Definition dispatch (blk : reassembly_elt) (ckt : chop_circuit_t)
    (pf pe : bool) : chop_circuit_t * bool * bool :=
  let payload := default [] (data blk) in
  let dat (pf : bool) :=
    if Z.of_nat (length payload) =? 0 then (ckt, pf, pe)
    else if received_fin ckt then (ckt, pf, true)
    else (with_up_output ckt (up_output ckt ++ payload), pf, pe) in
  if op blk =? op_FIN then
    if received_fin ckt then (ckt, pf, true) else dat true
  else if op blk =? op_DAT then dat pf
  else if op blk =? op_RST then (do_call ckt circuit_recv_eof, pf, true)
  else (ckt, pf, true).

(** The [while] loop of [process_queue]. *)
Fixpoint process_loop (fuel : nat) (ckt : chop_circuit_t) (v : pq_locals)
  : (chop_circuit_t * pq_locals) + outcome :=
  match fuel with
  | O => inr OutOfFuel
  | S fuel' =>
      let '(blk, q) := remove_next (recv_queue ckt) in
      match data blk with
      | None => inl (with_recv_queue ckt q, v)
      | Some _ =>
          let ckt := with_recv_queue ckt q in
          let '(ckt, pf, pe) :=
            dispatch blk ckt (pending_fin v) (pending_error v) in
          let ckt :=
            if pf && negb (received_fin ckt)
            then with_received_fin (do_call ckt circuit_recv_eof) true
            else ckt in
          let r :=
            if pe && negb (sent_error v) then
              if negb (op blk =? op_RST) && negb (op blk =? op_FIN)
              then send_special op_RST payload_null ckt
              else Ret 0 ckt
            else Ret 0 ckt in
          match r with
          | Ret _ ckt =>
              process_loop fuel' ckt
                {| count := wrap32 (count v + 1);
                   pending_fin := pf; pending_error := pe;
                   sent_error := sent_error v || pe |}
          | r => inr r
          end
      end
  end.

(** [int chop_circuit_t::process_queue()].  Every pass of the loop
    empties one of the 256 slots and none is filled meanwhile. *)
Definition process_queue (ckt : chop_circuit_t) : outcome :=
  match process_loop 257 ckt
          {| count := 0; pending_fin := false;
             pending_error := false; sent_error := false |} with
  | inr r => r
  | inl (ckt, v) =>
      let ckt := if count v >? 0 then with_dead_cycles ckt 0 else ckt in
      if sent_error v then Ret (-1) ckt
      else if (Z.of_nat (length (up_input ckt)) >? 0)
              || (upstream_eof ckt && negb (sent_fin ckt))
      then send ckt
      else check_for_eof ckt
  end.

Inductive recv_step_result : Type :=
| step_continue (pending : evbuffer) (ckt : chop_circuit_t)
| step_break (pending : evbuffer) (ckt : chop_circuit_t)
| step_error (pending : evbuffer) (ckt : chop_circuit_t).

(** One pass through the body of the [for (;;)] loop of
    [chop_conn_t::recv], on the connection's [recv_pending] buffer:
    [step_break] when the pass ends in [break], [step_error] when it
    ends in [return -1], [step_continue] when it reaches the end of the
    body. *)
Definition recv_step (pending : evbuffer) (ckt : chop_circuit_t)
  : recv_step_result :=
  let avail := Z.of_nat (length pending) in
  if avail =? 0 then step_break pending ckt
  else if avail <? MIN_BLOCK_SIZE then step_break pending ckt
  else
    let hdr := block_header_dec K pending in
    if negb (valid hdr (window (recv_queue ckt)))
    then step_error pending ckt
    else if avail <? total_len hdr then step_break pending ckt
    else
      let n := Z.to_nat (total_len hdr - HEADER_LEN) in
      let decodebuf := firstn n (skipn 16 pending) in
      let pending' := skipn n (skipn 16 pending) in
      match gcm_decrypt K decodebuf (nonce hdr) with
      | None => step_error pending' ckt
      | Some plain =>
          let d := firstn (Z.to_nat (dlen hdr)) plain in
          match insert (seqno hdr) (opcode hdr) d (recv_queue ckt) with
          | (false, _, _) => step_error pending' ckt
          | (true, q, _) => step_continue pending' (with_recv_queue ckt q)
          end
      end.

Inductive recv_loop_result : Type :=
| recv_break (pending : evbuffer) (ckt : chop_circuit_t)
| recv_error (pending : evbuffer) (ckt : chop_circuit_t)
| recv_fuel.

(** The loop itself. *)
Fixpoint recv_loop (fuel : nat) (pending : evbuffer) (ckt : chop_circuit_t)
  : recv_loop_result :=
  match fuel with
  | O => recv_fuel
  | S fuel' =>
      match recv_step pending ckt with
      | step_continue p c => recv_loop fuel' p c
      | step_break p c => recv_break p c
      | step_error p c => recv_error p c
      end
  end.


(** [int chop_conn_t::recv()] for the connection with serial [id],
    already attached to [ckt], when [inbound] has arrived on its
    socket. *)
Definition recv (id : Z) (inbound : list Z) (ckt : chop_circuit_t)
  : outcome :=
  match find_conn id (downstreams ckt) with
  | None => Crash
  | Some c =>
      match steg c with
      | None => Crash
      | Some s =>
          match receive M s inbound with
          | None => Ret (-1) ckt
          | Some (s', hidden, soon) =>
              let pending := recv_pending c ++ hidden in
              let back (p : evbuffer) :=
                {| serial := serial c; steg := Some s';
                   recv_pending := p;
                   must_send_pending := must_send_pending c || soon;
                   sent_handshake := sent_handshake c;
                   no_more_transmissions := no_more_transmissions c |} in
              match recv_loop (Datatypes.S (length pending)) pending ckt with
              | recv_fuel => OutOfFuel
              | recv_error p ckt' => Ret (-1) (put_conn ckt' (back p))
              | recv_break p ckt' => process_queue (put_conn ckt' (back p))
              end
          end
      end
  end.

(** *** What a run puts on the wire *)

(** The sequence numbers of the blocks sent so far, oldest first. *)
Definition wire_seqs (ckt : chop_circuit_t) : list Z :=
  map (fun b => seqno (wb_hdr b)) (wire ckt).

(** [void chop_circuit_t::add_downstream(chop_conn_t *conn)] *)
Definition add_downstream (c : chop_conn_t) (ckt : chop_circuit_t)
  : chop_circuit_t :=
  do_call (with_downstreams ckt (downstreams ckt ++ [c]))
          circuit_disarm_axe_timer.

(** The entry points of a circuit that the event loop drives. *)
Inductive action : Type :=
| act_send
| act_send_eof
| act_must_send (id : Z)
| act_recv (id : Z) (inbound : list Z)
| act_upstream_data (bytes : list Z)
| act_add_downstream (c : chop_conn_t).

Definition with_up_input (ckt : chop_circuit_t) (i : evbuffer) :=
  {| recv_queue := recv_queue ckt; downstreams := downstreams ckt;
     server_mode := server_mode ckt; circuit_id := circuit_id ckt;
     send_seq := send_seq ckt; dead_cycles := dead_cycles ckt;
     received_fin := received_fin ckt; sent_fin := sent_fin ckt;
     upstream_eof := upstream_eof ckt; up_input := i;
     up_output := up_output ckt; wire := wire ckt; calls := calls ckt |}.

Definition perform (a : action) (ckt : chop_circuit_t) : outcome :=
  match a with
  | act_send => send ckt
  | act_send_eof => send_eof ckt
  | act_must_send id => conn_must_send id ckt
  | act_recv id inbound => recv id inbound ckt
  | act_upstream_data bytes =>
      Ret 0 (with_up_input ckt (up_input ckt ++ bytes))
  | act_add_downstream c => Ret 0 (add_downstream c ckt)
  end.

(** A run: the actions one after the other, the return codes ignored,
    stopped by a crash. *)
Fixpoint run (l : list action) (ckt : chop_circuit_t) : outcome :=
  match l with
  | [] => Ret 0 ckt
  | a :: l' =>
      match perform a ckt with
      | Ret _ ckt' => run l' ckt'
      | r => r
      end
  end.

(** What the four locals of [pick_connection] hold after the
    connections of [seen] have been visited. *)
Definition pick_inv (desired : Z) (seen : list chop_conn_t)
    (acc : Z * Z * option chop_conn_t * option chop_conn_t) : Prop :=
  let '(maxbelow, minabove, targbelow, targabove) := acc in
  match targabove with
  | None =>
      minabove = MAX_BLOCK_SIZE + 1 /\
      forall c r, In c seen -> offered_room c = Some r -> r < desired
  | Some a =>
      In a seen /\ offered_room a = Some minabove /\ desired <= minabove /\
      forall c r, In c seen -> offered_room c = Some r -> desired <= r ->
                  minabove <= r
  end /\
  match targbelow with
  | None =>
      maxbelow = 0 /\
      forall c r, In c seen -> offered_room c = Some r -> r < desired ->
                  r <= 0
  | Some b =>
      In b seen /\ offered_room b = Some maxbelow /\
      0 < maxbelow < desired /\
      forall c r, In c seen -> offered_room c = Some r -> r < desired ->
                  r <= maxbelow
  end.

(** From [c] to [c'] the wire has only grown, by blocks that carry the
    sequence numbers [send_seq c], [send_seq c + 1], ..., and
    [send_seq] has gone up by their number, modulo 2^32. *)
Definition seq_step (c c' : chop_circuit_t) : Prop :=
  exists new,
    wire c' = wire c ++ new /\
    map (fun b => seqno (wb_hdr b)) new
      = consecutive (send_seq c) (length new) /\
    send_seq c' = wrap32 (send_seq c + Z.of_nat (length new)).

Definition seq_ok (c : chop_circuit_t) (o : outcome) : Prop :=
  match o with
  | Ret _ c' => seq_step c c'
  | _ => True
  end.

(** [c'] differs from [c] at most in the reassembly queue. *)
Definition same_but_queue (c c' : chop_circuit_t) : Prop :=
  downstreams c' = downstreams c /\ server_mode c' = server_mode c /\
  circuit_id c' = circuit_id c /\ send_seq c' = send_seq c /\
  dead_cycles c' = dead_cycles c /\ received_fin c' = received_fin c /\
  sent_fin c' = sent_fin c /\ upstream_eof c' = upstream_eof c /\
  up_input c' = up_input c /\ up_output c' = up_output c /\
  wire c' = wire c /\ calls c' = calls c.

(** What sending leaves alone: the receive side of the circuit, its
    identity, and which connections are attached. *)
Definition send_frame (c c' : chop_circuit_t) : Prop :=
  recv_queue c' = recv_queue c /\ up_output c' = up_output c /\
  received_fin c' = received_fin c /\ server_mode c' = server_mode c /\
  circuit_id c' = circuit_id c /\
  map serial (downstreams c') = map serial (downstreams c).

Definition send_frame_ok (c : chop_circuit_t) (o : outcome) : Prop :=
  match o with
  | Ret _ c' => send_frame c c'
  | _ => True
  end.

(** The wire form of an item under sequence number [s]. *)
Definition sealed (s : Z) (it : item) : list Z :=
  let '(f, chunk, p) := it in
  seal_block (block_header_enc K s (Z.of_nat (length chunk)) p f)
             (chunk ++ repeat 0 (Z.to_nat p)).

(** Items under the sequence numbers [n], [n+1], ... modulo 2^32. *)
Fixpoint sealed_from (n : Z) (items : list item) : list (list Z) :=
  match items with
  | [] => []
  | it :: t => sealed (wrap32 n) it :: sealed_from (n + 1) t
  end.

(** An item of the sending loop: data or, at the upstream's end of
    file, FIN, with section lengths in range. *)
Definition item_ok (eof : bool) (it : item) : Prop :=
  let '(f, chunk, p) := it in
  (f = op_DAT \/ (f = op_FIN /\ eof = true)) /\
  Z.of_nat (length chunk) <= SECTION_LEN /\ 0 <= p <= SECTION_LEN.

(** From [c] to [c'] a prefix of the upstream input has gone out as
    items, sealed under the sequence numbers from [send_seq c] on. *)
Definition ships (c c' : chop_circuit_t) : Prop :=
  is_u32 (send_seq c) ->
  exists (items : list item) (blocks : list wire_block),
    up_input c = concat (map item_chunk items) ++ up_input c' /\
    wire c' = wire c ++ blocks /\
    map wb_block blocks = sealed_from (send_seq c) items /\
    send_seq c' = wrap32 (send_seq c + Z.of_nat (length items)) /\
    Forall (item_ok (upstream_eof c)) items /\
    upstream_eof c' = upstream_eof c.

(** [P] holds of [c'] when it held of [c]. *)
Definition preserves (P : chop_circuit_t -> Prop)
    (c c' : chop_circuit_t) : Prop :=
  P c -> P c'.

(** The FIN blocks among the blocks sent so far. *)
Definition fin_blocks (c : chop_circuit_t) : list wire_block :=
  List.filter (fun b => opcode (wb_hdr b) =? op_FIN) (wire c).

(** The RST blocks among the blocks sent so far. *)
Definition rst_blocks (c : chop_circuit_t) : list wire_block :=
  List.filter (fun b => opcode (wb_hdr b) =? op_RST) (wire c).

(** [sent_fin] says whether a FIN block has gone out, there is never a
    second one, and none goes out before the upstream's end of file. *)
Definition fin_inv (c : chop_circuit_t) : Prop :=
  length (fin_blocks c) = (if sent_fin c then 1%nat else 0%nat) /\
  (sent_fin c = true -> upstream_eof c = true).

(** A relation between the circuit before a call and the circuit the
    call returns. *)
Definition holds_on_return (R : chop_circuit_t -> chop_circuit_t -> Prop)
    (c : chop_circuit_t) (o : outcome) : Prop :=
  match o with
  | Ret _ c' => R c c'
  | _ => True
  end.

(** Block [b] carries [chunk]: its header announces as many data bytes
    as [chunk] has, and the block is the sealed form of [chunk] followed
    by the announced padding. *)
Definition carries (b : wire_block) (chunk : evbuffer) : Prop :=
  dlen (wb_hdr b) = Z.of_nat (length chunk) /\
  wb_block b
  = seal_block (wb_hdr b)
               (chunk ++ repeat 0 (Z.to_nat (plen (wb_hdr b)))).

(** From [c] to [c'] the upstream input has lost a prefix, and that
    prefix has gone out, cut into chunks, in the blocks added to the
    wire. *)
Definition moves (c c' : chop_circuit_t) : Prop :=
  exists chunks blocks,
    up_input c = concat chunks ++ up_input c' /\
    wire c' = wire c ++ blocks /\
    Forall2 carries blocks chunks.

End Chop.

(** ** A circuit that only sends chaff *)

(** A server-side connection whose steg module offers 100 bytes. *)
Definition chaff_conn : @chop_conn_t Z :=
  {| serial := 1; steg := Some 100; recv_pending := [];
     must_send_pending := false; sent_handshake := false;
     no_more_transmissions := false |}.

(** A circuit with one such downstream, nothing to send and no EOF in
    either direction: every [send] emits one block of chaff. *)
Definition chaff_shape (c : @chop_circuit_t Z) : Prop :=
  (exists cn, downstreams c = [cn] /\ serial cn = 1 /\ steg cn = Some 100) /\
  server_mode c = true /\ up_input c = [] /\ upstream_eof c = false /\
  sent_fin c = false /\ is_u32 (send_seq c).

(** ** A small circuit to run the model on *)

(** A server circuit with the chaff connection attached and three bytes
    waiting in the upstream input. *)
Definition demo_circuit : @chop_circuit_t Z :=
  with_up_input (add_downstream chaff_conn (chop_circuit_new true 7))
                [104; 105; 33].

(** The block that carries those three bytes and two bytes of padding
    under sequence number 0. *)
Definition demo_block : list Z :=
  seal_block toy_ciphers (block_header_enc toy_ciphers 0 3 2 op_DAT)
             [104; 105; 33; 0; 0].

(** The circuit of an outcome, or [dflt] when the call did not return. *)
Definition outcome_circuit {St : Type} (dflt : @chop_circuit_t St)
    (o : outcome) : chop_circuit_t :=
  match o with
  | Ret _ c => c
  | _ => dflt
  end.

(** The same circuit with 100 bytes waiting: more than the connection's
    100 bytes of room can take together with the 32 bytes of framing. *)
Definition crowded_circuit : @chop_circuit_t Z :=
  with_up_input demo_circuit (repeat 65 100).

(** A server circuit whose queue holds blocks 0, 1 and 2, which arrived
    as 1, 0, 2: two DAT blocks and the FIN. *)
Definition queued_circuit : @chop_circuit_t Z :=
  with_recv_queue (add_downstream chaff_conn (chop_circuit_new true 7))
    (snd (insert_all [(1, op_DAT, [105]); (0, op_DAT, [104]);
                      (2, op_FIN, [33])] reassembly_queue_new)).

(** ** Configuration: [chop_config_t] *)

Inductive listen_mode : Type :=
| LSN_SIMPLE_CLIENT
| LSN_SOCKS_CLIENT
| LSN_SIMPLE_SERVER.

(** An address as [resolve_address_port] has made it: the text it was
    given, whether it was resolved for listening, and the default
    port. *)
Record addrinfo : Type := {
  ai_text : String.string;
  ai_passive : bool;
  ai_defport : option String.string
}.

Record chop_config_t : Type := {
  mode : listen_mode;
  up_address : option addrinfo;
  down_addresses : list addrinfo;
  steg_targets : list String.string
}.

Local Open Scope string_scope.

Definition port_client : String.string := "48988".
Definition port_socks : String.string := "23548".
Definition port_server : String.string := "11253".

(** The mode word of the command line: the default port, the mode and
    [listen_up]. *)
Definition mode_of (m : String.string)
  : option (String.string * listen_mode * bool) :=
  if String.eqb m "client" then Some (port_client, LSN_SIMPLE_CLIENT, true)
  else if String.eqb m "socks" then Some (port_socks, LSN_SOCKS_CLIENT, true)
  else if String.eqb m "server"
       then Some (port_server, LSN_SIMPLE_SERVER, false)
  else None.

Local Close Scope string_scope.

(** Address and steganographer, pair after pair. *)
Definition flat_pairs (pairs : list (String.string * String.string))
  : list String.string :=
  concat (map (fun as_ => [fst as_; snd as_]) pairs).

Section Config.

(** Which texts [resolve_address_port] resolves, for listening or not
    and with or without a default port, and which steganographers
    [steg_is_supported] knows. *)
Variable resolvable : String.string -> bool -> option String.string -> bool.
Variable steg_is_supported : String.string -> bool.

Definition resolve_address_port (address : String.string) (passive : bool)
    (default_port : option String.string) : option addrinfo :=
  if resolvable address passive default_port
  then Some {| ai_text := address; ai_passive := passive;
               ai_defport := default_port |}
  else None.

(** A pair of options the loop of [init] accepts, and the downstream
    address it makes of it. *)
Definition pair_ok (listen_up : bool)
    (as_ : String.string * String.string) : Prop :=
  resolvable (fst as_) (negb listen_up) None = true /\
  steg_is_supported (snd as_) = true.

Definition down_of (listen_up : bool)
    (as_ : String.string * String.string) : addrinfo :=
  {| ai_text := fst as_; ai_passive := negb listen_up; ai_defport := None |}.

(** The [for] loop of [init] over the options from the third on. *)
Fixpoint init_loop (listen_up : bool) (rest : list String.string)
    (cfg : chop_config_t) : bool * chop_config_t :=
  match rest with
  | [] => (true, cfg)
  | a :: rest' =>
      match resolve_address_port a (negb listen_up) None with
      | None => (false, cfg)
      | Some addr =>
          let cfg :=
            {| mode := mode cfg; up_address := up_address cfg;
               down_addresses := down_addresses cfg ++ [addr];
               steg_targets := steg_targets cfg |} in
          match rest' with
          | [] => (false, cfg)
          | s :: rest'' =>
              if negb (steg_is_supported s) then (false, cfg)
              else
                init_loop listen_up rest''
                  {| mode := mode cfg; up_address := up_address cfg;
                     down_addresses := down_addresses cfg;
                     steg_targets := steg_targets cfg ++ [s] |}
          end
      end
  end.

(** [bool chop_config_t::init(int n_options,
    const char *const *options)]: the result and the configuration
    object afterwards. *)
Definition init (options : list String.string) (cfg : chop_config_t)
  : bool * chop_config_t :=
  if (length options <? 3)%nat then (false, cfg)
  else
    match options with
    | m :: up :: rest =>
        match mode_of m with
        | None => (false, cfg)
        | Some (defport, md, listen_up) =>
            let up_addr := resolve_address_port up listen_up (Some defport) in
            let cfg :=
              {| mode := md; up_address := up_addr;
                 down_addresses := down_addresses cfg;
                 steg_targets := steg_targets cfg |} in
            match up_addr with
            | None => (false, cfg)
            | Some _ => init_loop listen_up rest cfg
            end
        end
    | _ => (false, cfg)
    end.

(** [struct evutil_addrinfo *chop_config_t::get_listen_addrs(size_t n)] *)
Definition get_listen_addrs (cfg : chop_config_t) (n : nat)
  : option addrinfo :=
  match mode cfg with
  | LSN_SIMPLE_SERVER => down_addresses cfg !! n
  | _ => if (n =? 0)%nat then up_address cfg else None
  end.

(** [struct evutil_addrinfo *chop_config_t::get_target_addrs(size_t n)] *)
Definition get_target_addrs (cfg : chop_config_t) (n : nat)
  : option addrinfo :=
  match mode cfg with
  | LSN_SIMPLE_SERVER => if (n =? 0)%nat then up_address cfg else None
  | _ => down_addresses cfg !! n
  end.

End Config.

(** A configuration object before [init]. *)
Definition blank_config : chop_config_t :=
  {| mode := LSN_SIMPLE_CLIENT; up_address := None;
     down_addresses := []; steg_targets := [] |}.

(** ** The circuit table and the handshake *)

(** The [uint32_t] that four bytes in host order are. *)
Definition from_le32 (b : list Z) : Z :=
  Z.lor (Z.lor (Z.lor (at_ b 0) (Z.shiftl (at_ b 1) 8))
               (Z.shiftl (at_ b 2) 16))
        (Z.shiftl (at_ b 3) 24).

Section Table.
Context {St : Type}.

(** The circuit table, [unordered_map<uint32_t, chop_circuit_t *>], is
    a [gmap Z (option chop_circuit_t)]: a null pointer is [None]. *)

Definition with_circuit_id (ckt : @chop_circuit_t St) (id : Z) :=
  {| recv_queue := recv_queue ckt; downstreams := downstreams ckt;
     server_mode := server_mode ckt; circuit_id := id;
     send_seq := send_seq ckt; dead_cycles := dead_cycles ckt;
     received_fin := received_fin ckt; sent_fin := sent_fin ckt;
     upstream_eof := upstream_eof ckt; up_input := up_input ckt;
     up_output := up_output ckt; wire := wire ckt; calls := calls ckt |}.

Definition with_recv_pending (c : @chop_conn_t St) (p : evbuffer) :=
  {| serial := serial c; steg := steg c; recv_pending := p;
     must_send_pending := must_send_pending c;
     sent_handshake := sent_handshake c;
     no_more_transmissions := no_more_transmissions c |}.

(** The two nested [do ... while] loops of [circuit_create]: [rng]
    lists the values that the calls of [rng_bytes] store in
    [circuit_id], one after the other; the result is the first that is
    not zero and not a key of the table, and the values left. *)
Fixpoint pick_circuit_id (rng : list Z)
    (circuits : gmap Z (option (@chop_circuit_t St)))
  : option (Z * list Z) :=
  match rng with
  | [] => None
  | x :: rng' =>
      if x =? 0 then pick_circuit_id rng' circuits
      else
        match circuits !! x with
        | Some _ => pick_circuit_id rng' circuits
        | None => Some (x, rng')
        end
  end.

(** [circuit_t *chop_config_t::circuit_create(size_t)]: the circuit, the
    table and the random values left. *)
Definition circuit_create (md : listen_mode) (rng : list Z)
    (circuits : gmap Z (option (@chop_circuit_t St)))
  : option (@chop_circuit_t St * gmap Z (option (@chop_circuit_t St))
            * list Z) :=
  match md with
  | LSN_SIMPLE_SERVER => Some (chop_circuit_new true 0, circuits, rng)
  | _ =>
      match pick_circuit_id rng circuits with
      | None => None
      | Some (id, rng') =>
          let ckt := chop_circuit_new false id in
          Some (ckt, <[id := Some ckt]> circuits, rng')
      end
  end.

(** The end of [chop_circuit_t::~chop_circuit_t]: the table entry of
    the circuit's id is set to null.  The two assertions fail, and the
    process stops ([None]), when the id is not a key of the table or
    the entry is not this circuit; [here] says whether the entry found
    is this circuit. *)
Definition release_id (id : Z) (here : bool)
    (circuits : gmap Z (option (@chop_circuit_t St)))
  : option (gmap Z (option (@chop_circuit_t St))) :=
  match circuits !! id with
  | None => None
  | Some _ => if here then Some (<[id := None]> circuits) else None
  end.

Inductive handshake_result : Type :=
| hs_failed (c : @chop_conn_t St)
            (circuits : gmap Z (option (@chop_circuit_t St)))
| hs_stale (c : @chop_conn_t St)
           (circuits : gmap Z (option (@chop_circuit_t St)))
| hs_attached (id : Z) (c : @chop_conn_t St)
              (circuits : gmap Z (option (@chop_circuit_t St)))
| hs_abort.

(** The table a handshake leaves, when the process goes on. *)
Definition handshake_table (r : handshake_result)
  : option (gmap Z (option (@chop_circuit_t St))) :=
  match r with
  | hs_failed _ t | hs_stale _ t | hs_attached _ _ t => Some t
  | hs_abort => None
  end.

(** [int chop_conn_t::recv_handshake()] on a server, for a connection
    without a circuit: [hs_failed] is the return of -1, [hs_stale] the
    return of 0 with [upstream] still null, [hs_attached] the return of
    0 with the connection added to the circuit under [id], [hs_abort] a
    failed assertion.  [evbuffer_remove] takes what there is when there
    are fewer than 4 bytes.  [create_ok] and [open_ok] say whether the
    framework's [circuit_create] and [circuit_open_upstream] succeed.
    When the upstream cannot be opened, [delete ck] runs the destructor
    on a circuit that has not been entered in the table. *)
Definition recv_handshake (c : @chop_conn_t St)
    (circuits : gmap Z (option (@chop_circuit_t St)))
    (create_ok open_ok : bool) : handshake_result :=
  if Z.of_nat (length (recv_pending c)) <? 4
  then hs_failed (with_recv_pending c []) circuits
  else
    let id := from_le32 (firstn 4 (recv_pending c)) in
    let c := with_recv_pending c (skipn 4 (recv_pending c)) in
    match circuits !! id with
    | Some None => hs_stale c circuits
    | Some (Some ck) =>
        hs_attached id c (<[id := Some (add_downstream c ck)]> circuits)
    | None =>
        let circuits := <[id := None]> circuits in
        if negb create_ok then hs_failed c circuits
        else
          let ck := chop_circuit_new true 0 in
          if negb open_ok then
            match release_id (circuit_id ck) false circuits with
            | Some circuits => hs_failed c circuits
            | None => hs_abort
            end
          else
            let ck := with_circuit_id ck id in
            hs_attached id c (<[id := Some (add_downstream c ck)]> circuits)
    end.

End Table.

(** ** Timer intervals *)

(** [uint32_t axe_interval()] *)
Definition axe_interval : Z := 30 * 60 * 1000.

(** The locals [shift] and [xv] of [flush_interval], from
    [dead_cycles]. *)
Definition flush_shift (dead_cycles : Z) : Z :=
  Z.max 1 (Z.min 19 dead_cycles).

Definition flush_xv (dead_cycles : Z) : Z :=
  Z.max 1 (Z.min (10 * 60 * 1000)
                 (wrap32 (Z.shiftl 1 (flush_shift dead_cycles)))).

(** [uint32_t flush_interval()], over the value [rng_range_geom]
    returns. *)
Definition flush_interval (rng_range_geom : Z -> Z -> Z)
    (dead_cycles : Z) : Z :=
  wrap32 (rng_range_geom (20 * 60 * 1000) (flush_xv dead_cycles) + 100).

(** * Properties *)

(** ** Arithmetic on machine integers *)

Lemma wrap32_wrap64 (x : Z) : wrap32 (wrap64 x) = wrap32 x.
Proof.
  unfold wrap32, wrap64.
  apply Z.mod_mod_divide.
  exists (2 ^ 32). reflexivity.
Qed.

Lemma wrap32_small (x : Z) : is_u32 x -> wrap32 x = x.
Proof. unfold is_u32, wrap32. intros. apply Z.mod_small. lia. Qed.

Lemma wrap32_range (x : Z) : is_u32 (wrap32 x).
Proof. unfold is_u32, wrap32. apply Z.mod_pos_bound. lia. Qed.

Lemma u8_land_ones (a : Z) : is_u8 a <-> Z.land a (Z.ones 8) = a.
Proof.
  unfold is_u8. rewrite Z.land_ones by lia. split; intros H.
  - apply Z.mod_small. lia.
  - rewrite <- H. apply Z.mod_pos_bound. lia.
Qed.

Lemma lor_u8 (a b : Z) : is_u8 a -> is_u8 b -> is_u8 (Z.lor a b).
Proof.
  rewrite !u8_land_ones. intros Ha Hb.
  rewrite Z.land_lor_distr_l. congruence.
Qed.

Lemma lognot_lognot_0 (x : Z) : lognot (lognot x) = 0 <-> x = 0.
Proof.
  unfold lognot. destruct (Z.eqb_spec x 0); simpl; split; intros; congruence.
Qed.

Lemma lognot_lognot_range (x : Z) : 0 <= lognot (lognot x) <= 1.
Proof. unfold lognot. destruct (x =? 0); simpl; lia. Qed.

(** The mask [~uint32_t(0xFF)] keeps exactly the bits above the low
    byte. *)
Lemma high_bits_zero (d : Z) :
  is_u32 d -> Z.land d (wrap32 (Z.lnot 0xFF)) = 0 <-> d <= 255.
Proof.
  unfold is_u32. intros Hd.
  change (wrap32 (Z.lnot 0xFF)) with 4294967040.
  split.
  - intros H0.
    assert (Hsplit : d = Z.land d (Z.ones 8)).
    { rewrite <- (Z.mod_small d (2 ^ 32)) at 1 by lia.
      rewrite <- Z.land_ones by lia.
      change (Z.ones 32) with (Z.lor 4294967040 (Z.ones 8)).
      rewrite Z.land_lor_distr_r, H0. apply Z.lor_0_l. }
    rewrite Z.land_ones in Hsplit by lia.
    pose proof (Z.mod_pos_bound d (2 ^ 8)). lia.
  - intros Hle. apply Z.bits_inj'. intros n Hn.
    rewrite Z.land_spec, Z.bits_0.
    destruct (Z.ltb_spec n 8).
    + change 4294967040 with (Z.shiftl (Z.ones 24) 8).
      rewrite Z.shiftl_spec_low by lia. apply andb_false_r.
    + rewrite <- (Z.mod_small d (2 ^ 8)) by lia.
      rewrite Z.mod_pow2_bits_high by lia. reflexivity.
Qed.

(** Membership in the window, by the unsigned difference. *)
Lemma in_window_delta (w s : Z) :
  is_u32 w -> is_u32 s -> in_window w s <-> wrap32 (s - w) <= 255.
Proof.
  unfold is_u32, in_window, wrap32. intros Hw Hs. split.
  - intros (k & Hk & ->).
    rewrite Zminus_mod_idemp_l.
    replace (w + k - w) with k by lia.
    rewrite Z.mod_small; lia.
  - intros H. exists ((s - w) mod 2 ^ 32). split.
    + pose proof (Z.mod_pos_bound (s - w) (2 ^ 32)). lia.
    + rewrite Zplus_mod_idemp_r.
      replace (w + (s - w)) with s by lia.
      rewrite Z.mod_small; lia.
Qed.

(** ** The header codec *)

Lemma lor_disjoint_add (x b n : Z) :
  0 <= n -> x mod 2 ^ n = 0 -> 0 <= b < 2 ^ n -> Z.lor x b = x + b.
Proof.
  intros Hn Hx Hb.
  assert (Hland : Z.land x b = 0).
  { apply Z.bits_inj'. intros k Hk. rewrite Z.land_spec, Z.bits_0.
    destruct (Z.ltb_spec k n).
    - rewrite (Z.div_mod x (2 ^ n)) by lia.
      rewrite Hx, Z.add_0_r, Z.mul_comm.
      rewrite Z.mul_pow2_bits_low by lia. reflexivity.
    - rewrite <- (Z.mod_small b (2 ^ n)) by lia.
      rewrite Z.mod_pow2_bits_high by lia. apply andb_false_r. }
  rewrite <- Z.lxor_lor by assumption.
  symmetry. apply Z.add_nocarry_lxor. assumption.
Qed.

Lemma land_255 (x : Z) : Z.land x 0xFF = x mod 2 ^ 8.
Proof. change 0xFF with (Z.ones 8). apply Z.land_ones. lia. Qed.

(** The four bytes of [s], most significant first, as the constructor
    writes them, and [seqno] reading them back. *)
Lemma be32_roundtrip (s : Z) :
  is_u32 s ->
  Z.lor (Z.lor (Z.lor (Z.shiftl (Z.land (Z.shiftr s 24) 0xFF) 24)
                      (Z.shiftl (Z.land (Z.shiftr s 16) 0xFF) 16))
               (Z.shiftl (Z.land (Z.shiftr s 8) 0xFF) 8))
        (Z.land s 0xFF) = s.
Proof.
  unfold is_u32. intros Hs.
  rewrite !land_255, !Z.shiftl_mul_pow2, !Z.shiftr_div_pow2 by lia.
  set (a := (s / 2 ^ 24) mod 2 ^ 8).
  set (b := (s / 2 ^ 16) mod 2 ^ 8).
  set (c := (s / 2 ^ 8) mod 2 ^ 8).
  set (d := s mod 2 ^ 8).
  assert (Hb : 0 <= b < 2 ^ 8) by (apply Z.mod_pos_bound; lia).
  assert (Hc : 0 <= c < 2 ^ 8) by (apply Z.mod_pos_bound; lia).
  assert (Hd : 0 <= d < 2 ^ 8) by (apply Z.mod_pos_bound; lia).
  rewrite (lor_disjoint_add (a * 2 ^ 24) (b * 2 ^ 16) 24);
    [| lia | apply Z.mod_mul; lia | lia ].
  rewrite (lor_disjoint_add (a * 2 ^ 24 + b * 2 ^ 16) (c * 2 ^ 8) 16);
    [| lia
     | replace (a * 2 ^ 24 + b * 2 ^ 16) with ((a * 2 ^ 8 + b) * 2 ^ 16)
         by ring; apply Z.mod_mul; lia
     | lia ].
  rewrite (lor_disjoint_add (a * 2 ^ 24 + b * 2 ^ 16 + c * 2 ^ 8) d 8);
    [| lia
     | replace (a * 2 ^ 24 + b * 2 ^ 16 + c * 2 ^ 8)
         with ((a * 2 ^ 16 + b * 2 ^ 8 + c) * 2 ^ 8) by ring;
       apply Z.mod_mul; lia
     | lia ].
  subst a b c d. Z.div_mod_to_equations. lia.
Qed.

Lemma be16_roundtrip (d : Z) :
  0 <= d < 2 ^ 16 ->
  Z.lor (Z.shiftl (Z.land (Z.shiftr d 8) 0xFF) 8) (Z.land d 0xFF) = d.
Proof.
  intros Hd.
  rewrite !land_255, !Z.shiftl_mul_pow2, !Z.shiftr_div_pow2 by lia.
  rewrite (lor_disjoint_add _ _ 8); try lia;
    [| apply Z.mod_mul; lia | pose proof (Z.mod_pos_bound d (2 ^ 8)); lia ].
  Z.div_mod_to_equations. lia.
Qed.

Ltac explode_list l H :=
  repeat (destruct l as [| ? l]; simpl in H; try lia).

Ltac forall_inv :=
  repeat match goal with
         | H : Forall _ (_ :: _) |- _ => inversion H; subst; clear H
         | H : Forall _ [] |- _ => clear H
         end.

Lemma seqno_sum (b0 b1 b2 b3 : Z) (tl ci : list Z) :
  is_u8 b0 -> is_u8 b1 -> is_u8 b2 -> is_u8 b3 ->
  seqno {| clear := b0 :: b1 :: b2 :: b3 :: tl; ciphr := ci |}
  = b0 * 2 ^ 24 + b1 * 2 ^ 16 + b2 * 2 ^ 8 + b3.
Proof.
  unfold is_u8, seqno, at_. simpl clear. simpl nth. intros H0 H1 H2 H3.
  rewrite !Z.shiftl_mul_pow2 by lia.
  rewrite (lor_disjoint_add (b0 * 2 ^ 24) (b1 * 2 ^ 16) 24);
    [| lia | apply Z.mod_mul; lia | lia ].
  rewrite (lor_disjoint_add (b0 * 2 ^ 24 + b1 * 2 ^ 16) (b2 * 2 ^ 8) 16);
    [| lia
     | replace (b0 * 2 ^ 24 + b1 * 2 ^ 16) with ((b0 * 2 ^ 8 + b1) * 2 ^ 16)
         by ring; apply Z.mod_mul; lia
     | lia ].
  rewrite (lor_disjoint_add (b0 * 2 ^ 24 + b1 * 2 ^ 16 + b2 * 2 ^ 8) b3 8);
    [| lia
     | replace (b0 * 2 ^ 24 + b1 * 2 ^ 16 + b2 * 2 ^ 8)
         with ((b0 * 2 ^ 16 + b1 * 2 ^ 8 + b2) * 2 ^ 8) by ring;
       apply Z.mod_mul; lia
     | lia ].
  reflexivity.
Qed.

Lemma seqno_range (h : block_header) :
  length (clear h) = 16%nat -> Forall is_u8 (clear h) -> is_u32 (seqno h).
Proof.
  destruct h as [cl ci]. simpl. intros Hlen Hall.
  explode_list cl Hlen. forall_inv.
  rewrite seqno_sum by assumption.
  unfold is_u8, is_u32 in *. lia.
Qed.

(** [valid] in terms of the two quantities it tests. *)
Lemma valid_true_iff (h : block_header) (w : Z) :
  length (clear h) = 16%nat -> Forall is_u8 (clear h) ->
  valid h w = true <->
  check_field h = repeat 0 7 /\ wrap32 (seqno h - w) <= 255.
Proof.
  intros Hlen Hall.
  pose proof (seqno_range h Hlen Hall) as Hseq.
  destruct h as [cl ci]. simpl in Hlen, Hall.
  explode_list cl Hlen. forall_inv.
  unfold valid, check_field, at_. simpl clear. simpl nth. simpl firstn.
  rewrite wrap32_wrap64.
  set (delta := wrap32 _).
  set (x := lognot (lognot _)).
  assert (Hx : is_u8 x).
  { pose proof (lognot_lognot_range (Z.land delta (wrap32 (Z.lnot 255)))).
    unfold is_u8. fold x in H. lia. }
  set (ck := Z.lor (Z.lor (Z.lor (Z.lor (Z.lor (Z.lor z8 z9) z10) z11) z12) z13) z14).
  assert (Hck : is_u8 ck) by (subst ck; repeat apply lor_u8; assumption).
  pose proof (lor_u8 _ _ Hck Hx) as Hlor.
  unfold wrap8. rewrite Z.mod_small by exact Hlor.
  unfold lognot at 1.
  destruct (Z.eqb_spec (Z.lor ck x) 0) as [E | E]; simpl.
  - apply Z.lor_eq_0_iff in E as [Eck Ex].
    subst ck. repeat (apply Z.lor_eq_0_iff in Eck as [Eck ?]). subst.
    subst x. apply (proj1 (lognot_lognot_0 _)) in Ex.
    apply (proj1 (high_bits_zero _ (wrap32_range _))) in Ex.
    split; [intros _ | reflexivity]. split; [reflexivity | exact Ex].
  - split; [discriminate |]. intros [Echeck Hdelta]. exfalso. apply E.
    injection Echeck as -> -> -> -> -> -> ->.
    apply Z.lor_eq_0_iff. split; [reflexivity |].
    subst x. apply (proj2 (lognot_lognot_0 _)).
    apply (proj2 (high_bits_zero _ (wrap32_range _))). exact Hdelta.
Qed.

(** C2: [valid(w)] holds iff the seven check bytes are zero and the
    unsigned 32-bit difference [seqno - w] is at most 255; a header is
    rejected exactly when the check field is not zero or the sequence
    number is outside the window of 256 numbers that starts at [w]. *)
Theorem valid_iff_check_zero_and_in_window (h : block_header) (w : Z) :
  length (clear h) = 16%nat -> Forall is_u8 (clear h) -> is_u32 w ->
  (valid h w = true <->
     check_field h = repeat 0 7 /\ wrap32 (seqno h - w) <= 255) /\
  (valid h w = false <->
     check_field h <> repeat 0 7 \/ ~ in_window w (seqno h)).
Proof.
  intros Hlen Hall Hw.
  pose proof (valid_true_iff h w Hlen Hall) as Hv.
  pose proof (in_window_delta w (seqno h) Hw (seqno_range h Hlen Hall)) as Hin.
  split; [exact Hv |].
  destruct (valid h w) eqn:E.
  - split; [discriminate |]. intros [Hc | Hwin]; exfalso.
    + apply Hc. apply Hv. reflexivity.
    + apply Hwin. apply Hin. apply Hv. reflexivity.
  - split; [intros _ | reflexivity].
    destruct (decide (check_field h = repeat 0 7)) as [Hc | Hc];
      [right | left; exact Hc].
    intros Hwin. apply Hin in Hwin.
    assert (false = true) by (apply Hv; split; assumption). discriminate.
Qed.

Lemma valid_invalid_header (w : Z) : valid invalid_header w = false.
Proof.
  unfold valid, invalid_header, at_. simpl clear. simpl nth.
  generalize (wrap32 (wrap64
    (seqno {| clear := repeat 255 16; ciphr := repeat 255 16 |} - w))).
  intros delta. unfold lognot at 2 3.
  destruct (Z.land delta (wrap32 (Z.lnot 255)) =? 0); reflexivity.
Qed.

Lemma reserved_opcode_test (f : opcode_t) :
  6 <= f <= 127 \/ 255 < f ->
  (f >? op_LAST) || ((f >=? op_RESERVED0) && (f <? op_STEG0)) = true.
Proof.
  unfold op_LAST, op_RESERVED0, op_STEG0. intros H.
  apply orb_true_iff.
  destruct H as [H | H]; [right | left].
  - apply andb_true_iff. split; [apply Z.geb_le | apply Z.ltb_lt]; lia.
  - apply Z.gtb_lt. lia.
Qed.

(** C10: for a reserved opcode (6..127, or above 255) the encoding
    constructor leaves sixteen [0xFF] bytes in both the cleartext and the
    ciphertext, [valid] is false on that header for every window value,
    and [send_targeted] stops at its assertion instead of sending. *)
Theorem reserved_opcode_never_valid
    {St : Type} (M : steg_module St) (K : ciphers)
    (s d p : Z) (f : opcode_t) :
  6 <= f <= 127 \/ 255 < f ->
  clear (block_header_enc K s d p f) = repeat 0xFF 16 /\
  ciphr (block_header_enc K s d p f) = repeat 0xFF 16 /\
  (forall w, valid (block_header_enc K s d p f) w = false) /\
  (forall conn payload ckt,
     send_targeted5 M K conn d p f payload ckt = Crash).
Proof.
  intros Hf. pose proof (reserved_opcode_test f Hf) as Ht.
  assert (Hh : forall s d p, block_header_enc K s d p f = invalid_header).
  { intros. unfold block_header_enc. rewrite Ht. reflexivity. }
  rewrite Hh. repeat split.
  - intros w. apply valid_invalid_header.
  - intros conn payload ckt. unfold send_targeted5.
    rewrite Hh, valid_invalid_header. simpl negb.
    repeat match goal with |- context [if ?b then _ else _] =>
      destruct b; try reflexivity end.
Qed.

(** ** The reassembly queue *)

Lemma front_index (n : Z) : wrap8 (Z.land n 0xFF) = n mod 2 ^ 8.
Proof. rewrite land_255. unfold wrap8. apply Z.mod_mod. lia. Qed.

(** The slot [insert] computes from [front] and the distance to the
    window start is the low byte of the sequence number. *)
Lemma insert_index (seq ntp : Z) :
  wrap8 (wrap32 (wrap8 (Z.land ntp 0xFF) + wrap32 (seq - ntp)))
  = seq mod 2 ^ 8.
Proof.
  rewrite front_index. unfold wrap8, wrap32.
  rewrite (Z.mod_mod_divide _ (2 ^ 32) (2 ^ 8)) by (exists (2 ^ 24); reflexivity).
  rewrite Z.add_mod by lia.
  rewrite Z.mod_mod by lia.
  rewrite (Z.mod_mod_divide _ (2 ^ 32) (2 ^ 8)) by (exists (2 ^ 24); reflexivity).
  rewrite <- Z.add_mod by lia.
  f_equal. lia.
Qed.

Lemma slot_insert_eq (q : reassembly_queue) (i : Z) (e : reassembly_elt) :
  length (cbuf q) = 256%nat -> 0 <= i < 256 ->
  slot {| cbuf := <[Z.to_nat i := e]> (cbuf q);
          next_to_process := next_to_process q |} i = e.
Proof.
  intros Hlen Hi. unfold slot. simpl.
  rewrite list_lookup_insert_eq by lia. reflexivity.
Qed.

Lemma slot_insert_ne (l : list reassembly_elt) (n n' : Z) (i j : Z)
    (e : reassembly_elt) :
  0 <= i -> 0 <= j -> i <> j ->
  slot {| cbuf := <[Z.to_nat i := e]> l; next_to_process := n' |} j
  = slot {| cbuf := l; next_to_process := n |} j.
Proof.
  intros Hi Hj Hne. unfold slot. simpl.
  rewrite list_lookup_insert_ne by lia. reflexivity.
Qed.

(** C3: [insert] refuses a block exactly when the unsigned 32-bit
    distance from [next_to_process] exceeds 255 or the slot of the
    sequence number is occupied; a refusal frees the payload and leaves
    the queue as it was; otherwise the block is stored in slot
    [seq mod 256], the other slots and [next_to_process] are kept, and
    the result is [true]. *)
Theorem insert_rejects_outside_window_or_duplicate
    (q : reassembly_queue) (seq : Z) (o : opcode_t) (d : evbuffer) :
  length (cbuf q) = 256%nat ->
  let rejected :=
    255 < wrap32 (seq - next_to_process q) \/
    is_Some (data (slot q (seq mod 256))) in
  let stored := {| data := Some d; op := o |} in
  (fst (fst (insert seq o d q)) = false <-> rejected) /\
  (rejected -> insert seq o d q = (false, q, [d])) /\
  (~ rejected ->
     exists q', insert seq o d q = (true, q', []) /\
       slot q' (seq mod 256) = stored /\
       (forall i, 0 <= i < 256 -> i <> seq mod 256 -> slot q' i = slot q i) /\
       length (cbuf q') = 256%nat /\
       next_to_process q' = next_to_process q).
Proof.
  intros Hlen rejected stored. subst rejected.
  assert (Hpos : 0 <= seq mod 256 < 256) by (apply Z.mod_pos_bound; lia).
  unfold insert, window. rewrite insert_index.
  change (2 ^ 8) with 256.
  destruct (Z.gtb_spec (wrap32 (seq - next_to_process q)) 255) as [Hout | Hin].
  - simpl. split; [| split].
    + split; [intros _; left; lia | reflexivity].
    + reflexivity.
    + intros Hn. exfalso. apply Hn. left. lia.
  - destruct (data (slot q (seq mod 256))) as [old |] eqn:Hslot.
    + simpl. split; [| split].
      * split; [intros _; right; eauto | reflexivity].
      * reflexivity.
      * intros Hn. exfalso. apply Hn. right. eauto.
    + simpl. split; [| split].
      * split; [discriminate |].
        intros [H | [x Hx]]; [lia | discriminate].
      * intros [H | [x Hx]]; [lia | discriminate].
      * intros _. eexists. split; [reflexivity |].
        split; [apply slot_insert_eq; assumption |].
        split; [| split; [simpl; rewrite length_insert; exact Hlen | reflexivity]].
        intros i Hi Hne. destruct q as [l n].
        apply slot_insert_ne; lia.
Qed.

Lemma remove_next_occupied (q : reassembly_queue) :
  is_Some (data (slot q (Z.land (next_to_process q) 0xFF))) ->
  remove_next q =
    (slot q (Z.land (next_to_process q) 0xFF),
     {| cbuf := <[Z.to_nat (Z.land (next_to_process q) 0xFF) := empty_elt]>
                  (cbuf q);
        next_to_process := wrap32 (next_to_process q + 1) |}).
Proof.
  intros [x Hx]. unfold remove_next.
  rewrite front_index, <- land_255, Hx. reflexivity.
Qed.

Lemma remove_next_empty (q : reassembly_queue) :
  data (slot q (Z.land (next_to_process q) 0xFF)) = None ->
  remove_next q = (empty_elt, q).
Proof.
  intros Hx. unfold remove_next.
  rewrite front_index, <- land_255, Hx. reflexivity.
Qed.

Lemma remove_next_length (q : reassembly_queue) :
  length (cbuf (snd (remove_next q))) = length (cbuf q).
Proof.
  unfold remove_next. destruct (data _); simpl; [apply length_insert | reflexivity].
Qed.

Lemma consecutive_wrap (n : Z) (k : nat) :
  consecutive (wrap32 n) k = consecutive n k.
Proof.
  revert n. induction k as [| k IH]; intros n; simpl; [reflexivity |].
  f_equal.
  - unfold wrap32. apply Z.mod_mod. lia.
  - rewrite <- (IH (wrap32 n + 1)), <- (IH (n + 1)). f_equal.
    unfold wrap32. apply Zplus_mod_idemp_l.
Qed.

Lemma remove_run_consecutive (n : nat) (q : reassembly_queue) :
  is_u32 (next_to_process q) ->
  map fst (fst (remove_run n q))
    = consecutive (next_to_process q) (length (fst (remove_run n q))) /\
  next_to_process (snd (remove_run n q))
    = wrap32 (next_to_process q + Z.of_nat (length (fst (remove_run n q)))) /\
  Forall (fun se => is_Some (data (snd se))) (fst (remove_run n q)).
Proof.
  revert q. induction n as [| n IH]; intros q Hq.
  - simpl. rewrite Z.add_0_r, wrap32_small by assumption.
    repeat split. constructor.
  - simpl.
    destruct (data (slot q (Z.land (next_to_process q) 0xFF))) as [x |] eqn:E.
    + rewrite remove_next_occupied by (rewrite E; eauto).
      rewrite E.
      match goal with |- context [remove_run n ?q1] =>
        specialize (IH q1 (wrap32_range _)); destruct (remove_run n q1) as [l q2]
      end.
      simpl in *. destruct IH as (IH1 & IH2 & IH3).
      split; [| split].
      * rewrite IH1, consecutive_wrap, wrap32_small by assumption. reflexivity.
      * rewrite IH2. unfold wrap32. rewrite Zplus_mod_idemp_l. f_equal. lia.
      * constructor; [simpl; rewrite E; eauto | exact IH3].
    + rewrite remove_next_empty by exact E. simpl.
      rewrite Z.add_0_r, wrap32_small by assumption.
      repeat split. constructor.
Qed.

(** C4: [remove_next] looks at slot [next_to_process & 0xFF]; when it is
    occupied the element is returned, the slot is emptied (the others
    are kept) and [next_to_process] goes up by one modulo 2^32; when it
    is empty an empty element comes back and the queue is as before.
    Hence the blocks that a run of removals delivers carry the
    sequence numbers [next_to_process], [next_to_process + 1], ... with
    no gap. *)
Theorem remove_next_delivers_in_sequence (q : reassembly_queue) :
  length (cbuf q) = 256%nat -> is_u32 (next_to_process q) ->
  let front := Z.land (next_to_process q) 0xFF in
  (is_Some (data (slot q front)) ->
     exists q', remove_next q = (slot q front, q') /\
       slot q' front = empty_elt /\
       (forall i, 0 <= i < 256 -> i <> front -> slot q' i = slot q i) /\
       next_to_process q' = wrap32 (next_to_process q + 1)) /\
  (data (slot q front) = None -> remove_next q = (empty_elt, q)) /\
  (forall n,
     let delivered := fst (remove_run n q) in
     map fst delivered
       = consecutive (next_to_process q) (length delivered) /\
     Forall (fun se => is_Some (data (snd se))) delivered /\
     next_to_process (snd (remove_run n q))
       = wrap32 (next_to_process q + Z.of_nat (length delivered))).
Proof.
  intros Hlen Hq front.
  assert (Hfront : 0 <= front < 256).
  { subst front. rewrite land_255. apply Z.mod_pos_bound. lia. }
  split; [| split].
  - intros Hocc. rewrite remove_next_occupied by exact Hocc.
    eexists. split; [reflexivity |].
    split; [apply slot_insert_eq; assumption |].
    split; [| reflexivity].
    intros i Hi Hne. destruct q as [l n].
    apply slot_insert_ne; simpl in *; lia.
  - apply remove_next_empty.
  - intros n delivered. subst delivered.
    destruct (remove_run_consecutive n q Hq) as (H1 & H2 & H3).
    auto.
Qed.

Section Pick.
Context {St : Type}.
Variable M : steg_module St.

Lemma offered_room_range (c : chop_conn_t) (r : Z) :
  offered_room M c = Some r -> 0 <= r <= MAX_BLOCK_SIZE.
Proof.
  unfold offered_room. destruct (steg c) as [s |]; [| discriminate].
  intros [= <-]. unfold MAX_BLOCK_SIZE, MIN_BLOCK_SIZE, HEADER_LEN,
    TRAILER_LEN, SECTION_LEN.
  destruct (Z.leb_spec (transmit_room M s) (16 + 16)); simpl.
  - lia.
  - destruct (Z.gtb_spec (transmit_room M s) (16 + 16 + 65535 * 2)); lia.
Qed.

Lemma pick_step_offered (desired : Z) acc (c : chop_conn_t) :
  pick_step M desired acc c =
  let '(maxbelow, minabove, targbelow, targabove) := acc in
  match offered_room M c with
  | Some room =>
      if room >=? desired then
        if room <? minabove then (maxbelow, room, targbelow, Some c) else acc
      else
        if room >? maxbelow then (room, minabove, Some c, targabove) else acc
  | None => acc
  end.
Proof.
  unfold pick_step, offered_room.
  destruct acc as [[[mb ma] tb] ta]. destruct (steg c); reflexivity.
Qed.

Lemma pick_step_inv (desired : Z) seen acc (c : chop_conn_t) :
  pick_inv M desired seen acc ->
  pick_inv M desired (seen ++ [c]) (pick_step M desired acc c).
Proof.
  rewrite pick_step_offered.
  destruct acc as [[[mb ma] tb] ta]. unfold pick_inv.
  intros [Ha Hb].
  assert (Hin : forall x, In x (seen ++ [c]) <-> In x seen \/ x = c).
  { intros x. rewrite in_app_iff. simpl. intuition. }
  destruct (offered_room M c) as [room |] eqn:Hroom.
  - pose proof (offered_room_range c room Hroom) as Hrange.
    destruct (Z.geb_spec room desired) as [Hge | Hlt].
    + (* a candidate from above *)
      assert (Hb' : match tb with
        | None => mb = 0 /\ forall c0 r, In c0 (seen ++ [c]) ->
                    offered_room M c0 = Some r -> r < desired -> r <= 0
        | Some b => In b (seen ++ [c]) /\ offered_room M b = Some mb /\
                    0 < mb < desired /\ forall c0 r, In c0 (seen ++ [c]) ->
                    offered_room M c0 = Some r -> r < desired -> r <= mb
        end).
      { destruct tb as [b |].
        - destruct Hb as (Hb1 & Hb2 & Hb3 & Hb4).
          repeat split; try tauto; try lia; [apply Hin; tauto |].
          intros c0 r Hc0 Hr Hlt. apply Hin in Hc0 as [Hc0 | ->]; eauto.
          rewrite Hroom in Hr. injection Hr as <-. lia.
        - destruct Hb as (Hb1 & Hb4). split; [exact Hb1 |].
          intros c0 r Hc0 Hr Hlt. apply Hin in Hc0 as [Hc0 | ->]; eauto.
          rewrite Hroom in Hr. injection Hr as <-. lia. }
      destruct (Z.ltb_spec room ma) as [Hlt | Hnlt].
      * split; [| exact Hb'].
        split; [apply Hin; tauto |]. split; [exact Hroom |].
        split; [lia |].
        intros c0 r Hc0 Hr Hdr. apply Hin in Hc0 as [Hc0 | ->].
        -- destruct ta as [a |].
           ++ destruct Ha as (_ & _ & _ & Ha4). specialize (Ha4 c0 r Hc0 Hr Hdr). lia.
           ++ destruct Ha as (_ & Ha4). specialize (Ha4 c0 r Hc0 Hr). lia.
        -- rewrite Hroom in Hr. injection Hr as <-. lia.
      * split; [| exact Hb'].
        destruct ta as [a |].
        -- destruct Ha as (Ha1 & Ha2 & Ha3 & Ha4).
           split; [apply Hin; tauto |]. split; [exact Ha2 |]. split; [exact Ha3 |].
           intros c0 r Hc0 Hr Hdr. apply Hin in Hc0 as [Hc0 | ->]; eauto.
           rewrite Hroom in Hr. injection Hr as <-. lia.
        -- destruct Ha as (Ha1 & Ha4). lia.
    + (* a candidate from below *)
      assert (Ha' : match ta with
        | None => ma = MAX_BLOCK_SIZE + 1 /\ forall c0 r, In c0 (seen ++ [c]) ->
                    offered_room M c0 = Some r -> r < desired
        | Some a => In a (seen ++ [c]) /\ offered_room M a = Some ma /\
                    desired <= ma /\ forall c0 r, In c0 (seen ++ [c]) ->
                    offered_room M c0 = Some r -> desired <= r -> ma <= r
        end).
      { destruct ta as [a |].
        - destruct Ha as (Ha1 & Ha2 & Ha3 & Ha4).
          repeat split; try tauto; [apply Hin; tauto |].
          intros c0 r Hc0 Hr Hdr. apply Hin in Hc0 as [Hc0 | ->]; eauto.
          rewrite Hroom in Hr. injection Hr as <-. lia.
        - destruct Ha as (Ha1 & Ha4). split; [exact Ha1 |].
          intros c0 r Hc0 Hr. apply Hin in Hc0 as [Hc0 | ->]; eauto.
          rewrite Hroom in Hr. injection Hr as <-. lia. }
      destruct (Z.gtb_spec room mb) as [Hgt | Hngt].
      * split; [exact Ha' |].
        split; [apply Hin; tauto |]. split; [exact Hroom |].
        assert (0 <= mb).
        { destruct tb; [destruct Hb as (_ & _ & ? & _) | destruct Hb as (? & _)]; lia. }
        split; [lia |].
        intros c0 r Hc0 Hr Hdr. apply Hin in Hc0 as [Hc0 | ->].
        -- destruct tb as [b |].
           ++ destruct Hb as (_ & _ & _ & Hb4). specialize (Hb4 c0 r Hc0 Hr Hdr). lia.
           ++ destruct Hb as (_ & Hb4). specialize (Hb4 c0 r Hc0 Hr Hdr). lia.
        -- rewrite Hroom in Hr. injection Hr as <-. lia.
      * split; [exact Ha' |].
        destruct tb as [b |].
        -- destruct Hb as (Hb1 & Hb2 & Hb3 & Hb4).
           split; [apply Hin; tauto |]. split; [exact Hb2 |]. split; [exact Hb3 |].
           intros c0 r Hc0 Hr Hdr. apply Hin in Hc0 as [Hc0 | ->]; eauto.
           rewrite Hroom in Hr. injection Hr as <-. lia.
        -- destruct Hb as (Hb1 & Hb4). split; [exact Hb1 |].
           intros c0 r Hc0 Hr Hdr. apply Hin in Hc0 as [Hc0 | ->]; eauto.
           rewrite Hroom in Hr. injection Hr as <-. lia.
  - (* no steg handle *)
    split.
    + destruct ta as [a |].
      * destruct Ha as (Ha1 & Ha2 & Ha3 & Ha4).
        repeat split; try tauto; [apply Hin; tauto |].
        intros c0 r Hc0 Hr Hdr. apply Hin in Hc0 as [Hc0 | ->]; eauto.
        congruence.
      * destruct Ha as (Ha1 & Ha4). split; [exact Ha1 |].
        intros c0 r Hc0 Hr. apply Hin in Hc0 as [Hc0 | ->]; eauto.
        congruence.
    + destruct tb as [b |].
      * destruct Hb as (Hb1 & Hb2 & Hb3 & Hb4).
        repeat split; try tauto; try lia; [apply Hin; tauto |].
        intros c0 r Hc0 Hr Hdr. apply Hin in Hc0 as [Hc0 | ->]; eauto.
        congruence.
      * destruct Hb as (Hb1 & Hb4). split; [exact Hb1 |].
        intros c0 r Hc0 Hr Hdr. apply Hin in Hc0 as [Hc0 | ->]; eauto.
        congruence.
Qed.

Lemma pick_fold_inv (desired : Z) (l seen : list chop_conn_t) acc :
  pick_inv M desired seen acc ->
  pick_inv M desired (seen ++ l) (fold_left (pick_step M desired) l acc).
Proof.
  revert seen acc. induction l as [| c l IH]; intros seen acc Hinv; simpl.
  - rewrite app_nil_r. exact Hinv.
  - replace (seen ++ c :: l) with ((seen ++ [c]) ++ l)
      by (rewrite <- app_assoc; reflexivity).
    apply IH. apply pick_step_inv. exact Hinv.
Qed.

Lemma pick_inv_init (desired : Z) :
  32 <= desired ->
  pick_inv M desired [] (0, MAX_BLOCK_SIZE + 1, None, None).
Proof.
  intros Hd. unfold pick_inv. repeat split; intros c r [].
Qed.

Lemma pick_connection_inv (d : Z) (ckt : chop_circuit_t) :
  0 <= d < 2 ^ 64 ->
  exists acc,
    fold_left (pick_step M (Z.min d 65535 + 32)) (downstreams ckt)
              (0, MAX_BLOCK_SIZE + 1, None, None) = acc /\
    pick_inv M (Z.min d 65535 + 32) (downstreams ckt) acc /\
    pick_connection M d ckt =
      (let '(maxbelow, minabove, targbelow, targabove) := acc in
       match targabove with
       | Some c => (Some c, Z.min d 65535 + 32)
       | None => (targbelow, maxbelow)
       end).
Proof.
  intros Hd. eexists. split; [reflexivity |]. split.
  - apply (pick_fold_inv _ (downstreams ckt) []).
    apply pick_inv_init. lia.
  - unfold pick_connection.
    assert (E : wrap64 ((if d >? SECTION_LEN then SECTION_LEN else d)
                        + MIN_BLOCK_SIZE) = Z.min d 65535 + 32).
    { unfold SECTION_LEN, MIN_BLOCK_SIZE, HEADER_LEN, TRAILER_LEN, wrap64.
      destruct (Z.gtb_spec d 65535); rewrite Z.mod_small; lia. }
    rewrite E. reflexivity.
Qed.

(** C5: [pick_connection(d, &blocksize)] aims at
    [desired = min(d, 65535) + 32]; a downstream with a steg handle
    counts for its [transmit_room()], taken as 0 when at most 32 and as
    131102 when larger than that; the result is a connection with the
    least room that is at least [desired], with [*blocksize = desired],
    if there is one; otherwise a connection with the greatest room,
    with [*blocksize] that room; and null with [*blocksize = 0] when no
    downstream offers room. *)
Theorem pick_connection_best_fit (d : Z) (ckt : chop_circuit_t) :
  0 <= d < 2 ^ 64 ->
  let desired := Z.min d 65535 + 32 in
  let offers c r := In c (downstreams ckt) /\ offered_room M c = Some r in
  (forall c,
     offered_room M c =
       match steg c with
       | Some s =>
           Some (if transmit_room M s <=? 32 then 0
                 else Z.min (transmit_room M s) 131102)
       | None => None
       end) /\
  ((exists c r, offers c r /\ desired <= r) ->
     exists c r, pick_connection M d ckt = (Some c, desired) /\
       offers c r /\ desired <= r /\
       forall c' r', offers c' r' -> desired <= r' -> r <= r') /\
  ((forall c r, offers c r -> r < desired) ->
   (exists c r, offers c r /\ 0 < r) ->
     exists c r, pick_connection M d ckt = (Some c, r) /\
       offers c r /\ 0 < r /\
       forall c' r', offers c' r' -> r' <= r) /\
  ((forall c r, offers c r -> r = 0) ->
     pick_connection M d ckt = (None, 0)).
Proof.
  intros Hd desired offers.
  destruct (pick_connection_inv d ckt Hd) as (acc & _ & Hinv & Hpick).
  subst desired offers. cbv beta.
  destruct acc as [[[mb ma] tb] ta]. destruct Hinv as [Ha Hb].
  split; [| split; [| split]].
  - intros c. unfold offered_room.
    destruct (steg c) as [s |]; [| reflexivity]. f_equal.
    change MAX_BLOCK_SIZE with 131102. change MIN_BLOCK_SIZE with 32.
    destruct (Z.leb_spec (transmit_room M s) 32); [reflexivity |].
    destruct (Z.gtb_spec (transmit_room M s) 131102); lia.
  - intros (c & r & [Hin Hr] & Hge).
    destruct ta as [a |].
    + destruct Ha as (Ha1 & Ha2 & Ha3 & Ha4).
      exists a, ma. rewrite Hpick. split; [reflexivity |].
      split; [split; assumption |]. split; [exact Ha3 |].
      intros c' r' [Hin' Hr'] Hge'. eauto.
    + destruct Ha as (_ & Ha4). specialize (Ha4 c r Hin Hr). lia.
  - intros Hall (c & r & [Hin Hr] & Hpos).
    destruct ta as [a |].
    + destruct Ha as (Ha1 & Ha2 & Ha3 & _).
      specialize (Hall a ma (conj Ha1 Ha2)). lia.
    + destruct tb as [b |].
      * destruct Hb as (Hb1 & Hb2 & Hb3 & Hb4).
        exists b, mb. rewrite Hpick. split; [reflexivity |].
        split; [split; assumption |]. split; [lia |].
        intros c' r' [Hin' Hr']. apply (Hb4 c' r' Hin' Hr').
        apply (Hall c' r'). split; assumption.
      * destruct Hb as (_ & Hb4).
        specialize (Hb4 c r Hin Hr (Hall c r (conj Hin Hr))). lia.
  - intros Hzero. rewrite Hpick.
    destruct ta as [a |].
    + destruct Ha as (Ha1 & Ha2 & Ha3 & _).
      specialize (Hzero a ma (conj Ha1 Ha2)). lia.
    + destruct tb as [b |].
      * destruct Hb as (Hb1 & Hb2 & Hb3 & _).
        specialize (Hzero b mb (conj Hb1 Hb2)). lia.
      * destruct Hb as (-> & _). reflexivity.
Qed.

End Pick.

Lemma legal_opcode_test (f : opcode_t) :
  0 <= f ->
  (f >? op_LAST) || ((f >=? op_RESERVED0) && (f <? op_STEG0)) = false <->
  legal_opcode f.
Proof.
  unfold legal_opcode, op_LAST, op_RESERVED0, op_STEG0. intros Hf.
  rewrite orb_false_iff, andb_false_iff.
  destruct (Z.gtb_spec f 255), (Z.geb_spec f 6), (Z.ltb_spec f 128);
    split; intros; try lia; intuition congruence.
Qed.

(** The bytes the constructor lays out for a legal opcode are the
    header of the wire format. *)
Lemma block_header_enc_clear (K : ciphers) (s d p : Z) (f : opcode_t) :
  legal_opcode f ->
  clear (block_header_enc K s d p f) = header_layout s d p f /\
  ciphr (block_header_enc K s d p f) = ecb_encrypt K (header_layout s d p f).
Proof.
  intros Hf.
  assert (Hf0 : 0 <= f) by (destruct Hf; lia).
  unfold block_header_enc. rewrite (proj2 (legal_opcode_test f Hf0) Hf).
  assert (E : forall c, c = header_layout s d p f ->
                 clear {| clear := c; ciphr := ecb_encrypt K c |}
                   = header_layout s d p f /\
                 ciphr {| clear := c; ciphr := ecb_encrypt K c |}
                   = ecb_encrypt K (header_layout s d p f)).
  { intros c ->. split; reflexivity. }
  apply E. unfold header_layout, big_endian. simpl app.
  rewrite !land_255, !Z.shiftr_div_pow2 by lia.
  unfold wrap8. rewrite (Z.mod_small f) by (destruct Hf; lia).
  change (256 ^ Z.of_nat 0) with 1. rewrite !Z.div_1_r.
  reflexivity.
Qed.

(** Reading the fields back from an encoded header. *)
Lemma block_header_enc_fields (K : ciphers) (s d p : Z) (f : opcode_t) :
  legal_opcode f -> is_u32 s -> 0 <= d < 2 ^ 16 -> 0 <= p < 2 ^ 16 ->
  let h := block_header_enc K s d p f in
  seqno h = s /\ dlen h = d /\ plen h = p /\ opcode h = f /\
  check_field h = repeat 0 7 /\ length (clear h) = 16%nat /\
  Forall is_u8 (clear h).
Proof.
  intros Hf Hs Hd Hp h.
  assert (Hf0 : 0 <= f) by (destruct Hf; lia).
  subst h. unfold block_header_enc.
  rewrite (proj2 (legal_opcode_test f Hf0) Hf).
  unfold seqno, dlen, plen, opcode, check_field, at_.
  simpl clear. simpl nth. simpl firstn.
  rewrite be32_roundtrip by assumption.
  rewrite !be16_roundtrip by assumption.
  unfold wrap8. rewrite (Z.mod_small f) by (destruct Hf; lia).
  repeat split.
  unfold is_u8. rewrite !land_255.
  repeat (constructor; [first [apply Z.mod_pos_bound; lia | destruct Hf; lia | lia] |]).
  constructor.
Qed.

Lemma valid_enc_legal (K : ciphers) (s d p : Z) (f : opcode_t) (w : Z) :
  0 <= f -> valid (block_header_enc K s d p f) w = true -> legal_opcode f.
Proof.
  intros Hf0 Hv. apply legal_opcode_test; [exact Hf0 |].
  destruct ((f >? op_LAST) || ((f >=? op_RESERVED0) && (f <? op_STEG0)))
    eqn:E; [| reflexivity].
  unfold block_header_enc in Hv. rewrite E, valid_invalid_header in Hv.
  discriminate.
Qed.

Section Send.
Context {St : Type}.
Variable M : steg_module St.
Variable K : ciphers.

(** ** Sending one block *)

(** How a call of the five-argument [send_targeted] can return. *)
Lemma send_targeted5_inv (conn : chop_conn_t) (d p : Z) (f : opcode_t)
    (payload : payload_t) (ckt ckt' : @chop_circuit_t St) (rc : Z) :
  send_targeted5 M K conn d p f payload ckt = Ret rc ckt' ->
  (rc = -1 /\ ckt' = ckt) \/
  (rc = 0 /\ d <= SECTION_LEN /\ p <= SECTION_LEN /\
   let hdr := block_header_enc K (send_seq ckt) (wrap16 d) (wrap16 p) f in
   let block :=
     seal_block K hdr (firstn (Z.to_nat d) (payload_src payload ckt)
                       ++ repeat 0 (Z.to_nat p)) in
   valid hdr (send_seq ckt) = true /\
   d <= Z.of_nat (length (payload_src payload ckt)) /\
   exists conn' bytes cease,
     payload = payload_xmit_pending /\
     conn_send M conn block ckt = conn_sent conn' bytes cease /\
     ckt' = commit_block ckt conn'
              {| wb_conn := serial conn; wb_hdr := hdr;
                 wb_block := block; wb_sent := bytes |}
              cease (skipn (Z.to_nat d) (up_input ckt)) f).
Proof.
  unfold send_targeted5.
  destruct (negb _); [discriminate |].
  destruct (Z.leb_spec d SECTION_LEN); simpl negb; cbv iota; [| discriminate].
  destruct (Z.leb_spec p SECTION_LEN); simpl negb; cbv iota; [| discriminate].
  destruct (valid _ _) eqn:Hv; simpl negb; cbv iota; [| discriminate].
  destruct (Z.ltb_spec (Z.of_nat (length (payload_src payload ckt))) d).
  - intros [= <- <-]. left. split; reflexivity.
  - destruct (conn_send _ _ _ _) as [conn' bytes cease | |] eqn:Hs;
      [| | discriminate].
    + destruct payload; simpl payload_drain; cbv iota; [discriminate |].
      intros [= <- <-]. right. repeat split; try assumption.
      exists conn', bytes, cease. repeat split; reflexivity.
    + intros [= <- <-]. left. split; reflexivity.
Qed.

Lemma seal_block_layout (hdr : block_header) (plain : list Z) :
  cipher_lengths K -> length (nonce hdr) = 16%nat ->
  let ct := fst (gcm_encrypt K plain (nonce hdr)) in
  let tag := snd (gcm_encrypt K plain (nonce hdr)) in
  let block := seal_block K hdr plain in
  length block = (16 + length plain + 16)%nat /\
  firstn 16 block = nonce hdr /\
  firstn (length plain) (skipn 16 block) = ct /\
  skipn (16 + length plain) block = tag /\
  length tag = 16%nat.
Proof.
  intros HK Hn ct tag block.
  destruct (gcm_encrypt_length K HK plain (nonce hdr)) as [Hct Htag].
  fold ct in Hct. fold tag in Htag.
  subst block. unfold seal_block. fold ct tag.
  repeat split.
  - rewrite !length_app. lia.
  - rewrite firstn_app, Hn, Nat.sub_diag. simpl.
    rewrite firstn_all2 by lia. apply app_nil_r.
  - rewrite skipn_app, Hn, Nat.sub_diag. simpl.
    rewrite skipn_all2, skipn_O by lia. simpl.
    rewrite firstn_app, Hct, Nat.sub_diag. simpl.
    rewrite firstn_all2 by lia. apply app_nil_r.
  - rewrite skipn_app, Hn.
    replace (16 + length plain - 16)%nat with (length plain) by lia.
    rewrite skipn_all2 by lia. simpl.
    rewrite skipn_app, Hct, Nat.sub_diag, skipn_O.
    rewrite skipn_all2 by lia. reflexivity.
  - exact Htag.
Qed.

(** The bytes of an emitted block, field by field. *)
Lemma emitted_block_fields (conn : chop_conn_t) (D P : Z)
    (F : opcode_t) (payload : payload_t) (ckt ckt' : @chop_circuit_t St) :
  cipher_lengths K ->
  is_u32 (send_seq ckt) -> 0 <= D -> 0 <= P -> legal_opcode F ->
  send_targeted5 M K conn D P F payload ckt = Ret 0 ckt' ->
  let header := header_layout (send_seq ckt) D P F in
  let plain := firstn (Z.to_nat D) (payload_src payload ckt)
               ++ repeat 0 (Z.to_nat P) in
  let sealed := gcm_encrypt K plain (ecb_encrypt K header) in
  exists b,
    wire ckt' = wire ckt ++ [b] /\
    clear (wb_hdr b) = header /\
    seqno (wb_hdr b) = send_seq ckt /\ dlen (wb_hdr b) = D /\
    plen (wb_hdr b) = P /\ opcode (wb_hdr b) = F /\
    length header = 16%nat /\
    Z.of_nat (length plain) = D + P /\
    Z.of_nat (length (wb_block b)) = 32 + D + P /\
    firstn 16 (wb_block b) = ecb_encrypt K header /\
    firstn (Z.to_nat (D + P)) (skipn 16 (wb_block b)) = fst sealed /\
    skipn (Z.to_nat (16 + D + P)) (wb_block b) = snd sealed /\
    length (snd sealed) = 16%nat.
Proof.
  intros HK Hseq HD HP HF Hsend header plain sealed.
  apply send_targeted5_inv in Hsend
    as [[Hrc _] | (_ & HDle & HPle & Hv & Hsrc & conn' & bytes & cease & _ & Hcs & ->)];
    [discriminate |].
  unfold SECTION_LEN in HDle, HPle.
  assert (HwD : wrap16 D = D) by (unfold wrap16; apply Z.mod_small; lia).
  assert (HwP : wrap16 P = P) by (unfold wrap16; apply Z.mod_small; lia).
  rewrite HwD, HwP in *.
  destruct (block_header_enc_clear K (send_seq ckt) D P F HF) as [Hcl Hci].
  destruct (block_header_enc_fields K (send_seq ckt) D P F HF Hseq)
    as (Hs & Hd & Hp & Ho & _ & Hlen & _); [lia | lia |].
  assert (Hplain : length plain = (Z.to_nat D + Z.to_nat P)%nat).
  { subst plain. rewrite length_app, length_firstn, repeat_length. lia. }
  assert (Hhdr : length header = 16%nat).
  { subst header. rewrite <- Hcl. exact Hlen. }
  assert (Hnonce : length (nonce (block_header_enc K (send_seq ckt) D P F))
                   = 16%nat).
  { unfold nonce. rewrite Hci. apply (ecb_encrypt_length K HK). exact Hhdr. }
  destruct (seal_block_layout (block_header_enc K (send_seq ckt) D P F)
              plain HK Hnonce) as (B1 & B2 & B3 & B4 & B5).
  unfold nonce in B2, B3, B4, B5. rewrite Hci in B2, B3, B4, B5.
  eexists. split; [reflexivity |]. simpl wb_hdr. simpl wb_block.
  split; [exact Hcl |]. split; [exact Hs |]. split; [exact Hd |].
  split; [exact Hp |]. split; [exact Ho |].
  split; [exact Hhdr |].
  split; [lia |]. split; [fold plain; lia |]. split; [exact B2 |].
  split; [| split; [| exact B5]].
  - replace (Z.to_nat (D + P)) with (length plain) by lia. exact B3.
  - replace (Z.to_nat (16 + D + P)) with (16 + length plain)%nat by lia.
    exact B4.
Qed.

(** C1: a block that [send_targeted] emits with sequence number [S],
    data length [D], padding length [P] and a legal opcode [F] starts
    with the ECB encryption of the 16-byte header ([S] big-endian in
    bytes 0..3, [D] in 4..5, [P] in 6..7, [F] in byte 8, zero in
    9..15); then comes the GCM ciphertext, under that encrypted header
    as nonce, of the [D] data bytes followed by [P] zero bytes, in
    bytes 16..16+D+P; the last 16 bytes are the GCM tag. *)
Theorem emitted_block_wire_layout (conn : chop_conn_t) (D P : Z)
    (F : opcode_t) (payload : payload_t) (ckt ckt' : @chop_circuit_t St) :
  cipher_lengths K ->
  is_u32 (send_seq ckt) -> 0 <= D -> 0 <= P -> legal_opcode F ->
  send_targeted5 M K conn D P F payload ckt = Ret 0 ckt' ->
  let header := header_layout (send_seq ckt) D P F in
  let plain := firstn (Z.to_nat D) (payload_src payload ckt)
               ++ repeat 0 (Z.to_nat P) in
  let sealed := gcm_encrypt K plain (ecb_encrypt K header) in
  exists b,
    wire ckt' = wire ckt ++ [b] /\
    clear (wb_hdr b) = header /\
    seqno (wb_hdr b) = send_seq ckt /\ dlen (wb_hdr b) = D /\
    plen (wb_hdr b) = P /\ opcode (wb_hdr b) = F /\
    length header = 16%nat /\
    Z.of_nat (length plain) = D + P /\
    Z.of_nat (length (wb_block b)) = 32 + D + P /\
    firstn 16 (wb_block b) = ecb_encrypt K header /\
    firstn (Z.to_nat (D + P)) (skipn 16 (wb_block b)) = fst sealed /\
    skipn (Z.to_nat (16 + D + P)) (wb_block b) = snd sealed /\
    length (snd sealed) = 16%nat.
Proof. apply emitted_block_fields. Qed.

Lemma wrap64_small (x : Z) : 0 <= x < 2 ^ 64 -> wrap64 x = x.
Proof. intros. unfold wrap64. apply Z.mod_small. assumption. Qed.

Lemma wrap64_neg (x : Z) : - 2 ^ 64 <= x < 0 -> wrap64 x = x + 2 ^ 64.
Proof.
  intros. unfold wrap64.
  rewrite <- (Z.mod_add x 1 (2 ^ 64)) by lia.
  rewrite Z.mod_small; lia.
Qed.

(** X24: the block that [send_targeted(conn, blocksize)]
    has emitted when it returns 0, with [avail] upstream bytes pending:
    its total size is [blocksize]; its data length is
    [min(avail, 65535)], and the call has returned only because that
    is no more than [blocksize - 32]; its padding length is
    [blocksize - 32] minus the data length; its opcode is FIN iff the
    upstream has reported EOF, no FIN has been sent yet, and the block
    takes every pending byte; otherwise it is DAT. *)
Theorem send_targeted_block_shape (conn : chop_conn_t) (blocksize : Z)
    (ckt ckt' : @chop_circuit_t St) :
  cipher_lengths K -> is_u32 (send_seq ckt) ->
  send_targeted2 M K conn blocksize ckt = Ret 0 ckt' ->
  let avail := Z.of_nat (length (up_input ckt)) in
  exists b,
    wire ckt' = wire ckt ++ [b] /\
    32 <= blocksize <= 32 + 2 * 65535 /\
    Z.of_nat (length (wb_block b)) = blocksize /\
    dlen (wb_hdr b) = Z.min avail 65535 /\
    dlen (wb_hdr b) <= blocksize - 32 /\
    plen (wb_hdr b) = blocksize - 32 - dlen (wb_hdr b) /\
    (dlen (wb_hdr b) = avail <-> up_input ckt' = []) /\
    (opcode (wb_hdr b) = op_FIN <->
       upstream_eof ckt = true /\ sent_fin ckt = false /\
       up_input ckt' = []) /\
    (opcode (wb_hdr b) <> op_FIN -> opcode (wb_hdr b) = op_DAT).
Proof.
  intros HK Hseq Hsend avail.
  unfold send_targeted2 in Hsend.
  change MIN_BLOCK_SIZE with 32 in Hsend.
  change MAX_BLOCK_SIZE with 131102 in Hsend.
  change SECTION_LEN with 65535 in Hsend.
  destruct (Z.geb_spec blocksize 32) as [Hlo |]; [| discriminate].
  destruct (Z.leb_spec blocksize 131102) as [Hhi |]; [| discriminate].
  simpl negb in Hsend. cbv iota in Hsend. fold avail in Hsend.
  set (d := if avail >? 65535 then 65535 else avail) in *.
  set (o := if avail >? 65535 then op_DAT
            else if upstream_eof ckt && negb (sent_fin ckt) then op_FIN
                 else op_DAT) in *.
  assert (Hsend' : send_targeted5 M K conn d
             (wrap64 (wrap64 (blocksize - 32) - d)) o
             payload_xmit_pending ckt = Ret 0 ckt').
  { subst d o. destruct (avail >? 65535);
      [| destruct (upstream_eof ckt && negb (sent_fin ckt))]; exact Hsend. }
  clear Hsend.
  assert (Havail : 0 <= avail) by (subst avail; lia).
  assert (Hd : d = Z.min avail 65535).
  { subst d. destruct (Z.gtb_spec avail 65535); lia. }
  assert (Hlegal : legal_opcode o).
  { subst o. unfold legal_opcode, op_DAT, op_FIN.
    destruct (avail >? 65535);
      [| destruct (upstream_eof ckt && negb (sent_fin ckt))]; lia. }
  pose proof (send_targeted5_inv _ _ _ _ _ _ _ _ Hsend')
    as [[Hrc _] | (_ & _ & HPle & _)]; [discriminate |].
  change SECTION_LEN with 65535 in HPle.
  rewrite (wrap64_small (blocksize - 32)) in HPle, Hsend' by lia.
  assert (Hfit : d <= blocksize - 32).
  { destruct (Z.le_gt_cases d (blocksize - 32)) as [| Hgt]; [assumption |].
    rewrite wrap64_neg in HPle by lia. lia. }
  rewrite (wrap64_small (blocksize - 32 - d)) in Hsend' by lia.
  destruct (emitted_block_fields conn d (blocksize - 32 - d) o
              payload_xmit_pending ckt ckt' HK Hseq)
    as (b & Hw & _ & _ & Hdl & Hpl & Hop & _ & _ & Hlen & _);
    try assumption; try lia.
  exists b. split; [exact Hw |]. split; [lia |]. split; [lia |].
  split; [lia |]. split; [lia |]. split; [lia |].
  pose proof (send_targeted5_inv _ _ _ _ _ _ _ _ Hsend')
    as [[Hrc _] | (_ & _ & _ & _ & _ & c' & bs & ce & _ & _ & Hckt')];
    [discriminate |].
  assert (Hrest : up_input ckt' = skipn (Z.to_nat d) (up_input ckt)).
  { rewrite Hckt'. reflexivity. }
  assert (Hall : d = avail <-> up_input ckt' = []).
  { rewrite Hrest. split.
    - intros ->. apply skipn_all2. subst avail. lia.
    - intros Hnil. apply (f_equal (@length Z)) in Hnil.
      rewrite length_skipn in Hnil. simpl in Hnil. subst avail. lia. }
  rewrite Hdl, Hop. split; [exact Hall |]. split.
  - subst o. unfold op_FIN, op_DAT.
    destruct (Z.gtb_spec avail 65535) as [Hbig | Hsmall].
    + split; [discriminate |]. intros (_ & _ & Hnil).
      apply Hall in Hnil. lia.
    + destruct (upstream_eof ckt), (sent_fin ckt); simpl;
        (split; [try discriminate; intros _ | try reflexivity;
                 intros (? & ? & ?); discriminate]).
      repeat split. apply Hall. lia.
  - subst o. unfold op_FIN, op_DAT.
    destruct (avail >? 65535);
      [| destruct (upstream_eof ckt && negb (sent_fin ckt))];
      intros H; try reflexivity. exfalso. apply H. reflexivity.
Qed.

End Send.

(** ** Sequence numbers on the wire *)

Lemma consecutive_length (n : Z) (k : nat) : length (consecutive n k) = k.
Proof. revert n. induction k; intros; simpl; [| rewrite IHk]; reflexivity. Qed.

Lemma consecutive_app (n : Z) (a b : nat) :
  consecutive n (a + b) = consecutive n a ++ consecutive (n + Z.of_nat a) b.
Proof.
  revert n. induction a as [| a IH]; intros n.
  - simpl. rewrite Z.add_0_r. reflexivity.
  - change (S a + b)%nat with (S (a + b)). simpl consecutive at 1 2.
    rewrite IH. simpl. do 3 f_equal. lia.
Qed.

Lemma consecutive_nth (n : Z) (k i : nat) (d : Z) :
  (i < k)%nat -> nth i (consecutive n k) d = wrap32 (n + Z.of_nat i).
Proof.
  revert n i. induction k as [| k IH]; intros n i Hi; [lia |].
  destruct i as [| i]; simpl.
  - rewrite Z.add_0_r. reflexivity.
  - rewrite IH by lia. f_equal. lia.
Qed.

Lemma consecutive_In (n : Z) (k : nat) (x : Z) :
  In x (consecutive n k) ->
  exists i, 0 <= i < Z.of_nat k /\ x = wrap32 (n + i).
Proof.
  revert n. induction k as [| k IH]; intros n; simpl; [tauto |].
  intros [<- | Hin].
  - exists 0. split; [lia |]. rewrite Z.add_0_r. reflexivity.
  - destruct (IH _ Hin) as (i & Hi & ->).
    exists (i + 1). split; [lia |]. f_equal. lia.
Qed.

(** Fewer than 2^32 numbers in a row are all different. *)
Lemma consecutive_NoDup (n : Z) (k : nat) :
  Z.of_nat k <= 2 ^ 32 -> List.NoDup (consecutive n k).
Proof.
  revert n. induction k as [| k IH]; intros n Hk; simpl.
  - constructor.
  - constructor; [| apply IH; lia].
    intros Hin. apply consecutive_In in Hin as (i & Hi & Heq).
    unfold wrap32 in Heq.
    apply Z.cong_iff_0 in Heq.
    replace (n - (n + 1 + i)) with (- (1 + i)) in Heq by lia.
    apply Z.mod_divide in Heq; [| lia].
    apply Z.divide_opp_r in Heq.
    apply Z.divide_pos_le in Heq; lia.
Qed.

Section Seq.
Context {St : Type}.
Variable M : steg_module St.
Variable K : ciphers.

Lemma seq_step_u32 (c c' : @chop_circuit_t St) :
  is_u32 (send_seq c) -> seq_step c c' -> is_u32 (send_seq c').
Proof.
  intros Hc (new & _ & _ & ->). apply wrap32_range.
Qed.

Lemma seq_step_same (c c' : @chop_circuit_t St) :
  is_u32 (send_seq c) -> wire c' = wire c -> send_seq c' = send_seq c ->
  seq_step c c'.
Proof.
  intros Hc Hw Hs. exists []. rewrite app_nil_r. simpl.
  rewrite Z.add_0_r, wrap32_small by assumption. auto.
Qed.

Lemma seq_step_trans (a b c : @chop_circuit_t St) :
  seq_step a b -> seq_step b c -> seq_step a c.
Proof.
  intros (n1 & Hw1 & Hm1 & Hs1) (n2 & Hw2 & Hm2 & Hs2).
  exists (n1 ++ n2). rewrite Hw2, Hw1, <- app_assoc.
  split; [reflexivity |]. rewrite map_app, length_app.
  split.
  - rewrite consecutive_app, Hm1, Hm2, Hs1, consecutive_wrap. reflexivity.
  - rewrite Hs2, Hs1. unfold wrap32. rewrite Zplus_mod_idemp_l.
    f_equal. lia.
Qed.

Lemma seq_ok_trans (a b : @chop_circuit_t St) (o : outcome) :
  seq_step a b -> seq_ok b o -> seq_ok a o.
Proof.
  intros Hab. destruct o as [rc c | |]; simpl; [| tauto | tauto].
  apply seq_step_trans. exact Hab.
Qed.

Lemma seq_ok_pre (a b : @chop_circuit_t St) (o : outcome) :
  wire b = wire a -> send_seq b = send_seq a -> seq_ok b o -> seq_ok a o.
Proof.
  intros Hw Hs. destruct o as [rc c | |]; simpl; [| tauto | tauto].
  intros (new & H1 & H2 & H3). exists new. rewrite <- Hw, <- Hs. auto.
Qed.

Lemma valid_enc_seqno (s d p : Z) (f : opcode_t) (w : Z) :
  is_u32 s -> valid (block_header_enc K s d p f) w = true ->
  seqno (block_header_enc K s d p f) = s.
Proof.
  intros Hs. unfold block_header_enc.
  destruct ((f >? op_LAST) || ((f >=? op_RESERVED0) && (f <? op_STEG0))).
  - rewrite valid_invalid_header. discriminate.
  - intros _. unfold seqno, at_. simpl clear. simpl nth.
    apply be32_roundtrip. exact Hs.
Qed.

Lemma send_targeted5_seq (conn : chop_conn_t) (d p : Z) (f : opcode_t)
    (payload : payload_t) (c : @chop_circuit_t St) :
  is_u32 (send_seq c) ->
  seq_ok c (send_targeted5 M K conn d p f payload c).
Proof.
  intros Hc.
  destruct (send_targeted5 M K conn d p f payload c) as [rc c' | |] eqn:E;
    simpl; [| exact I | exact I].
  apply send_targeted5_inv in E
    as [[_ ->] | (_ & _ & _ & Hv & _ & conn' & bytes & cease & _ & _ & ->)].
  - apply seq_step_same; auto.
  - eexists [_]. split; [reflexivity |]. simpl.
    rewrite (valid_enc_seqno _ _ _ _ _ Hc Hv).
    rewrite wrap32_small by assumption. auto.
Qed.

Lemma send_targeted2_seq (conn : chop_conn_t) (blocksize : Z) (c : @chop_circuit_t St) :
  is_u32 (send_seq c) -> seq_ok c (send_targeted2 M K conn blocksize c).
Proof.
  intros Hc. unfold send_targeted2.
  destruct (negb _); [exact I |].
  destruct (_ >? _); [| destruct (_ && _)]; apply send_targeted5_seq; exact Hc.
Qed.

Lemma send_targeted1_seq (conn : chop_conn_t) (c : @chop_circuit_t St) :
  is_u32 (send_seq c) -> seq_ok c (send_targeted1 M K conn c).
Proof.
  intros Hc. unfold send_targeted1.
  destruct (steg conn); [| exact I].
  destruct (_ <? MIN_BLOCK_SIZE).
  - apply seq_step_same; auto.
  - apply send_targeted2_seq. exact Hc.
Qed.

Lemma send_special_seq (f : opcode_t) (payload : payload_t) (c : @chop_circuit_t St) :
  is_u32 (send_seq c) -> seq_ok c (send_special M K f payload c).
Proof.
  intros Hc. unfold send_special.
  destruct (negb _); [exact I |].
  destruct (pick_connection M _ c) as [[conn |] blocksize].
  - destruct (_ <? _); [apply seq_step_same; auto |].
    apply send_targeted5_seq. exact Hc.
  - apply seq_step_same; auto.
Qed.

Lemma conn_must_send_seq (id : Z) (c : @chop_circuit_t St) :
  is_u32 (send_seq c) -> seq_ok c (conn_must_send M K id c).
Proof.
  intros Hc. unfold conn_must_send.
  destruct (find_conn id (downstreams c)) as [cn |]; [| exact I].
  simpl steg.
  destruct (steg cn).
  - match goal with |- context [send_targeted1 M K ?x ?y] =>
      pose proof (send_targeted1_seq x y Hc) as H;
      destruct (send_targeted1 M K x y) as [rc c' | |]
    end; [| exact I | exact I].
    simpl in H.
    destruct (rc =? 0); simpl.
    + exact H.
    + eapply seq_step_trans; [exact H |].
      apply seq_step_same; [eapply seq_step_u32; eauto | |]; reflexivity.
  - apply seq_step_same; auto.
Qed.

Lemma eof_loop_seq (ids : list Z) (c : @chop_circuit_t St) :
  is_u32 (send_seq c) -> seq_ok c (eof_loop M K ids c).
Proof.
  revert c. induction ids as [| id ids IH]; intros c Hc; simpl.
  - apply seq_step_same; auto.
  - destruct (find_conn id (downstreams c)) as [cn |]; [| exact I].
    destruct (must_send_pending cn).
    + pose proof (conn_must_send_seq id c Hc) as H.
      destruct (conn_must_send M K id c) as [rc c' | |]; [| exact I | exact I].
      simpl in H. eapply seq_ok_trans; [exact H |].
      eapply seq_ok_pre; [| | apply IH]; try reflexivity.
      eapply seq_step_u32; eauto.
    + eapply seq_ok_pre; [| | apply IH]; try reflexivity. exact Hc.
Qed.

Lemma check_for_eof_seq (c : @chop_circuit_t St) :
  is_u32 (send_seq c) -> seq_ok c (check_for_eof M K c).
Proof.
  intros Hc. unfold check_for_eof.
  destruct (_ && _).
  - eapply seq_ok_pre; [| | apply eof_loop_seq]; try reflexivity. exact Hc.
  - destruct (negb _); apply seq_step_same; auto.
Qed.

Lemma send_loop_seq (fuel : nat) (c : @chop_circuit_t St) :
  is_u32 (send_seq c) -> seq_ok c (send_loop M K fuel c).
Proof.
  revert c. induction fuel as [| fuel IH]; intros c Hc; simpl; [exact I |].
  destruct (pick_connection M _ c) as [[target |] blocksize].
  - pose proof (send_targeted2_seq target blocksize c Hc) as H.
    destruct (send_targeted2 M K target blocksize c) as [rc c' | |];
      [| exact I | exact I].
    simpl in H.
    destruct (rc =? 0); [| exact H].
    destruct (_ >? 0); [| exact H].
    eapply seq_ok_trans; [exact H |]. apply IH.
    eapply seq_step_u32; eauto.
  - apply seq_step_same; auto.
Qed.

Lemma send_seq_ok (c : @chop_circuit_t St) :
  is_u32 (send_seq c) -> seq_ok c (send M K c).
Proof.
  intros Hc. unfold send.
  simpl downstreams. destruct (downstreams c) as [| c0 l] eqn:Hd.
  - apply seq_step_same; auto.
  - match goal with |- context [send_loop M K ?f ?x] =>
      assert (Hx : is_u32 (send_seq x)) by exact Hc;
      pose proof (send_loop_seq f x Hx) as H;
      destruct (send_loop M K f x) as [rc c' | |]
    end; [| exact I | exact I].
    apply (seq_ok_pre _ _ _ eq_refl eq_refl) in H. simpl in H.
    destruct (rc =? 0); [| exact H].
    eapply seq_ok_trans; [exact H |].
    eapply seq_ok_pre; [| | apply check_for_eof_seq]; try reflexivity.
    eapply seq_step_u32; eauto.
Qed.

Lemma send_eof_seq (c : @chop_circuit_t St) :
  is_u32 (send_seq c) -> seq_ok c (send_eof M K c).
Proof.
  intros Hc. unfold send_eof.
  eapply seq_ok_pre; [| | apply send_seq_ok]; try reflexivity. exact Hc.
Qed.

End Seq.

Section Recv.
Context {St : Type}.
Variable M : steg_module St.
Variable K : ciphers.

(** ** Receiving *)

Lemma same_but_queue_refl (c : @chop_circuit_t St) : same_but_queue c c.
Proof. unfold same_but_queue. repeat split. Qed.

Lemma same_but_queue_trans (a b c : @chop_circuit_t St) :
  same_but_queue a b -> same_but_queue b c -> same_but_queue a c.
Proof.
  unfold same_but_queue. intros H1 H2.
  repeat match goal with H : _ /\ _ |- _ => destruct H end.
  repeat split; congruence.
Qed.

(** A pass of the loop touches the reassembly queue and the pending
    buffer, nothing else. *)
Lemma recv_step_same (p : evbuffer) (c : @chop_circuit_t St) :
  match recv_step K p c with
  | step_continue p' c' => same_but_queue c c' /\ (length p' < length p)%nat
  | step_break p' c' => c' = c /\ p' = p
  | step_error p' c' => c' = c
  end.
Proof.
  unfold recv_step.
  destruct (Z.eqb_spec (Z.of_nat (length p)) 0); [auto |].
  change MIN_BLOCK_SIZE with 32.
  destruct (Z.ltb_spec (Z.of_nat (length p)) 32); [auto |].
  destruct (negb _); [reflexivity |].
  destruct (_ <? total_len _); [auto |].
  destruct (gcm_decrypt _ _ _); [| reflexivity].
  destruct (insert _ _ _ _) as [[[] q] fr]; [| reflexivity].
  split; [unfold same_but_queue; repeat split |].
  rewrite !length_skipn. lia.
Qed.


(** With fuel above the length of the pending buffer the loop ends by
    [break] or by [return -1]. *)
Lemma recv_loop_total (fuel : nat) (p : evbuffer) (c : @chop_circuit_t St) :
  (length p < fuel)%nat -> recv_loop K fuel p c <> recv_fuel.
Proof.
  revert p c. induction fuel as [| fuel IH]; intros p c Hf; [lia |].
  simpl. pose proof (recv_step_same p c) as H.
  destruct (recv_step K p c) as [p' c' | |]; try discriminate.
  apply IH. lia.
Qed.




End Recv.


Section RecvError.
Context {St : Type}.
Variable M : steg_module St.
Variable K : ciphers.


End RecvError.

Section SeqRecv.
Context {St : Type}.
Variable M : steg_module St.
Variable K : ciphers.

Lemma dispatch_seq (blk : reassembly_elt) (c : @chop_circuit_t St)
    (pf pe : bool) :
  wire (fst (fst (dispatch blk c pf pe))) = wire c /\
  send_seq (fst (fst (dispatch blk c pf pe))) = send_seq c.
Proof.
  unfold dispatch.
  repeat match goal with
         | |- context [if ?b then _ else _] => destruct b
         end; simpl; split; reflexivity.
Qed.

Lemma process_loop_seq (fuel : nat) (c : @chop_circuit_t St)
    (v : pq_locals) :
  is_u32 (send_seq c) ->
  match process_loop M K fuel c v with
  | inl (c', _) => seq_step c c'
  | inr o => seq_ok c o
  end.
Proof.
  revert c v. induction fuel as [| fuel IH]; intros c v Hc; simpl;
    [exact I |].
  destruct (remove_next (recv_queue c)) as [blk q].
  destruct (data blk) as [payload |].
  - destruct (dispatch_seq blk (with_recv_queue c q)
                (pending_fin v) (pending_error v)) as [Hw Hs].
    destruct (dispatch blk (with_recv_queue c q) (pending_fin v)
                (pending_error v)) as [[c1 pf] pe].
    simpl in Hw, Hs.
    set (c2 := if pf && negb (received_fin c1)
               then with_received_fin (do_call c1 circuit_recv_eof) true
               else c1).
    assert (Hw2 : wire c2 = wire c)
      by (subst c2; destruct (pf && negb (received_fin c1)); exact Hw).
    assert (Hs2 : send_seq c2 = send_seq c)
      by (subst c2; destruct (pf && negb (received_fin c1)); exact Hs).
    assert (Hc2 : is_u32 (send_seq c2)) by (rewrite Hs2; exact Hc).
    set (r := if pe && negb (sent_error v)
              then if negb (op blk =? op_RST) && negb (op blk =? op_FIN)
                   then send_special M K op_RST payload_null c2
                   else Ret 0 c2
              else Ret 0 c2).
    assert (Hr : seq_ok c2 r).
    { subst r. destruct (pe && negb (sent_error v));
        [destruct (negb (op blk =? op_RST) && negb (op blk =? op_FIN)) |];
        first [apply send_special_seq; exact Hc2
              | apply seq_step_same; auto]. }
    destruct r as [rc c3 | |].
    + simpl in Hr.
      assert (Hc3 : is_u32 (send_seq c3)) by (eapply seq_step_u32; eauto).
      specialize (IH c3 {| count := wrap32 (count v + 1);
                           pending_fin := pf; pending_error := pe;
                           sent_error := sent_error v || pe |} Hc3).
      assert (H03 : seq_step c c3).
      { destruct Hr as (new & H1 & H2 & H3). exists new.
        rewrite <- Hw2, <- Hs2. auto. }
      destruct (process_loop M K fuel c3 _) as [[c4 v4] | o].
      * eapply seq_step_trans; eauto.
      * eapply seq_ok_trans; eauto.
    + exact I.
    + exact I.
  - apply seq_step_same; [exact Hc | reflexivity | reflexivity].
Qed.

Lemma process_queue_seq (c : @chop_circuit_t St) :
  is_u32 (send_seq c) -> seq_ok c (process_queue M K c).
Proof.
  intros Hc. unfold process_queue.
  pose proof (process_loop_seq 257 c
                {| count := 0; pending_fin := false;
                   pending_error := false; sent_error := false |} Hc) as H.
  destruct (process_loop M K 257 c _) as [[c1 v] | o]; [| exact H].
  assert (Hc1 : is_u32 (send_seq c1)) by (eapply seq_step_u32; eauto).
  set (c2 := if count v >? 0 then with_dead_cycles c1 0 else c1).
  assert (H2 : seq_step c c2).
  { eapply seq_step_trans; [exact H |].
    subst c2. destruct (count v >? 0); apply seq_step_same; auto. }
  assert (Hc2 : is_u32 (send_seq c2)) by exact (seq_step_u32 _ _ Hc H2).
  destruct (sent_error v); [exact H2 |].
  destruct (_ || _).
  - eapply seq_ok_trans; [exact H2 |]. apply send_seq_ok. exact Hc2.
  - eapply seq_ok_trans; [exact H2 |]. apply check_for_eof_seq. exact Hc2.
Qed.

Lemma recv_loop_same (fuel : nat) (p : evbuffer) (c : @chop_circuit_t St) :
  match recv_loop K fuel p c with
  | recv_break _ c' | recv_error _ c' => same_but_queue c c'
  | recv_fuel => True
  end.
Proof.
  revert p c. induction fuel as [| fuel IH]; intros p c; simpl; [exact I |].
  pose proof (recv_step_same K p c) as H.
  destruct (recv_step K p c) as [p' c' | p' c' | p' c'].
  - destruct H as [H _]. specialize (IH p' c').
    destruct (recv_loop K fuel p' c'); try exact I;
      eapply same_but_queue_trans; eauto.
  - destruct H as [-> _]. apply same_but_queue_refl.
  - subst. apply same_but_queue_refl.
Qed.

Lemma recv_seq (id : Z) (inbound : list Z) (c : @chop_circuit_t St) :
  is_u32 (send_seq c) -> seq_ok c (recv M K id inbound c).
Proof.
  intros Hc. unfold recv.
  destruct (find_conn id (downstreams c)) as [cn |]; [| exact I].
  destruct (steg cn) as [s |]; [| exact I].
  destruct (receive M s inbound) as [[[s' hidden] soon] |];
    [| apply seq_step_same; auto].
  pose proof (recv_loop_same (S (length (recv_pending cn ++ hidden)))
                (recv_pending cn ++ hidden) c) as H.
  destruct (recv_loop K _ _ c) as [p c' | p c' |]; [| | exact I].
  - unfold same_but_queue in H.
    repeat match goal with H : _ /\ _ |- _ => destruct H end.
    eapply seq_ok_pre; [| | apply process_queue_seq]; simpl; try assumption.
    congruence.
  - unfold same_but_queue in H.
    repeat match goal with H : _ /\ _ |- _ => destruct H end.
    apply seq_step_same; simpl; assumption.
Qed.

Lemma perform_seq (a : action) (c : @chop_circuit_t St) :
  is_u32 (send_seq c) -> seq_ok c (perform M K a c).
Proof.
  intros Hc. destruct a; simpl.
  - apply send_seq_ok. exact Hc.
  - apply send_eof_seq. exact Hc.
  - apply conn_must_send_seq. exact Hc.
  - apply recv_seq. exact Hc.
  - apply seq_step_same; auto.
  - apply seq_step_same; auto.
Qed.

Lemma run_seq (l : list action) (c : @chop_circuit_t St) :
  is_u32 (send_seq c) -> seq_ok c (run M K l c).
Proof.
  revert c. induction l as [| a l IH]; intros c Hc; simpl.
  - apply seq_step_same; auto.
  - pose proof (perform_seq a c Hc) as H.
    destruct (perform M K a c) as [rc c' | |]; [| exact I | exact I].
    eapply seq_ok_trans; [exact H |]. apply IH.
    eapply seq_step_u32; eauto.
Qed.

End SeqRecv.

Lemma valid_enc_own_seq (K : ciphers) (s d p : Z) (f : opcode_t) :
  legal_opcode f -> is_u32 s -> 0 <= d < 2 ^ 16 -> 0 <= p < 2 ^ 16 ->
  valid (block_header_enc K s d p f) s = true.
Proof.
  intros Hf Hs Hd Hp.
  destruct (block_header_enc_fields K s d p f Hf Hs Hd Hp)
    as (Hseq & _ & _ & _ & Hck & Hlen & Hall).
  apply valid_true_iff; [exact Hlen | exact Hall |].
  split; [exact Hck |]. rewrite Hseq, Z.sub_diag.
  change (wrap32 0) with 0. lia.
Qed.

Section Emit.
Context {St : Type}.
Variable M : steg_module St.
Variable K : ciphers.

(** When its assertions hold, the upstream input is long enough and
    the steg module takes the block, [send_targeted] emits. *)
Lemma send_targeted5_emits (conn conn' : chop_conn_t) (d p : Z)
    (f : opcode_t) (c : @chop_circuit_t St)
    (bytes : list Z) (cease : bool) :
  legal_opcode f -> is_u32 (send_seq c) ->
  0 <= d <= 65535 -> 0 <= p <= 65535 ->
  d <= Z.of_nat (length (up_input c)) ->
  let hdr := block_header_enc K (send_seq c) d p f in
  let block := seal_block K hdr (firstn (Z.to_nat d) (up_input c)
                                 ++ repeat 0 (Z.to_nat p)) in
  conn_send M conn block c = conn_sent conn' bytes cease ->
  send_targeted5 M K conn d p f payload_xmit_pending c =
    Ret 0 (commit_block c conn'
             {| wb_conn := serial conn; wb_hdr := hdr;
                wb_block := block; wb_sent := bytes |}
             cease (skipn (Z.to_nat d) (up_input c)) f).
Proof.
  intros Hf Hs Hd Hp Hsrc hdr block Hsend.
  unfold send_targeted5. change SECTION_LEN with 65535.
  simpl negb at 1. cbv iota.
  destruct (Z.leb_spec d 65535); [| lia].
  destruct (Z.leb_spec p 65535); [| lia].
  simpl negb. cbv iota.
  unfold wrap16. rewrite (Z.mod_small d), (Z.mod_small p) by lia.
  rewrite valid_enc_own_seq by (try assumption; lia).
  simpl negb. cbv iota. simpl payload_src.
  destruct (Z.ltb_spec (Z.of_nat (length (up_input c))) d); [lia |].
  fold hdr. fold block. rewrite Hsend. reflexivity.
Qed.

End Emit.

(** ** A circuit that only sends chaff *)

Lemma chaff_send (K : ciphers) (c : @chop_circuit_t Z) :
  chaff_shape c ->
  exists c', send fixed_room_steg K c = Ret 0 c' /\
             chaff_shape c' /\
             length (wire c') = S (length (wire c)).
Proof.
  intros ((cn & Hds & Hser & Hsteg) & Hsrv & Hin & Heof & Hfin & Hseq).
  destruct cn as [ser st rp msp sh nmt]. simpl in Hser, Hsteg. subst ser st.
  set (cn := {| serial := 1; steg := Some 100; recv_pending := rp;
                must_send_pending := msp; sent_handshake := sh;
                no_more_transmissions := nmt |}) in *.
  set (c0 := do_call c circuit_disarm_flush_timer).
  assert (Hpick : pick_connection fixed_room_steg 0 c0 = (Some cn, 32)).
  { unfold pick_connection. simpl downstreams. rewrite Hds. reflexivity. }
  set (cn' := {| serial := 1; steg := Some 100; recv_pending := rp;
                 must_send_pending := false; sent_handshake := true;
                 no_more_transmissions := nmt || false |}).
  assert (Hcs : forall block, conn_send fixed_room_steg cn block c0
                  = conn_sent cn' block false).
  { intros block. unfold conn_send. simpl server_mode. rewrite Hsrv.
    simpl. rewrite !andb_false_r. reflexivity. }
  assert (H5 : send_targeted2 fixed_room_steg K cn 32 c0 =
               Ret 0 (commit_block c0 cn'
                 {| wb_conn := 1;
                    wb_hdr := block_header_enc K (send_seq c) 0 0 op_DAT;
                    wb_block := seal_block K
                      (block_header_enc K (send_seq c) 0 0 op_DAT) [];
                    wb_sent := seal_block K
                      (block_header_enc K (send_seq c) 0 0 op_DAT) [] |}
                 false [] op_DAT)).
  { unfold send_targeted2.
    change (up_input c0) with (up_input c).
    change (upstream_eof c0) with (upstream_eof c).
    rewrite Hin, Heof.
    change (negb _) with false at 1. cbv iota. simpl length.
    change (Z.of_nat 0 >? SECTION_LEN) with false. cbv iota. simpl andb.
    cbv iota.
    change (wrap64 (wrap64 (32 - MIN_BLOCK_SIZE) - Z.of_nat 0)) with 0.
    change (Z.of_nat 0) with 0.
    assert (Hleg : legal_opcode op_DAT)
      by (unfold legal_opcode, op_DAT; lia).
    assert (Hsrc : 0 <= Z.of_nat (length (up_input c0))) by lia.
    rewrite (send_targeted5_emits fixed_room_steg K cn cn' 0 0 op_DAT
               c0 _ false Hleg Hseq
               ltac:(lia) ltac:(lia) Hsrc (Hcs _)).
    change (up_input c0) with (up_input c).
    rewrite Hin. reflexivity. }
  unfold send. fold c0. simpl downstreams. rewrite Hds.
  simpl up_input. rewrite Hin. simpl length.
  change (send_loop fixed_room_steg K 1 c0) with
    (match pick_connection fixed_room_steg (Z.of_nat (length (up_input c0))) c0 with
     | (None, _) => Ret 0 c0
     | (Some target, blocksize) =>
         match send_targeted2 fixed_room_steg K target blocksize c0 with
         | Ret rc ckt' =>
             if rc =? 0 then
               if Z.of_nat (length (up_input ckt')) >? 0
               then send_loop fixed_room_steg K 0 ckt'
               else Ret 0 ckt'
             else Ret (-1) ckt'
         | r => r
         end
     end).
  simpl up_input. rewrite Hin. simpl length. change (Z.of_nat 0) with 0.
  rewrite Hpick, H5. simpl.
  unfold check_for_eof. simpl. rewrite Hfin, Hsrv. simpl.
  eexists. split; [reflexivity |]. split.
  - unfold chaff_shape. simpl. rewrite Hds. simpl.
    repeat split; try assumption.
    + exists cn'. repeat split.
    + apply Z.mod_pos_bound. lia.
    + apply Z.mod_pos_bound. lia.
  - simpl. rewrite length_app. simpl. lia.
Qed.

Lemma chaff_run (K : ciphers) (n : nat) (c : @chop_circuit_t Z) :
  chaff_shape c ->
  exists c', run fixed_room_steg K (repeat act_send n) c = Ret 0 c' /\
             chaff_shape c' /\
             length (wire c') = (length (wire c) + n)%nat.
Proof.
  revert c. induction n as [| n IH]; intros c Hc.
  - exists c. simpl. split; [reflexivity |]. split; [exact Hc | lia].
  - destruct (chaff_send K c Hc) as (c1 & Hs & Hc1 & Hl1).
    destruct (IH c1 Hc1) as (c2 & Hr & Hc2 & Hl2).
    exists c2. simpl. rewrite Hs.
    split; [exact Hr |]. split; [exact Hc2 | lia].
Qed.

Lemma run_from_new_seq {St : Type} (M : steg_module St) (K : ciphers)
    (server : bool) (id : Z) (l : list action) (rc : Z)
    (ckt : chop_circuit_t) :
  run M K l (chop_circuit_new server id) = Ret rc ckt ->
  wire_seqs ckt = consecutive 0 (length (wire ckt)) /\
  send_seq ckt = wrap32 (Z.of_nat (length (wire ckt))).
Proof.
  intros Hrun.
  assert (H0 : is_u32 (send_seq (@chop_circuit_new St server id)))
    by (unfold is_u32; simpl; lia).
  pose proof (run_seq M K l _ H0) as H. rewrite Hrun in H.
  destruct H as (new & Hw & Hm & Hs). simpl in Hw, Hm, Hs.
  unfold wire_seqs. rewrite Hw. auto.
Qed.

(** X25: how [send_seq] moves.  It starts at 0; an emitted
    block carries the value [send_seq] has when it is emitted; an
    emission adds one to [send_seq] modulo 2^32, a failed send leaves
    it alone, and so does everything else a circuit does.  So the
    blocks of a circuit carry 0, 1, 2, ... modulo 2^32, and they are
    pairwise different as long as no more than 2^32 have been sent. *)
Theorem send_seq_counts_emitted_blocks {St : Type} (M : steg_module St)
    (K : ciphers) (server : bool) (id : Z) (l : list action) (rc : Z)
    (ckt : chop_circuit_t) :
  run M K l (chop_circuit_new server id) = Ret rc ckt ->
  send_seq (@chop_circuit_new St server id) = 0 /\
  wire_seqs ckt = consecutive 0 (length (wire ckt)) /\
  send_seq ckt = wrap32 (Z.of_nat (length (wire ckt))) /\
  (Z.of_nat (length (wire ckt)) <= 2 ^ 32 -> List.NoDup (wire_seqs ckt)) /\
  (forall conn d p f payload c rc' c',
     is_u32 (send_seq c) ->
     send_targeted5 M K conn d p f payload c = Ret rc' c' ->
     (rc' = 0 /\
      exists b, wire c' = wire c ++ [b] /\
                seqno (wb_hdr b) = send_seq c /\
                send_seq c' = wrap32 (send_seq c + 1)) \/
     (rc' = -1 /\ wire c' = wire c /\ send_seq c' = send_seq c)) /\
  (forall a c rc' c',
     is_u32 (send_seq c) -> perform M K a c = Ret rc' c' -> seq_step c c').
Proof.
  intros Hrun.
  destruct (run_from_new_seq M K server id l rc ckt Hrun) as [Hseqs Hs].
  split; [reflexivity |]. split; [exact Hseqs |]. split; [exact Hs |].
  split; [| split].
  - intros Hle. rewrite Hseqs. apply consecutive_NoDup. exact Hle.
  - intros conn d p f payload c rc' c' Hc E.
    apply send_targeted5_inv in E
      as [[-> ->] | (-> & _ & _ & Hv & _ & conn' & bytes & cease & _ & _ & ->)].
    + right. auto.
    + left. split; [reflexivity |]. eexists. split; [reflexivity |].
      simpl. split; [| reflexivity].
      apply (valid_enc_seqno K _ _ _ _ _ Hc Hv).
  - intros a c rc' c' Hc E.
    pose proof (perform_seq M K a c Hc) as H. rewrite E in H. exact H.
Qed.

Lemma chaff_from_new (K : ciphers) (n : nat) :
  exists ckt,
    run fixed_room_steg K
        (act_add_downstream chaff_conn :: repeat act_send n)
        (chop_circuit_new true 7) = Ret 0 ckt /\
    length (wire ckt) = n /\
    wire_seqs ckt = consecutive 0 n.
Proof.
  assert (Hshape : chaff_shape
            (add_downstream chaff_conn (chop_circuit_new true 7))).
  { unfold chaff_shape, is_u32. simpl.
    repeat split; try lia. exists chaff_conn. repeat split. }
  destruct (chaff_run K n _ Hshape) as (ckt & Hrun & _ & Hlen).
  simpl in Hlen.
  assert (Hall : run fixed_room_steg K
            (act_add_downstream chaff_conn :: repeat act_send n)
            (chop_circuit_new true 7) = Ret 0 ckt) by exact Hrun.
  exists ckt. split; [exact Hall |]. split; [exact Hlen |].
  destruct (run_from_new_seq _ _ _ _ _ _ _ Hall) as [Hseqs _].
  rewrite Hseqs, Hlen. reflexivity.
Qed.

(** C8, where the code departs from it: a server circuit that sends
    2^32 + 1 blocks of chaff.  No rekey comes in between, [send_seq]
    wraps around, and the last block carries sequence number 0 as the
    first one did: two blocks under one key share a sequence number. *)
Lemma send_seq_repeats_after_wrap :
  exists ckt,
    run fixed_room_steg toy_ciphers
        (act_add_downstream chaff_conn
           :: repeat act_send (N.to_nat 4294967297))
        (chop_circuit_new true 7) = Ret 0 ckt /\
    length (wire ckt) = N.to_nat 4294967297 /\
    nth 0 (wire_seqs ckt) (-1) = 0 /\
    nth (N.to_nat 4294967296) (wire_seqs ckt) (-1) = 0 /\
    ~ List.NoDup (wire_seqs ckt).
Proof.
  destruct (chaff_from_new toy_ciphers (N.to_nat 4294967297))
    as (ckt & Hrun & Hlen & Hseqs).
  exists ckt. split; [exact Hrun |]. split; [exact Hlen |].
  assert (H0 : nth 0 (wire_seqs ckt) (-1) = 0).
  { rewrite Hseqs, consecutive_nth by lia. reflexivity. }
  assert (H1 : nth (N.to_nat 4294967296) (wire_seqs ckt) (-1) = 0).
  { rewrite Hseqs, consecutive_nth by lia.
    rewrite N_nat_Z. reflexivity. }
  split; [exact H0 |]. split; [exact H1 |].
  intros Hnd.
  assert (Hl : length (wire_seqs ckt) = N.to_nat 4294967297)
    by (rewrite Hseqs; apply consecutive_length).
  pose proof (proj1 (List.NoDup_nth (wire_seqs ckt) (-1)) Hnd
                0%nat (N.to_nat 4294967296)) as Hinj.
  rewrite Hl in Hinj.
  assert (0%nat = N.to_nat 4294967296) by (apply Hinj; [lia | lia | congruence]).
  lia.
Qed.

(** ** The model at work *)

Lemma toy_cipher_lengths : cipher_lengths toy_ciphers.
Proof.
  split.
  - intros b Hb. simpl. rewrite length_map. exact Hb.
  - intros i n. simpl. rewrite length_map. split; reflexivity.
Defined.

(** C6, where the code departs from it: with 3 bytes pending,
    [send_targeted(conn, 34)] does not emit a block of 34 bytes with
    [min(3, 34 - 32, 65535) = 2] bytes of data.  It takes all 3 bytes
    as data, the padding length [(34 - 32) - 3] wraps around, and the
    assertion [p <= SECTION_LEN] stops the process.  [send] makes
    that very call when the circuit's one connection offers 34 bytes
    of room, and ends the same way. *)
Example send_targeted_short_block_aborts :
  send_targeted2 fixed_room_steg toy_ciphers chaff_conn 34 demo_circuit
  = Crash /\
  send fixed_room_steg toy_ciphers
    (with_up_input
       (add_downstream
          {| serial := 1; steg := Some 34; recv_pending := [];
             must_send_pending := false; sent_handshake := false;
             no_more_transmissions := false |}
          (chop_circuit_new true 7))
       [104; 105; 33])
  = Crash.
Proof. split; vm_compute; reflexivity. Qed.

Example recv_delivers_payload :
  up_output (outcome_circuit demo_circuit
               (recv fixed_room_steg toy_ciphers 1 demo_block demo_circuit))
  = [104; 105; 33].
Proof. vm_compute. reflexivity. Qed.

Lemma emitted_block_wire_layout_witness :
  exists b,
    wire (outcome_circuit demo_circuit
            (send_targeted5 fixed_room_steg toy_ciphers chaff_conn 3 2
               op_DAT payload_xmit_pending demo_circuit)) = [b] /\
    clear (wb_hdr b) = [0; 0; 0; 0; 0; 3; 0; 2; 0; 0; 0; 0; 0; 0; 0; 0] /\
    wb_block b = demo_block.
Proof.
  assert (E : send_targeted5 fixed_room_steg toy_ciphers chaff_conn 3 2
                op_DAT payload_xmit_pending demo_circuit
              = Ret 0 (outcome_circuit demo_circuit
                  (send_targeted5 fixed_room_steg toy_ciphers chaff_conn 3 2
                     op_DAT payload_xmit_pending demo_circuit)))
    by (vm_compute; reflexivity).
  assert (Hu : is_u32 (send_seq demo_circuit))
    by (unfold is_u32; simpl; lia).
  assert (Hl : legal_opcode op_DAT)
    by (unfold legal_opcode, op_DAT; lia).
  destruct (emitted_block_wire_layout fixed_room_steg toy_ciphers chaff_conn
              3 2 op_DAT payload_xmit_pending demo_circuit _
              toy_cipher_lengths Hu ltac:(lia) ltac:(lia) Hl E)
    as (b & Hw & Hc & _).
  exists b. split; [exact Hw |].
  split; [rewrite Hc; reflexivity |].
  assert (Hb : [b] = wire (outcome_circuit demo_circuit
             (send_targeted5 fixed_room_steg toy_ciphers chaff_conn 3 2
                op_DAT payload_xmit_pending demo_circuit)))
    by (rewrite Hw; reflexivity).
  vm_compute in Hb. injection Hb as ->. vm_compute. reflexivity.
Defined.

Lemma valid_iff_check_zero_and_in_window_witness :
  valid (block_header_enc toy_ciphers 5 3 2 op_DAT) 3 = true /\
  valid (block_header_enc toy_ciphers 5 3 2 op_DAT) 6 = false.
Proof.
  assert (Hlen : length (clear (block_header_enc toy_ciphers 5 3 2 op_DAT))
                 = 16%nat) by reflexivity.
  assert (Hall : Forall is_u8 (clear (block_header_enc toy_ciphers 5 3 2 op_DAT))).
  { vm_compute. repeat (constructor; [split; [discriminate | reflexivity] |]).
    constructor. }
  split.
  - apply (proj1 (valid_iff_check_zero_and_in_window _ 3 Hlen Hall
                    ltac:(unfold is_u32; lia))).
    split; [reflexivity | vm_compute; discriminate].
  - apply (proj2 (valid_iff_check_zero_and_in_window _ 6 Hlen Hall
                    ltac:(unfold is_u32; lia))).
    right. intros (k & Hk & Heq).
    change (seqno (block_header_enc toy_ciphers 5 3 2 op_DAT)) with 5 in Heq.
    unfold wrap32 in Heq. rewrite Z.mod_small in Heq by lia. lia.
Defined.

Lemma insert_rejects_outside_window_or_duplicate_witness :
  insert 300 op_DAT [1] reassembly_queue_new
    = (false, reassembly_queue_new, [[1]]) /\
  fst (fst (insert 7 op_DAT [1] reassembly_queue_new)) = true.
Proof.
  destruct (insert_rejects_outside_window_or_duplicate reassembly_queue_new
              300 op_DAT [1] eq_refl) as (_ & Hrej & _).
  destruct (insert_rejects_outside_window_or_duplicate reassembly_queue_new
              7 op_DAT [1] eq_refl) as (_ & _ & Hacc).
  split.
  - apply Hrej. left. vm_compute. reflexivity.
  - destruct Hacc as (q' & -> & _).
    + intros [H | [x Hx]]; [vm_compute in H | vm_compute in Hx];
        discriminate.
    + reflexivity.
Defined.

Lemma remove_next_delivers_in_sequence_witness :
  remove_next reassembly_queue_new = (empty_elt, reassembly_queue_new) /\
  map fst (fst (remove_run 3
     (snd (fst (insert 1 op_DAT [2]
        (snd (fst (insert 0 op_DAT [1] reassembly_queue_new))))))))
  = [0; 1].
Proof.
  split.
  - destruct (remove_next_delivers_in_sequence reassembly_queue_new eq_refl
                ltac:(unfold is_u32; simpl; lia)) as (_ & He & _).
    apply He. reflexivity.
  - destruct (remove_next_delivers_in_sequence
                (snd (fst (insert 1 op_DAT [2]
                   (snd (fst (insert 0 op_DAT [1] reassembly_queue_new))))))
                eq_refl ltac:(unfold is_u32; simpl; lia)) as (_ & _ & Hrun).
    destruct (Hrun 3%nat) as (Hseq & _). rewrite Hseq. vm_compute. reflexivity.
Defined.

Lemma pick_connection_best_fit_witness :
  pick_connection fixed_room_steg 10 demo_circuit = (Some chaff_conn, 42).
Proof.
  destruct (pick_connection_best_fit fixed_room_steg 10 demo_circuit
              ltac:(lia)) as (_ & Habove & _).
  destruct Habove as (c & r & Hpick & [Hin Hr] & _).
  - exists chaff_conn, 100. split; [split |]; [left | |]; try reflexivity.
    vm_compute. discriminate.
  - rewrite Hpick. destruct Hin as [<- | []]. reflexivity.
Defined.

Lemma send_targeted_block_shape_witness :
  exists b,
    wire (outcome_circuit demo_circuit
            (send_targeted2 fixed_room_steg toy_ciphers chaff_conn 37
               demo_circuit)) = [b] /\
    dlen (wb_hdr b) = 3 /\ plen (wb_hdr b) = 2 /\ opcode (wb_hdr b) = op_DAT.
Proof.
  assert (E : send_targeted2 fixed_room_steg toy_ciphers chaff_conn 37
                demo_circuit
              = Ret 0 (outcome_circuit demo_circuit
                  (send_targeted2 fixed_room_steg toy_ciphers chaff_conn 37
                     demo_circuit)))
    by (vm_compute; reflexivity).
  assert (Hu : is_u32 (send_seq demo_circuit))
    by (unfold is_u32; simpl; lia).
  destruct (send_targeted_block_shape fixed_room_steg toy_ciphers chaff_conn
              37 demo_circuit _ toy_cipher_lengths Hu E)
    as (b & Hw & _ & _ & Hd & _ & Hp & _ & Hfin & Hdat).
  exists b. split; [exact Hw |].
  change (Z.of_nat (length (up_input demo_circuit))) with 3 in Hd.
  split; [rewrite Hd; reflexivity |].
  split; [rewrite Hp, Hd; reflexivity |].
  apply Hdat. intros Hop. apply Hfin in Hop as (Heof & _).
  discriminate Heof.
Defined.

Lemma reserved_opcode_never_valid_witness :
  clear (block_header_enc toy_ciphers 1 2 3 6) = repeat 0xFF 16 /\
  send_targeted5 fixed_room_steg toy_ciphers chaff_conn 0 0 6
    payload_xmit_pending demo_circuit = Crash.
Proof.
  destruct (reserved_opcode_never_valid fixed_room_steg toy_ciphers 1 2 3 6
              ltac:(lia)) as (Hc & _).
  destruct (reserved_opcode_never_valid fixed_room_steg toy_ciphers 0 0 0 6
              ltac:(lia)) as (_ & _ & _ & Hs).
  split; [exact Hc | apply Hs].
Defined.



Lemma send_seq_counts_emitted_blocks_witness :
  wire_seqs (outcome_circuit demo_circuit
     (run fixed_room_steg toy_ciphers
        [act_add_downstream chaff_conn; act_send; act_send; act_send]
        (chop_circuit_new true 7))) = [0; 1; 2].
Proof.
  assert (E : run fixed_room_steg toy_ciphers
                [act_add_downstream chaff_conn; act_send; act_send; act_send]
                (chop_circuit_new true 7)
              = Ret 0 (outcome_circuit demo_circuit
                  (run fixed_room_steg toy_ciphers
                     [act_add_downstream chaff_conn; act_send; act_send;
                      act_send] (chop_circuit_new true 7))))
    by (vm_compute; reflexivity).
  destruct (send_seq_counts_emitted_blocks fixed_room_steg toy_ciphers true 7
              _ 0 _ E) as (_ & Hseqs & _).
  rewrite Hseqs. vm_compute. reflexivity.
Defined.

(** * Further properties of the chopper *)

(** ** The header codec *)

Lemma header_fields_of_enc (K : ciphers) (s d p : Z) (f : opcode_t)
    (w : Z) :
  legal_opcode f -> is_u32 s -> 0 <= d < 2 ^ 16 -> 0 <= p < 2 ^ 16 ->
  is_u32 w ->
  let h := block_header_enc K s d p f in
  seqno h = s /\ dlen h = d /\ plen h = p /\ opcode h = f /\
  total_len h = 32 + d + p /\
  (valid h w = true <-> in_window w s).
Proof.
  intros Hf Hs Hd Hp Hw h.
  destruct (block_header_enc_fields K s d p f Hf Hs Hd Hp)
    as (Hseq & Hdl & Hpl & Hop & Hck & Hlen & Hall).
  fold h in Hseq, Hdl, Hpl, Hop, Hck, Hlen, Hall.
  repeat split; try assumption.
  - unfold total_len. rewrite Hdl, Hpl. reflexivity.
  - intros Hv. apply (valid_true_iff h w Hlen Hall) in Hv as [_ Hv].
    apply in_window_delta; [exact Hw | exact Hs |]. rewrite <- Hseq. exact Hv.
  - intros Hin. apply (valid_true_iff h w Hlen Hall).
    split; [exact Hck |]. rewrite Hseq.
    apply in_window_delta; assumption.
Qed.

(** X1: the accessors read back what the encoding
    constructor was given, the total length is 32 plus the two section
    lengths, and the header is valid for exactly the windows that
    contain its sequence number. *)
Theorem header_fields_round_trip (K : ciphers) (s d p : Z) (f : opcode_t)
    (w : Z) :
  legal_opcode f -> is_u32 s -> 0 <= d < 2 ^ 16 -> 0 <= p < 2 ^ 16 ->
  is_u32 w ->
  let h := block_header_enc K s d p f in
  seqno h = s /\ dlen h = d /\ plen h = p /\ opcode h = f /\
  total_len h = 32 + d + p /\
  (valid h w = true <-> in_window w s).
Proof. apply header_fields_of_enc. Qed.

Lemma block_header_dec_enc (K : ciphers) (s d p : Z) (f : opcode_t)
    (rest : list Z) :
  cipher_lengths K -> cipher_inverse K -> legal_opcode f ->
  block_header_dec K (nonce (block_header_enc K s d p f) ++ rest)
  = block_header_enc K s d p f.
Proof.
  intros HL HI Hf.
  destruct (block_header_enc_clear K s d p f Hf) as [Hcl Hci].
  assert (Hlen : length (header_layout s d p f) = 16%nat) by reflexivity.
  assert (Hn : length (nonce (block_header_enc K s d p f)) = 16%nat).
  { unfold nonce. rewrite Hci. apply (ecb_encrypt_length K HL). exact Hlen. }
  unfold block_header_dec.
  rewrite length_app.
  destruct (Z.ltb_spec (Z.of_nat (length (nonce (block_header_enc K s d p f))
                                  + length rest)) 16); [lia |].
  rewrite firstn_app, Hn, Nat.sub_diag, firstn_O, app_nil_r.
  rewrite firstn_all2 by lia.
  unfold nonce. rewrite Hci.
  rewrite (ecb_decrypt_encrypt K HI) by exact Hlen.
  rewrite <- Hci, <- Hcl. destruct (block_header_enc K s d p f). reflexivity.
Qed.

(** X2: the decoding constructor gives back the header object
    that the encoding constructor built, whatever follows it in the
    buffer; from a buffer of fewer than 16 bytes it gives the all-0xFF
    header, which no window accepts. *)
Theorem header_decode_round_trip (K : ciphers) (s d p : Z) (f : opcode_t)
    (rest : list Z) :
  cipher_lengths K -> cipher_inverse K -> legal_opcode f ->
  block_header_dec K (nonce (block_header_enc K s d p f) ++ rest)
    = block_header_enc K s d p f /\
  (forall buf w, (length buf < 16)%nat ->
     block_header_dec K buf = invalid_header /\
     valid (block_header_dec K buf) w = false).
Proof.
  intros HL HI Hf. split; [apply block_header_dec_enc; assumption |].
  intros buf w Hshort. unfold block_header_dec.
  destruct (Z.ltb_spec (Z.of_nat (length buf)) 16); [| lia].
  split; [reflexivity | apply valid_invalid_header].
Qed.

Lemma toy_cipher_inverse : cipher_inverse toy_ciphers.
Proof.
  split.
  - intros b _. simpl. rewrite map_map.
    rewrite <- (map_id b) at 2. apply map_ext. intros a. lia.
  - intros i n Hi. simpl.
    set (ct := map (fun b => wrap8 (b + at_ n 0)) i).
    assert (Hct : length ct = length i) by (subst ct; apply length_map).
    assert (Htag : length (toy_tag i) = 16%nat) by apply repeat_length.
    rewrite length_app, Hct, Htag.
    replace (length i + 16 - 16)%nat with (length ct) by lia.
    rewrite firstn_app, Nat.sub_diag, firstn_O, app_nil_r.
    rewrite firstn_all2 by lia.
    rewrite skipn_app, Nat.sub_diag, skipn_O.
    rewrite skipn_all2 by lia.
    simpl app.
    assert (Htt : toy_tag i = toy_tag ct)
      by (unfold toy_tag; rewrite Hct; reflexivity).
    rewrite bool_decide_eq_true_2 by exact Htt.
    f_equal. subst ct. rewrite map_map.
    rewrite <- (map_id i) at 2. apply map_ext_in. intros a Ha.
    rewrite Forall_forall in Hi. specialize (Hi a).
    assert (Hu : is_u8 a) by (apply Hi; apply list_elem_of_In; exact Ha).
    unfold wrap8, is_u8 in *.
    rewrite Zminus_mod_idemp_l.
    replace (a + at_ n 0 - at_ n 0) with a by lia.
    apply Z.mod_small. exact Hu.
Defined.

Lemma header_fields_round_trip_witness :
  seqno (block_header_enc toy_ciphers 258 3 2 op_FIN) = 258 /\
  valid (block_header_enc toy_ciphers 258 3 2 op_FIN) 4 = true.
Proof.
  destruct (header_fields_round_trip toy_ciphers 258 3 2 op_FIN 4
              ltac:(unfold legal_opcode, op_FIN; lia)
              ltac:(unfold is_u32; lia) ltac:(lia) ltac:(lia)
              ltac:(unfold is_u32; lia)) as (Hs & _ & _ & _ & _ & Hv).
  split; [exact Hs |]. apply Hv. exists 254. split; [lia | reflexivity].
Defined.

Lemma header_decode_round_trip_witness :
  block_header_dec toy_ciphers demo_block
  = block_header_enc toy_ciphers 0 3 2 op_DAT.
Proof.
  destruct (header_decode_round_trip toy_ciphers 0 3 2 op_DAT
              (skipn 16 demo_block) toy_cipher_lengths toy_cipher_inverse
              ltac:(unfold legal_opcode, op_DAT; lia)) as [H _].
  exact H.
Defined.

Section Scheduler.
Context {St : Type}.
Variable M : steg_module St.
Variable K : ciphers.

(** ** The send scheduler *)

Lemma pick_connection_cases (d : Z) (ckt : @chop_circuit_t St) :
  0 <= d < 2 ^ 64 ->
  let desired := Z.min d 65535 + 32 in
  (exists c r, pick_connection M d ckt = (Some c, desired) /\
     In c (downstreams ckt) /\ offered_room M c = Some r /\ desired <= r) \/
  (exists c r, pick_connection M d ckt = (Some c, r) /\
     In c (downstreams ckt) /\ offered_room M c = Some r /\ 32 < r < desired /\
     forall c' r', In c' (downstreams ckt) -> offered_room M c' = Some r' ->
                   r' < desired) \/
  (pick_connection M d ckt = (None, 0) /\
   forall c' r', In c' (downstreams ckt) -> offered_room M c' = Some r' ->
                 r' = 0).
Proof.
  intros Hd desired.
  destruct (pick_connection_inv M d ckt Hd) as (acc & _ & Hinv & Hpick).
  subst desired. destruct acc as [[[mb ma] tb] ta]. destruct Hinv as [Ha Hb].
  destruct ta as [a |].
  - left. destruct Ha as (Ha1 & Ha2 & Ha3 & _). exists a, ma. auto.
  - destruct Ha as (_ & Ha4). destruct tb as [b |].
    + right. left. destruct Hb as (Hb1 & Hb2 & Hb3 & _).
      exists b, mb. repeat split; try assumption; try lia.
      unfold offered_room in Hb2. destruct (steg b) as [s |]; [| discriminate].
      injection Hb2 as Hb2. change MIN_BLOCK_SIZE with 32 in Hb2.
      change MAX_BLOCK_SIZE with 131102 in Hb2.
      destruct (Z.leb_spec (transmit_room M s) 32); simpl in Hb2; [lia |].
      destruct (Z.gtb_spec (transmit_room M s) 131102); lia.
    + right. right. destruct Hb as (-> & Hb4). split; [exact Hpick |].
      intros c' r' Hin Hr.
      pose proof (offered_room_range M c' r' Hr).
      pose proof (Ha4 c' r' Hin Hr). pose proof (Hb4 c' r' Hin Hr). lia.
Qed.

(** X3: when [pick_connection] names a connection, it is one
    of the downstreams, it has a steg handle, and [*blocksize] is at
    least 32, at most [min(d, 65535) + 32] and at most the room the connection
    counts for, so the size assertion on entry to [send_targeted] holds;
    when it names none, [*blocksize] is 0. *)
Theorem pick_connection_blocksize_in_range (d : Z)
    (ckt : @chop_circuit_t St) :
  0 <= d < 2 ^ 64 ->
  match pick_connection M d ckt with
  | (Some c, blocksize) =>
      In c (downstreams ckt) /\
      (exists r, offered_room M c = Some r /\ blocksize <= r) /\
      MIN_BLOCK_SIZE <= blocksize <= Z.min d SECTION_LEN + MIN_BLOCK_SIZE /\
      blocksize <= MAX_BLOCK_SIZE
  | (None, blocksize) => blocksize = 0
  end.
Proof.
  intros Hd. change MIN_BLOCK_SIZE with 32. change SECTION_LEN with 65535.
  change MAX_BLOCK_SIZE with 131102.
  destruct (pick_connection_cases d ckt Hd)
    as [(c & r & -> & Hin & Hr & Hge)
       | [(c & r & -> & Hin & Hr & Hlt & _) | [-> _]]].
  - split; [exact Hin |]. split; [eauto |]. lia.
  - split; [exact Hin |]. split; [exists r; split; [exact Hr | lia] |]. lia.
  - reflexivity.
Qed.

Lemma send_targeted2_short (conn : chop_conn_t) (blocksize : Z)
    (c : @chop_circuit_t St) :
  blocksize - 32 < Z.min (Z.of_nat (length (up_input c))) 65535 ->
  send_targeted2 M K conn blocksize c = Crash.
Proof.
  intros Hshort. unfold send_targeted2.
  change MIN_BLOCK_SIZE with 32. change MAX_BLOCK_SIZE with 131102.
  change SECTION_LEN with 65535.
  destruct (Z.geb_spec blocksize 32); [| reflexivity].
  destruct (Z.leb_spec blocksize 131102); [| reflexivity].
  simpl negb. cbv iota.
  set (avail := Z.of_nat (length (up_input c))) in *.
  assert (E : forall d o, d = Z.min avail 65535 ->
            send_targeted5 M K conn d
              (wrap64 (wrap64 (blocksize - 32) - d)) o
              payload_xmit_pending c = Crash).
  { intros d o ->. unfold send_targeted5. change SECTION_LEN with 65535.
    simpl negb at 1. cbv iota.
    destruct (Z.leb_spec (Z.min avail 65535) 65535); [| lia].
    simpl negb. cbv iota.
    rewrite (wrap64_small (blocksize - 32)) by lia.
    rewrite wrap64_neg by lia.
    destruct (Z.leb_spec (blocksize - 32 - Z.min avail 65535 + 2 ^ 64) 65535);
      [lia | reflexivity]. }
  destruct (Z.gtb_spec avail 65535).
  - apply E. lia.
  - destruct (upstream_eof c && negb (sent_fin c)); apply E; lia.
Qed.

(** X4: [send_targeted(conn, blocksize)] takes
    [min(avail, 65535)] bytes of data whatever [blocksize] is; when
    [blocksize - 32] is smaller than that, the padding length wraps
    around and the assertion [p <= SECTION_LEN] stops the process.  So
    [send] aborts whenever there is a downstream with room, but none
    with room for all the pending data (up to 65535 bytes). *)
Theorem send_aborts_when_data_exceeds_room (c : @chop_circuit_t St) :
  (forall conn r, In conn (downstreams c) -> offered_room M conn = Some r ->
                  r < Z.min (Z.of_nat (length (up_input c))) 65535 + 32) ->
  (exists conn r, In conn (downstreams c) /\ offered_room M conn = Some r /\
                  0 < r) ->
  (forall conn blocksize,
     blocksize - 32 < Z.min (Z.of_nat (length (up_input c))) 65535 ->
     send_targeted2 M K conn blocksize c = Crash) /\
  send M K c = Crash.
Proof.
  intros Hall (conn0 & r0 & Hin0 & Hr0 & Hpos).
  split; [intros; apply send_targeted2_short; assumption |].
  unfold send. simpl downstreams.
  destruct (downstreams c) as [| c1 l] eqn:Hds; [destruct Hin0 |].
  rewrite <- Hds in Hall, Hin0. clear c1 l Hds.
  set (c0 := do_call c circuit_disarm_flush_timer).
  change (up_input c0) with (up_input c).
  simpl send_loop.
  change (up_input c0) with (up_input c).
  assert (Hpick : exists t bs, pick_connection M
                    (Z.of_nat (length (up_input c))) c0 = (Some t, bs) /\
                  bs - 32 < Z.min (Z.of_nat (length (up_input c))) 65535).
  { unfold pick_connection.
    assert (Hdes : wrap64 ((if Z.of_nat (length (up_input c)) >? SECTION_LEN
                            then SECTION_LEN
                            else Z.of_nat (length (up_input c)))
                           + MIN_BLOCK_SIZE)
                   = Z.min (Z.of_nat (length (up_input c))) 65535 + 32).
    { change SECTION_LEN with 65535. change MIN_BLOCK_SIZE with 32.
      destruct (Z.gtb_spec (Z.of_nat (length (up_input c))) 65535);
        rewrite wrap64_small; lia. }
    rewrite Hdes.
    set (desired := Z.min (Z.of_nat (length (up_input c))) 65535 + 32) in *.
    pose proof (pick_fold_inv M desired (downstreams c0) []
                  (0, MAX_BLOCK_SIZE + 1, None, None)
                  (pick_inv_init M desired ltac:(subst desired; lia))) as Hinv.
    simpl app in Hinv.
    destruct (fold_left (pick_step M desired) (downstreams c0) _)
      as [[[mb ma] tb] ta].
    change (downstreams c0) with (downstreams c) in Hinv.
    destruct Hinv as [Ha Hb].
    destruct ta as [a |].
    - destruct Ha as (Ha1 & Ha2 & Ha3 & _).
      specialize (Hall a ma Ha1 Ha2). lia.
    - destruct tb as [b |].
      + destruct Hb as (Hb1 & Hb2 & Hb3 & _). exists b, mb.
        split; [reflexivity | lia].
      + destruct Hb as (_ & Hb4).
        specialize (Hb4 conn0 r0 Hin0 Hr0 (Hall conn0 r0 Hin0 Hr0)). lia. }
  destruct Hpick as (t & bs & -> & Hbs).
  rewrite send_targeted2_short by exact Hbs. reflexivity.
Qed.

(** What [send_special(f, NULL)] comes to: no connection, a connection
    that refuses the block, or the null [payload] drained. *)
Lemma send_special_null_eq (f : opcode_t) (c : @chop_circuit_t St) :
  legal_opcode f -> is_u32 (send_seq c) ->
  send_special M K f payload_null c =
    match pick_connection M 0 c with
    | (None, _) => Ret (-1) c
    | (Some conn, _) =>
        match conn_send M conn
                (seal_block K (block_header_enc K (send_seq c) 0 0 f) [])
                c with
        | conn_send_failed => Ret (-1) c
        | conn_sent _ _ _ => Crash
        | conn_send_abort => Crash
        end
    end.
Proof.
  intros Hf Hseq. unfold send_special.
  change (negb (0 <=? SECTION_LEN)) with false. cbv iota.
  destruct (pick_connection_cases 0 c ltac:(lia))
    as [(t & r & Hp & _) | [(t & r & Hp & _ & _ & Hlt & _) | [Hp _]]];
    [| simpl in Hlt; lia |].
  - rewrite Hp.
    change (wrap64 (Z.min 0 65535 + 32 - MIN_BLOCK_SIZE) <? 0) with false.
    cbv iota.
    change (wrap64 (wrap64 (Z.min 0 65535 + 32 - MIN_BLOCK_SIZE) - 0))
      with 0.
    unfold send_targeted5.
    change (negb (0 =? 0)) with false. cbv iota.
    change (negb (0 <=? SECTION_LEN)) with false. cbv iota.
    change (wrap16 0) with 0.
    rewrite (valid_enc_own_seq K (send_seq c) 0 0 f Hf Hseq
               ltac:(lia) ltac:(lia)).
    simpl negb. cbv iota. simpl payload_src. simpl length.
    change (Z.of_nat 0 <? 0) with false. cbv iota.
    change (firstn (Z.to_nat 0) [] ++ repeat 0 (Z.to_nat 0))
      with (@nil Z).
    destruct (conn_send M t _ c); reflexivity.
  - rewrite Hp. reflexivity.
Qed.

(** A call of [send_special(f, NULL)] that returns has failed and has
    changed nothing. *)
Lemma send_special_null_ret (f : opcode_t) (c c' : @chop_circuit_t St)
    (rc : Z) :
  send_special M K f payload_null c = Ret rc c' -> rc = -1 /\ c' = c.
Proof.
  intros E. unfold send_special in E.
  destruct (negb _); [discriminate |].
  destruct (pick_connection M 0 c) as [[conn |] bs];
    [| injection E as <- <-; auto].
  destruct (_ <? 0); [injection E as <- <-; auto |].
  apply send_targeted5_inv in E
    as [[-> ->] | (_ & _ & _ & _ & _ & t' & bs' & ce & Hnull & _)];
    [auto | discriminate Hnull].
Qed.

(** X5: [send_special(f, NULL)] never returns 0.  It returns
    -1 and leaves the circuit alone when [pick_connection] finds no
    connection or the connection refuses the block.  When the
    connection takes the block (32 bytes: no data, no padding, opcode
    [f], the current sequence number), [send_targeted] goes on to
    [evbuffer_drain(payload, d)] with the null [payload], and the
    process ends there. *)
Theorem send_special_null_payload_never_succeeds (f : opcode_t)
    (c : @chop_circuit_t St) :
  legal_opcode f -> is_u32 (send_seq c) ->
  send_special M K f payload_null c =
    match pick_connection M 0 c with
    | (None, _) => Ret (-1) c
    | (Some conn, _) =>
        match conn_send M conn
                (seal_block K (block_header_enc K (send_seq c) 0 0 f) [])
                c with
        | conn_send_failed => Ret (-1) c
        | conn_sent _ _ _ => Crash
        | conn_send_abort => Crash
        end
    end /\
  (forall rc c', send_special M K f payload_null c = Ret rc c' ->
                 rc = -1 /\ c' = c).
Proof.
  intros Hf Hseq. split.
  - apply send_special_null_eq; assumption.
  - intros rc c'. apply send_special_null_ret.
Qed.

End Scheduler.

Lemma pick_connection_blocksize_in_range_witness :
  snd (pick_connection fixed_room_steg 10 demo_circuit) = 42.
Proof.
  pose proof (pick_connection_blocksize_in_range fixed_room_steg 10
                demo_circuit ltac:(lia)) as H.
  destruct (pick_connection fixed_room_steg 10 demo_circuit)
    as [[c |] bs] eqn:E.
  - vm_compute in E. injection E as _ <-. reflexivity.
  - vm_compute in E. discriminate E.
Defined.

Lemma send_special_null_payload_never_succeeds_witness :
  send_special fixed_room_steg toy_ciphers op_RST payload_null demo_circuit
  = Crash.
Proof.
  destruct (send_special_null_payload_never_succeeds fixed_room_steg
              toy_ciphers op_RST demo_circuit
              ltac:(unfold legal_opcode, op_RST; lia)
              ltac:(unfold is_u32; simpl; lia)) as [E _].
  rewrite E. vm_compute. reflexivity.
Defined.

Lemma send_aborts_when_data_exceeds_room_witness :
  send fixed_room_steg toy_ciphers crowded_circuit = Crash.
Proof.
  apply (send_aborts_when_data_exceeds_room fixed_room_steg toy_ciphers
           crowded_circuit).
  - intros conn r [<- | []] Hr. vm_compute in Hr. injection Hr as <-.
    vm_compute. reflexivity.
  - exists chaff_conn, 100. split; [left; reflexivity |].
    split; [reflexivity | lia].
Defined.

(** ** From the sender's wire to the receiver's queue *)

Lemma insert_accepts (q : reassembly_queue) (seq : Z) (o : opcode_t)
    (d : evbuffer) :
  wrap32 (seq - next_to_process q) <= 255 ->
  data (slot q (seq mod 256)) = None ->
  insert seq o d q =
    (true,
     {| cbuf := <[Z.to_nat (seq mod 256) := {| data := Some d; op := o |}]>
                  (cbuf q);
        next_to_process := next_to_process q |},
     []).
Proof.
  intros Hwin Hfree. unfold insert, window. rewrite insert_index.
  change (2 ^ 8) with 256. rewrite Hfree.
  destruct (Z.gtb_spec (wrap32 (seq - next_to_process q)) 255); [lia |].
  reflexivity.
Qed.

Section Wire.
Context {St : Type}.
Variable M : steg_module St.
Variable K : ciphers.

(** X6: a block that [send_targeted] has emitted, when it
    stands at the front of a receiver's [recv_pending] and its sequence
    number is in the receiver's window with its slot free, is taken off
    the buffer by one pass of the loop of [recv] and put in the
    reassembly queue under that sequence number, with the sender's
    opcode and exactly the sender's data bytes (the padding is
    dropped); the bytes behind the block stay pending. *)
Theorem emitted_block_is_queued_by_receiver
    (conn : chop_conn_t) (d p : Z) (f : opcode_t) (payload : payload_t)
    (c c' : @chop_circuit_t St) (r : @chop_circuit_t St) (rest : list Z) :
  cipher_lengths K -> cipher_inverse K ->
  is_u32 (send_seq c) -> 0 <= d -> 0 <= p -> legal_opcode f ->
  Forall is_u8 (payload_src payload c) ->
  send_targeted5 M K conn d p f payload c = Ret 0 c' ->
  length (cbuf (recv_queue r)) = 256%nat ->
  is_u32 (window (recv_queue r)) ->
  in_window (window (recv_queue r)) (send_seq c) ->
  data (slot (recv_queue r) (send_seq c mod 256)) = None ->
  exists b q',
    wire c' = wire c ++ [b] /\
    recv_step K (wb_block b ++ rest) r
      = step_continue rest (with_recv_queue r q') /\
    slot q' (send_seq c mod 256)
      = {| data := Some (firstn (Z.to_nat d) (payload_src payload c));
           op := f |} /\
    (forall i, 0 <= i < 256 -> i <> send_seq c mod 256 ->
               slot q' i = slot (recv_queue r) i) /\
    next_to_process q' = next_to_process (recv_queue r).
Proof.
  intros HL HI Hseq Hd Hp Hf Hbytes Hsend Hlen Hw Hin Hfree.
  pose proof Hsend as Hinv.
  apply send_targeted5_inv in Hinv
    as [[Hrc _]
       | (_ & Hdle & Hple & _ & Hsrc & conn' & bytes & cease & _ & _ & ->)];
    [discriminate |].
  change SECTION_LEN with 65535 in Hdle, Hple.
  unfold wrap16. rewrite (Z.mod_small d), (Z.mod_small p) by lia.
  set (hdr := block_header_enc K (send_seq c) d p f).
  set (src := payload_src payload c) in *.
  set (plain := firstn (Z.to_nat d) src ++ repeat 0 (Z.to_nat p)).
  destruct (header_fields_of_enc K (send_seq c) d p f (window (recv_queue r))
              Hf Hseq ltac:(lia) ltac:(lia) Hw)
    as (Hs & Hdl & Hpl & Hop & Htot & Hval).
  fold hdr in Hs, Hdl, Hpl, Hop, Htot, Hval.
  destruct (block_header_enc_clear K (send_seq c) d p f Hf) as [Hcl Hci].
  fold hdr in Hcl, Hci.
  assert (Hn : length (nonce hdr) = 16%nat).
  { unfold nonce. rewrite Hci. apply (ecb_encrypt_length K HL). reflexivity. }
  assert (Hplain : length plain = (Z.to_nat d + Z.to_nat p)%nat).
  { subst plain. rewrite length_app, length_firstn, repeat_length. lia. }
  destruct (gcm_encrypt_length K HL plain (nonce hdr)) as [Hct Htag].
  set (ct := fst (gcm_encrypt K plain (nonce hdr))) in *.
  set (tag := snd (gcm_encrypt K plain (nonce hdr))) in *.
  assert (Hb8 : Forall is_u8 plain).
  { subst plain. apply Forall_app. split.
    - apply Forall_take. exact Hbytes.
    - apply Forall_forall. intros x Hx.
      apply list_elem_of_In, repeat_spec in Hx. subst x.
      unfold is_u8. lia. }
  eexists. eexists. split; [reflexivity |]. simpl wb_block.
  assert (Hblock : seal_block K hdr plain ++ rest
                   = nonce hdr ++ ((ct ++ tag) ++ rest)).
  { unfold seal_block. fold ct tag. rewrite <- !app_assoc. reflexivity. }
  assert (Hstep : recv_step K (seal_block K hdr plain ++ rest) r
            = step_continue rest
                (with_recv_queue r
                   (snd (fst (insert (send_seq c) f
                                (firstn (Z.to_nat d) src) (recv_queue r)))))).
  { assert (Hdec : block_header_dec K (nonce hdr ++ ((ct ++ tag) ++ rest))
                   = hdr) by (apply block_header_dec_enc; assumption).
    unfold recv_step. rewrite Hblock, Hdec.
    rewrite !length_app, Hn, Hct, Htag, Hplain.
    change MIN_BLOCK_SIZE with 32. change HEADER_LEN with 16.
    destruct (Z.eqb_spec (Z.of_nat (16 + (Z.to_nat d + Z.to_nat p + 16
                                         + length rest))) 0); [lia |].
    destruct (Z.ltb_spec (Z.of_nat (16 + (Z.to_nat d + Z.to_nat p + 16
                                         + length rest))) 32); [lia |].
    rewrite (proj2 Hval Hin). simpl negb. cbv iota.
    rewrite Htot.
    destruct (Z.ltb_spec (Z.of_nat (16 + (Z.to_nat d + Z.to_nat p + 16
                                         + length rest))) (32 + d + p));
      [lia |].
    rewrite skipn_app, Hn, Nat.sub_diag, skipn_O, skipn_all2 by lia.
    simpl app.
    replace (Z.to_nat (32 + d + p - 16)) with (length (ct ++ tag))
      by (rewrite length_app, Hct, Htag, Hplain; lia).
    rewrite firstn_app, Nat.sub_diag, firstn_O, app_nil_r, firstn_all.
    rewrite skipn_app, Nat.sub_diag, skipn_O, skipn_all. simpl app.
    subst ct tag. rewrite (gcm_decrypt_encrypt K HI plain (nonce hdr) Hb8).
    rewrite Hdl, Hs, Hop.
    assert (Hdata : firstn (Z.to_nat d) plain = firstn (Z.to_nat d) src).
    { subst plain. rewrite firstn_app, length_firstn.
      replace (Z.to_nat d - Nat.min (Z.to_nat d) (length src))%nat
        with 0%nat by lia.
      rewrite firstn_O, app_nil_r, firstn_firstn, Nat.min_id. reflexivity. }
    rewrite Hdata.
    destruct (insert (send_seq c) f (firstn (Z.to_nat d) src) (recv_queue r))
      as [[ok q'] fr] eqn:Hins.
    rewrite insert_accepts in Hins; [| | exact Hfree].
    - injection Hins as <- <- <-. reflexivity.
    - apply in_window_delta; assumption. }
  split; [exact Hstep |].
  rewrite insert_accepts;
    [| apply in_window_delta; assumption | exact Hfree].
  assert (Hpos : 0 <= send_seq c mod 256 < 256)
    by (apply Z.mod_pos_bound; lia).
  simpl snd. simpl fst.
  split; [apply slot_insert_eq; assumption |].
  split; [| reflexivity].
  intros i Hi Hne. destruct (recv_queue r) as [l n0].
  apply slot_insert_ne; lia.
Qed.

End Wire.

Lemma emitted_block_is_queued_by_receiver_witness :
  exists b q',
    wire (outcome_circuit demo_circuit
            (send_targeted5 fixed_room_steg toy_ciphers chaff_conn 3 2
               op_DAT payload_xmit_pending demo_circuit)) = [b] /\
    recv_step toy_ciphers (wb_block b ++ [9; 9]) demo_circuit
      = step_continue [9; 9] (with_recv_queue demo_circuit q') /\
    slot q' 0 = {| data := Some [104; 105; 33]; op := op_DAT |}.
Proof.
  assert (E : send_targeted5 fixed_room_steg toy_ciphers chaff_conn 3 2
                op_DAT payload_xmit_pending demo_circuit
              = Ret 0 (outcome_circuit demo_circuit
                  (send_targeted5 fixed_room_steg toy_ciphers chaff_conn 3 2
                     op_DAT payload_xmit_pending demo_circuit)))
    by (vm_compute; reflexivity).
  assert (Hb : Forall is_u8 (payload_src payload_xmit_pending demo_circuit)).
  { simpl. repeat (constructor; [unfold is_u8; lia |]). constructor. }
  destruct (emitted_block_is_queued_by_receiver fixed_room_steg toy_ciphers
              chaff_conn 3 2 op_DAT payload_xmit_pending demo_circuit _
              demo_circuit [9; 9]
              toy_cipher_lengths toy_cipher_inverse
              ltac:(unfold is_u32; simpl; lia) ltac:(lia) ltac:(lia)
              ltac:(unfold legal_opcode, op_DAT; lia) Hb E eq_refl
              ltac:(unfold is_u32; simpl; lia)
              ltac:(exists 0; split; [lia | reflexivity])
              eq_refl)
    as (b & q' & Hw & Hstep & Hslot & _).
  exists b, q'. split; [exact Hw |]. split; [exact Hstep | exact Hslot].
Defined.

Section Frame.
Context {St : Type}.
Variable M : steg_module St.
Variable K : ciphers.

(** ** What sending leaves alone *)

Lemma send_frame_refl (c : @chop_circuit_t St) : send_frame c c.
Proof. unfold send_frame. repeat split. Qed.

Lemma send_frame_trans (a b c : @chop_circuit_t St) :
  send_frame a b -> send_frame b c -> send_frame a c.
Proof.
  unfold send_frame. intros H1 H2.
  repeat match goal with H : _ /\ _ |- _ => destruct H end.
  repeat split; congruence.
Qed.

Lemma send_frame_ok_trans (a b : @chop_circuit_t St) (o : outcome) :
  send_frame a b -> send_frame_ok b o -> send_frame_ok a o.
Proof.
  intros Hab. destruct o; simpl; try tauto. apply send_frame_trans. exact Hab.
Qed.

Lemma set_conn_serials (cn : @chop_conn_t St) (l : list chop_conn_t) :
  map serial (set_conn cn l) = map serial l.
Proof.
  unfold set_conn. induction l as [| x l IH]; simpl; [reflexivity |].
  rewrite IH. f_equal.
  destruct (Z.eqb_spec (serial x) (serial cn)); congruence.
Qed.

Lemma conn_send_serial (cn cn' : @chop_conn_t St) (block bytes : list Z)
    (cease : bool) (c : chop_circuit_t) :
  conn_send M cn block c = conn_sent cn' bytes cease ->
  serial cn' = serial cn.
Proof.
  unfold conn_send.
  destruct (_ && _ && _); [discriminate |].
  destruct (steg cn); [| discriminate].
  destruct (transmit _ _ _) as [[s' ce] |]; [| discriminate].
  intros [= <- _ _]. reflexivity.
Qed.

Lemma send_targeted5_frame (conn : chop_conn_t) (d p : Z) (f : opcode_t)
    (payload : payload_t) (c : @chop_circuit_t St) :
  send_frame_ok c (send_targeted5 M K conn d p f payload c).
Proof.
  destruct (send_targeted5 M K conn d p f payload c) as [rc c' | |] eqn:E;
    simpl; [| exact I | exact I].
  apply send_targeted5_inv in E
    as [[_ ->] | (_ & _ & _ & _ & _ & conn' & bytes & cease & _ & Hs & ->)].
  - apply send_frame_refl.
  - unfold send_frame. simpl. repeat split. apply set_conn_serials.
Qed.

Lemma send_targeted2_frame (conn : chop_conn_t) (blocksize : Z)
    (c : @chop_circuit_t St) :
  send_frame_ok c (send_targeted2 M K conn blocksize c).
Proof.
  unfold send_targeted2. destruct (negb _); [exact I |].
  destruct (_ >? _); [| destruct (_ && _)]; apply send_targeted5_frame.
Qed.

Lemma send_targeted1_frame (conn : chop_conn_t) (c : @chop_circuit_t St) :
  send_frame_ok c (send_targeted1 M K conn c).
Proof.
  unfold send_targeted1. destruct (steg conn); [| exact I].
  destruct (_ <? MIN_BLOCK_SIZE); [apply send_frame_refl |].
  apply send_targeted2_frame.
Qed.

Lemma put_conn_frame (c : @chop_circuit_t St) (cn : chop_conn_t) :
  send_frame c (put_conn c cn).
Proof. unfold send_frame. simpl. repeat split. apply set_conn_serials. Qed.

Lemma do_call_frame (c : @chop_circuit_t St) (x : call) :
  send_frame c (do_call c x).
Proof. unfold send_frame. repeat split. Qed.

Lemma conn_must_send_frame (id : Z) (c : @chop_circuit_t St) :
  send_frame_ok c (conn_must_send M K id c).
Proof.
  unfold conn_must_send.
  destruct (find_conn id (downstreams c)) as [cn |]; [| exact I].
  simpl steg. destruct (steg cn).
  - match goal with |- context [send_targeted1 M K ?x ?y] =>
      pose proof (send_targeted1_frame x y) as H;
      destruct (send_targeted1 M K x y) as [rc c' | |]
    end; [| exact I | exact I].
    simpl in H.
    assert (H' : send_frame c c')
      by (eapply send_frame_trans; [apply put_conn_frame | exact H]).
    destruct (rc =? 0); simpl; [exact H' |].
    eapply send_frame_trans; [exact H' | apply do_call_frame].
  - simpl.
    eapply send_frame_trans; [apply put_conn_frame | apply do_call_frame].
Qed.

Lemma eof_loop_frame (ids : list Z) (c : @chop_circuit_t St) :
  send_frame_ok c (eof_loop M K ids c).
Proof.
  revert c. induction ids as [| id ids IH]; intros c; simpl.
  - apply send_frame_refl.
  - destruct (find_conn id (downstreams c)) as [cn |]; [| exact I].
    destruct (must_send_pending cn).
    + pose proof (conn_must_send_frame id c) as H.
      destruct (conn_must_send M K id c) as [rc c' | |]; [| exact I | exact I].
      simpl in H. eapply send_frame_ok_trans; [exact H |].
      eapply send_frame_ok_trans; [apply do_call_frame | apply IH].
    + eapply send_frame_ok_trans; [apply do_call_frame | apply IH].
Qed.

Lemma check_for_eof_frame (c : @chop_circuit_t St) :
  send_frame_ok c (check_for_eof M K c).
Proof.
  unfold check_for_eof. destruct (_ && _).
  - eapply send_frame_ok_trans; [apply do_call_frame | apply eof_loop_frame].
  - destruct (negb _); [apply do_call_frame | apply send_frame_refl].
Qed.

Lemma send_loop_frame (fuel : nat) (c : @chop_circuit_t St) :
  send_frame_ok c (send_loop M K fuel c).
Proof.
  revert c. induction fuel as [| fuel IH]; intros c; simpl; [exact I |].
  destruct (pick_connection M _ c) as [[target |] blocksize].
  - pose proof (send_targeted2_frame target blocksize c) as H.
    destruct (send_targeted2 M K target blocksize c) as [rc c' | |];
      [| exact I | exact I].
    simpl in H. destruct (rc =? 0); [| exact H].
    destruct (_ >? 0); [| exact H].
    eapply send_frame_ok_trans; [exact H | apply IH].
  - apply send_frame_refl.
Qed.

Lemma send_frame_holds (c : @chop_circuit_t St) :
  send_frame_ok c (send M K c).
Proof.
  unfold send. simpl downstreams.
  destruct (downstreams c) as [| c0 l]; [unfold send_frame; repeat split |].
  match goal with |- context [send_loop M K ?f ?x] =>
    pose proof (send_loop_frame f x) as H;
    destruct (send_loop M K f x) as [rc c' | |]
  end; [| exact I | exact I].
  simpl in H.
  assert (H' : send_frame c c')
    by (eapply send_frame_trans; [apply do_call_frame | exact H]).
  destruct (rc =? 0); [| exact H'].
  eapply send_frame_ok_trans; [exact H' |].
  eapply send_frame_ok_trans; [| apply check_for_eof_frame].
  unfold send_frame. repeat split.
Qed.

(** X7: [send], [send_eof] and the must-send path of a connection
    leave the receive side of the circuit alone: the reassembly queue,
    the upstream output buffer and [received_fin] are as before, and so
    are the mode, the circuit id and the set of attached connections. *)
Theorem sending_leaves_receive_side_alone (c : @chop_circuit_t St) :
  send_frame_ok c (send M K c) /\
  send_frame_ok c (send_eof M K c) /\
  (forall id, send_frame_ok c (conn_must_send M K id c)) /\
  (forall f, send_frame_ok c (send_special M K f payload_null c)).
Proof.
  split; [apply send_frame_holds |]. split; [| split].
  - unfold send_eof.
    eapply send_frame_ok_trans; [| apply send_frame_holds].
    unfold send_frame. repeat split.
  - intros id. apply conn_must_send_frame.
  - intros f. unfold send_special. destruct (negb _); [exact I |].
    destruct (pick_connection M 0 c) as [[conn |] bs];
      [| apply send_frame_refl].
    destruct (_ <? 0); [apply send_frame_refl | apply send_targeted5_frame].
Qed.

End Frame.

Section Deliver.
Context {St : Type}.
Variable M : steg_module St.
Variable K : ciphers.

(** ** Delivering the queue to the upstream *)

Lemma with_up_output_nil (c : @chop_circuit_t St) :
  with_up_output c (up_output c ++ []) = c.
Proof.
  destruct c. unfold with_up_output. simpl. rewrite app_nil_r. reflexivity.
Qed.

(** One pass of the loop of [process_queue] over a DAT block, before any
    FIN and any error. *)
Lemma process_loop_dat (n : nat) (c : @chop_circuit_t St) (v : pq_locals)
    (blk : reassembly_elt) (q : reassembly_queue) (payload : evbuffer) :
  remove_next (recv_queue c) = (blk, q) ->
  data blk = Some payload -> op blk = op_DAT ->
  received_fin c = false -> pending_fin v = false ->
  pending_error v = false ->
  process_loop M K (S n) c v =
  process_loop M K n
    (with_up_output (with_recv_queue c q) (up_output c ++ payload))
    {| count := wrap32 (count v + 1); pending_fin := false;
       pending_error := false; sent_error := sent_error v |}.
Proof.
  intros Hrm Hdata Hop Hfin Hpf Hpe. simpl. rewrite Hrm, Hdata.
  unfold dispatch. rewrite Hop, Hdata, Hpf, Hpe. simpl default.
  change (op_DAT =? op_FIN) with false. change (op_DAT =? op_DAT) with true.
  cbv iota. simpl received_fin. rewrite Hfin.
  destruct payload as [| x payload].
  - simpl length. change (Z.of_nat 0 =? 0) with true. cbv iota.
    simpl andb. cbv iota. rewrite orb_false_r.
    change (up_output c) with (up_output (with_recv_queue c q)).
    rewrite with_up_output_nil. reflexivity.
  - assert (E : (Z.of_nat (length (x :: payload)) =? 0) = false)
      by (apply Z.eqb_neq; simpl length; lia).
    rewrite E. cbv iota. simpl andb. cbv iota. rewrite orb_false_r.
    reflexivity.
Qed.

(** The pass over the first FIN block. *)
Lemma process_loop_fin (n : nat) (c : @chop_circuit_t St) (v : pq_locals)
    (blk : reassembly_elt) (q : reassembly_queue) (payload : evbuffer) :
  remove_next (recv_queue c) = (blk, q) ->
  data blk = Some payload -> op blk = op_FIN ->
  received_fin c = false -> pending_fin v = false ->
  pending_error v = false ->
  process_loop M K (S n) c v =
  process_loop M K n
    (with_received_fin
       (do_call (with_up_output (with_recv_queue c q)
                   (up_output c ++ payload)) circuit_recv_eof) true)
    {| count := wrap32 (count v + 1); pending_fin := true;
       pending_error := false; sent_error := sent_error v |}.
Proof.
  intros Hrm Hdata Hop Hfin Hpf Hpe. simpl. rewrite Hrm, Hdata.
  unfold dispatch. rewrite Hop, Hdata, Hpe. simpl default.
  change (op_FIN =? op_FIN) with true. cbv iota.
  simpl received_fin. rewrite Hfin. cbv iota.
  destruct payload as [| x payload].
  - simpl length. change (Z.of_nat 0 =? 0) with true. cbv iota.
    simpl received_fin. rewrite Hfin. simpl andb. cbv iota.
    rewrite orb_false_r.
    change (up_output c) with (up_output (with_recv_queue c q)).
    rewrite with_up_output_nil. reflexivity.
  - assert (E : (Z.of_nat (length (x :: payload)) =? 0) = false)
      by (apply Z.eqb_neq; simpl length; lia).
    rewrite E. cbv iota. simpl received_fin. rewrite Hfin.
    simpl andb. cbv iota. rewrite orb_false_r. reflexivity.
Qed.

(** The pass that finds the front slot empty ends the loop. *)
Lemma process_loop_empty (n : nat) (c : @chop_circuit_t St) (v : pq_locals)
    (blk : reassembly_elt) (q : reassembly_queue) :
  remove_next (recv_queue c) = (blk, q) -> data blk = None ->
  process_loop M K (S n) c v = inl (with_recv_queue c q, v).
Proof. intros Hrm Hdata. simpl. rewrite Hrm, Hdata. reflexivity. Qed.

Lemma deliver_run (n : nat) :
  forall (c : @chop_circuit_t St) (v : pq_locals)
         (del : list (Z * reassembly_elt)) (q2 : reassembly_queue),
  remove_run n (recv_queue c) = (del, q2) ->
  (length del < n)%nat -> dats_then_fin del ->
  received_fin c = false -> pending_fin v = false ->
  pending_error v = false ->
  exists c2 v2,
    process_loop M K n c v = inl (c2, v2) /\
    up_output c2 = up_output c ++ payloads del /\
    recv_queue c2 = q2 /\
    received_fin c2 = has_fin del /\
    calls c2 = calls c ++ (if has_fin del then [circuit_recv_eof] else []) /\
    wire c2 = wire c /\ send_seq c2 = send_seq c /\
    up_input c2 = up_input c /\ upstream_eof c2 = upstream_eof c /\
    sent_fin c2 = sent_fin c /\ downstreams c2 = downstreams c /\
    server_mode c2 = server_mode c /\ dead_cycles c2 = dead_cycles c /\
    sent_error v2 = sent_error v /\
    (del = [] -> count v2 = count v) /\
    (del <> [] -> count v2 = wrap32 (count v + Z.of_nat (length del))).
Proof.
  induction n as [| n IH]; intros c v del q2 Hrun Hlen Hdtf Hfin Hpf Hpe;
    [lia |].
  simpl in Hrun.
  destruct (remove_next (recv_queue c)) as [blk q] eqn:Hrm.
  destruct (data blk) as [payload |] eqn:Hdata.
  - destruct (remove_run n q) as [l q3] eqn:Hrest.
    injection Hrun as <- <-.
    inversion Hdtf as [| s e Hop Heq | s e l' Hop Hl Heq]; subst.
    + (* the FIN block, last of the run *)
      rewrite (process_loop_fin n c v blk q payload Hrm Hdata Hop Hfin Hpf Hpe).
      simpl in Hlen. destruct n as [| n]; [lia |].
      simpl in Hrest.
      destruct (remove_next q) as [blk' q'] eqn:Hrm'.
      destruct (data blk') eqn:Hdata';
        [destruct (remove_run n q'); discriminate |].
      injection Hrest as <-.
      erewrite (process_loop_empty n);
        [| simpl recv_queue; exact Hrm' | exact Hdata'].
      eexists. eexists. split; [reflexivity |].
      unfold payloads, has_fin. simpl. rewrite Hdata, Hop. simpl.
      rewrite app_nil_r.
      repeat split; try reflexivity; try (intros H; discriminate H).
    + (* a DAT block *)
      rewrite (process_loop_dat n c v blk q payload Hrm Hdata Hop Hfin Hpf Hpe).
      simpl in Hlen.
      edestruct (IH (with_up_output (with_recv_queue c q)
                       (up_output c ++ payload))
                    {| count := wrap32 (count v + 1); pending_fin := false;
                       pending_error := false; sent_error := sent_error v |}
                    l q3 Hrest ltac:(lia) Hl Hfin eq_refl eq_refl)
        as (c2 & v2 & Hloop & Hout & Hq & Hrf & Hcalls & Hw & Hs & Hin & Heof
            & Hsf & Hds & Hsrv & Hdc & Hse & Hc0 & Hc1).
      exists c2, v2. split; [exact Hloop |].
      unfold payloads, has_fin in *. simpl in *. rewrite Hdata, Hop. simpl.
      change (op_DAT =? op_FIN) with false. simpl.
      rewrite app_assoc.
      repeat split; try assumption; try discriminate.
      intros _. destruct l as [| x l].
      * rewrite (Hc0 eq_refl). reflexivity.
      * rewrite (Hc1 ltac:(discriminate)). simpl length.
        unfold wrap32. rewrite Zplus_mod_idemp_l. f_equal. lia.
  - injection Hrun as <- <-.
    rewrite (process_loop_empty n c v blk q Hrm Hdata).
    eexists. eexists. split; [reflexivity |].
    unfold payloads, has_fin. simpl. rewrite app_nil_r.
    repeat split; try assumption; try reflexivity.
    + symmetry. apply app_nil_r.
    + intros H. congruence.
Qed.

Lemma process_queue_eq (c : @chop_circuit_t St) (c2 : chop_circuit_t)
    (v2 : pq_locals) :
  process_loop M K 257 c
    {| count := 0; pending_fin := false; pending_error := false;
       sent_error := false |} = inl (c2, v2) ->
  process_queue M K c =
    (let c3 := if count v2 >? 0 then with_dead_cycles c2 0 else c2 in
     if sent_error v2 then Ret (-1) c3
     else if (Z.of_nat (length (up_input c3)) >? 0)
             || (upstream_eof c3 && negb (sent_fin c3))
          then send M K c3
          else check_for_eof M K c3).
Proof.
  intros H. unfold process_queue.
  destruct (process_loop M K 257 c _) as [[c0 v0] | o]; [| discriminate].
  injection H as -> ->. reflexivity.
Qed.

(** X8: when the blocks at the front of the queue are DAT
    blocks, with or without one FIN block at their end, and no FIN has
    been received yet, [process_queue] appends their data to the
    upstream output in the order of their sequence numbers, advances
    the queue past them, and sets [received_fin] exactly when the FIN
    was among them. *)
Theorem process_queue_delivers_in_order (c c' : @chop_circuit_t St)
    (del : list (Z * reassembly_elt)) (q2 : reassembly_queue) (rc : Z) :
  remove_run 257 (recv_queue c) = (del, q2) ->
  (length del <= 256)%nat -> dats_then_fin del ->
  is_u32 (next_to_process (recv_queue c)) ->
  received_fin c = false ->
  process_queue M K c = Ret rc c' ->
  up_output c' = up_output c ++ payloads del /\
  map fst del = consecutive (next_to_process (recv_queue c)) (length del) /\
  recv_queue c' = q2 /\
  received_fin c' = has_fin del.
Proof.
  intros Hrun Hlen Hdtf Hntp Hfin Hpq.
  destruct (deliver_run 257 c
              {| count := 0; pending_fin := false; pending_error := false;
                 sent_error := false |} del q2 Hrun ltac:(lia) Hdtf Hfin
              eq_refl eq_refl)
    as (c2 & v2 & Hloop & Hout & Hq & Hrf & _ & _ & _ & _ & _ & _ & _ & _ & _
        & Hse & _).
  assert (Hseqs : map fst del
            = consecutive (next_to_process (recv_queue c)) (length del)).
  { pose proof (remove_run_consecutive 257 (recv_queue c) Hntp) as [H _].
    rewrite Hrun in H. exact H. }
  rewrite (process_queue_eq c c2 v2 Hloop) in Hpq. cbv zeta in Hpq.
  change (sent_error {| count := 0; pending_fin := false;
                        pending_error := false; sent_error := false |})
    with false in Hse.
  rewrite Hse in Hpq.
  set (c3 := if count v2 >? 0 then with_dead_cycles c2 0 else c2) in *.
  assert (H3 : up_output c3 = up_output c2 /\ recv_queue c3 = recv_queue c2
               /\ received_fin c3 = received_fin c2).
  { subst c3. destruct (count v2 >? 0); repeat split. }
  destruct H3 as (H3a & H3b & H3c).
  assert (Htail : send_frame c3 c').
  { destruct (_ || _).
    - pose proof (send_frame_holds M K c3) as H. rewrite Hpq in H. exact H.
    - pose proof (check_for_eof_frame M K c3) as H. rewrite Hpq in H. exact H. }
  destruct Htail as (T1 & T2 & T3 & _).
  repeat split; try assumption; congruence.
Qed.

End Deliver.

Lemma process_queue_delivers_in_order_witness :
  let del := [(0, {| data := Some [104]; op := op_DAT |});
              (1, {| data := Some [105]; op := op_DAT |});
              (2, {| data := Some [33]; op := op_FIN |})] in
  let c' := outcome_circuit queued_circuit
              (process_queue fixed_room_steg toy_ciphers queued_circuit) in
  up_output c' = up_output queued_circuit ++ payloads del /\
  map fst del
    = consecutive (next_to_process (recv_queue queued_circuit)) (length del) /\
  recv_queue c' = snd (remove_run 257 (recv_queue queued_circuit)) /\
  received_fin c' = has_fin del.
Proof.
  intros del c'.
  apply (process_queue_delivers_in_order fixed_room_steg toy_ciphers
           queued_circuit c' del
           (snd (remove_run 257 (recv_queue queued_circuit))) 0).
  - vm_compute. reflexivity.
  - simpl. lia.
  - apply dtf_dat; [reflexivity |]. apply dtf_dat; [reflexivity |].
    apply dtf_fin. reflexivity.
  - vm_compute. split; [discriminate | reflexivity].
  - reflexivity.
  - vm_compute. reflexivity.
Defined.

(** ** Blocks that arrive out of order *)

Lemma slot_index_inj (n : Z) (i j : nat) :
  (i < 256)%nat -> (j < 256)%nat ->
  (n + Z.of_nat i) mod 256 = (n + Z.of_nat j) mod 256 -> i = j.
Proof.
  intros Hi Hj Heq.
  assert (H : ((n + Z.of_nat i) - (n + Z.of_nat j)) mod 256 = 0).
  { rewrite Zminus_mod, Heq, Z.sub_diag. reflexivity. }
  apply Z.mod_divide in H; [| lia]. destruct H as [z Hz]. lia.
Qed.

Lemma window_offset (n : Z) (i : nat) :
  is_u32 n -> (i < 256)%nat ->
  wrap32 (wrap32 (n + Z.of_nat i) - n) = Z.of_nat i /\
  wrap32 (n + Z.of_nat i) mod 256 = (n + Z.of_nat i) mod 256.
Proof.
  unfold is_u32, wrap32. intros Hn Hi. split.
  - rewrite Zminus_mod_idemp_l.
    replace (n + Z.of_nat i - n) with (Z.of_nat i) by lia.
    apply Z.mod_small. lia.
  - apply Z.mod_mod_divide. exists (2 ^ 24). reflexivity.
Qed.

Lemma lookup_repeat {A : Type} (x : A) (k j : nat) :
  (j < k)%nat -> repeat x k !! j = Some x.
Proof.
  revert j. induction k as [| k IH]; intros j Hj; [lia |].
  destruct j as [| j]; simpl; [reflexivity |]. apply IH. lia.
Qed.

Lemma slot_empty_queue (nq i : Z) :
  0 <= i < 256 ->
  slot {| cbuf := repeat empty_elt 256; next_to_process := nq |} i
  = empty_elt.
Proof.
  intros Hi. unfold slot. cbn [cbuf].
  rewrite lookup_repeat by lia. reflexivity.
Qed.

Section Reorder.
Variable n : Z.
Variable blocks : list reassembly_elt.
Hypothesis Hn : is_u32 n.
Hypothesis Hk : (length blocks <= 256)%nat.
Hypothesis Hfull : Forall (fun e => is_Some (data e)) blocks.

Lemma block_is_elt (i : nat) :
  (i < length blocks)%nat ->
  {| data := Some (default [] (data (nth i blocks empty_elt)));
     op := op (nth i blocks empty_elt) |} = nth i blocks empty_elt.
Proof using Hfull.
  intros Hi. rewrite Forall_forall in Hfull.
  assert (Hin : nth i blocks empty_elt ∈ blocks)
    by (apply list_elem_of_In, nth_In; exact Hi).
  destruct (Hfull _ Hin) as [d Hd].
  destruct (nth i blocks empty_elt) as [dd oo]. simpl in *. subst dd.
  reflexivity.
Qed.

Lemma insert_phase (todo : list nat) :
  forall (done : list nat) (q : reassembly_queue),
  List.NoDup todo ->
  (forall i, i ∈ todo -> (i < length blocks)%nat /\ i ∉ done) ->
  length (cbuf q) = 256%nat -> next_to_process q = n ->
  (forall i, (i < 256)%nat ->
     slot q ((n + Z.of_nat i) mod 256)
     = if decide (i ∈ done) then nth i blocks empty_elt else empty_elt) ->
  exists q1,
    insert_all (map (arrival n blocks) todo) q
      = (repeat true (length todo), q1) /\
    length (cbuf q1) = 256%nat /\ next_to_process q1 = n /\
    (forall i, (i < 256)%nat ->
       slot q1 ((n + Z.of_nat i) mod 256)
       = if decide (i ∈ todo ++ done) then nth i blocks empty_elt
         else empty_elt).
Proof using Hn Hk Hfull.
  induction todo as [| i todo IH]; intros done q Hnd Hin Hlen Hntp Hslots.
  - exists q. simpl. auto.
  - apply List.NoDup_cons_iff in Hnd as [Hni Hnd'].
    destruct (Hin i ltac:(left)) as [Hik Hidone].
    destruct (window_offset n i Hn ltac:(lia)) as [Hoff Hidx].
    assert (Hfree : data (slot q (wrap32 (n + Z.of_nat i) mod 256)) = None).
    { rewrite Hidx, Hslots by lia.
      destruct (decide (i ∈ done)); [contradiction | reflexivity]. }
    change (insert_all (map (arrival n blocks) (i :: todo)) q) with
      (let '(ok, q', _) :=
         insert (wrap32 (n + Z.of_nat i)) (op (nth i blocks empty_elt))
                (default [] (data (nth i blocks empty_elt))) q in
       let '(oks, q'') := insert_all (map (arrival n blocks) todo) q' in
       (ok :: oks, q'')).
    rewrite insert_accepts; [| rewrite Hntp, Hoff; lia | exact Hfree].
    rewrite block_is_elt by exact Hik.
    set (q' := {| cbuf := <[Z.to_nat (wrap32 (n + Z.of_nat i) mod 256)
                            := nth i blocks empty_elt]> (cbuf q);
                  next_to_process := next_to_process q |}).
    destruct (IH (i :: done) q' Hnd') as (q1 & Hall & Hlen1 & Hntp1 & Hs1).
    + intros j Hj. destruct (Hin j ltac:(right; exact Hj)) as [Hjk Hjd].
      split; [exact Hjk |]. rewrite elem_of_cons. intros [-> | Hd].
      * apply Hni. apply list_elem_of_In. exact Hj.
      * contradiction.
    + subst q'. simpl. rewrite length_insert. exact Hlen.
    + exact Hntp.
    + intros j Hj.
      assert (Hpos : 0 <= (n + Z.of_nat i) mod 256 < 256)
        by (apply Z.mod_pos_bound; lia).
      destruct (decide (j = i)) as [-> | Hne].
      * subst q'. rewrite Hidx.
        rewrite slot_insert_eq by assumption.
        destruct (decide (i ∈ i :: done)) as [_ | Hno];
          [reflexivity | exfalso; apply Hno; left].
      * subst q'. rewrite Hidx.
        destruct q as [l nq]. simpl cbuf. simpl next_to_process.
        assert (Hposj : 0 <= (n + Z.of_nat j) mod 256 < 256)
          by (apply Z.mod_pos_bound; lia).
        assert (Hdiff : (n + Z.of_nat i) mod 256 <> (n + Z.of_nat j) mod 256).
        { intros Heq. apply Hne. symmetry.
          apply (slot_index_inj n i j); [lia | lia | exact Heq]. }
        rewrite (slot_insert_ne l nq nq) by (lia || exact Hdiff).
        rewrite Hslots by exact Hj.
        destruct (decide (j ∈ done)) as [Hd | Hd];
          destruct (decide (j ∈ i :: done)) as [Hd' | Hd'];
          try reflexivity.
        -- exfalso. apply Hd'. right. exact Hd.
        -- exfalso. apply elem_of_cons in Hd' as [Heq | Hd'];
             [congruence | contradiction].
    + exists q1. rewrite Hall. simpl.
      split; [reflexivity |].
      split; [exact Hlen1 |]. split; [exact Hntp1 |].
      intros j Hj. rewrite Hs1 by exact Hj.
      destruct (decide (j ∈ todo ++ i :: done)) as [Hd | Hd];
        destruct (decide (j ∈ i :: todo ++ done)) as [Hd' | Hd'];
        try reflexivity; exfalso;
        unfold not in *;
        rewrite ?elem_of_cons, ?elem_of_app, ?elem_of_cons in Hd;
        rewrite ?elem_of_cons, ?elem_of_app, ?elem_of_cons in Hd';
        clear -Hd Hd'; tauto.
Qed.

Lemma all_slots_empty (l : list reassembly_elt) (nq : Z) :
  length l = 256%nat ->
  (forall i, (i < 256)%nat ->
     slot {| cbuf := l; next_to_process := nq |} ((n + Z.of_nat i) mod 256)
     = empty_elt) ->
  l = repeat empty_elt 256.
Proof.
  intros Hlen Hs. apply list_eq. intros j.
  destruct (decide (j < 256)%nat) as [Hj | Hj].
  - rewrite lookup_repeat by exact Hj.
    pose proof (Z.mod_pos_bound (Z.of_nat j - n) 256 ltac:(lia)) as Hb.
    specialize (Hs (Z.to_nat ((Z.of_nat j - n) mod 256)) ltac:(lia)).
    rewrite Z2Nat.id in Hs by lia.
    rewrite Zplus_mod_idemp_r in Hs.
    replace (n + (Z.of_nat j - n)) with (Z.of_nat j) in Hs by lia.
    rewrite (Z.mod_small (Z.of_nat j) 256) in Hs by lia.
    unfold slot in Hs. simpl in Hs. rewrite Nat2Z.id in Hs.
    destruct (lookup_lt_is_Some_2 l j ltac:(lia)) as [x Hx].
    rewrite Hx in *. simpl in Hs. f_equal. exact Hs.
  - rewrite !lookup_ge_None_2; [reflexivity | rewrite repeat_length; lia | lia].
Qed.

Lemma remove_phase (j : nat) :
  forall (fuel m : nat) (q : reassembly_queue),
  (j < fuel)%nat ->
  (m + j = length blocks)%nat ->
  length (cbuf q) = 256%nat ->
  next_to_process q = wrap32 (n + Z.of_nat m) ->
  (forall i, (i < 256)%nat ->
     slot q ((n + Z.of_nat i) mod 256)
     = if decide (m <= i < length blocks)%nat then nth i blocks empty_elt
       else empty_elt) ->
  map snd (fst (remove_run fuel q)) = skipn m blocks /\
  map fst (fst (remove_run fuel q))
    = consecutive (n + Z.of_nat m) j /\
  snd (remove_run fuel q)
    = {| cbuf := repeat empty_elt 256;
         next_to_process := wrap32 (n + Z.of_nat (length blocks)) |}.
Proof using Hn Hk Hfull.
  induction j as [| j IH]; intros fuel m q Hfuel Hm Hlen Hntp Hslots;
    (destruct fuel as [| fuel]; [lia |]).
  - assert (m = length blocks) by lia. subst m.
    assert (Hfront : Z.land (next_to_process q) 0xFF
                     = (n + Z.of_nat (length blocks)) mod 256).
    { rewrite Hntp, land_255. change (2 ^ 8) with 256.
      destruct (length blocks =? 256)%nat eqn:E.
      - apply Nat.eqb_eq in E. rewrite E. unfold wrap32.
        apply Z.mod_mod_divide. exists (2 ^ 24). reflexivity.
      - apply Nat.eqb_neq in E.
        apply (window_offset n (length blocks) Hn ltac:(lia)). }
    assert (Hempty : forall i, (i < 256)%nat ->
              slot q ((n + Z.of_nat i) mod 256) = empty_elt).
    { intros i Hi. rewrite Hslots by exact Hi.
      destruct (decide _) as [Hd | ]; [lia | reflexivity]. }
    assert (Hfree : data (slot q (Z.land (next_to_process q) 0xFF)) = None).
    { rewrite Hfront.
      pose proof (Z.mod_pos_bound (Z.of_nat (length blocks)) 256 ltac:(lia)).
      specialize (Hempty (Z.to_nat (Z.of_nat (length blocks) mod 256))).
      rewrite Z2Nat.id in Hempty by lia.
      rewrite Zplus_mod_idemp_r in Hempty.
      rewrite Hempty by lia. reflexivity. }
    simpl. rewrite remove_next_empty by exact Hfree. simpl.
    rewrite skipn_all. split; [reflexivity |]. split; [reflexivity |].
    destruct q as [l nq]. simpl in *. subst nq. f_equal.
    apply (all_slots_empty l (wrap32 (n + Z.of_nat (length blocks))) Hlen).
    exact Hempty.
  - assert (Hmk : (m < length blocks)%nat) by lia.
    destruct (window_offset n m Hn ltac:(lia)) as [_ Hidx].
    assert (Hfront : Z.land (next_to_process q) 0xFF
                     = (n + Z.of_nat m) mod 256).
    { rewrite Hntp, land_255. exact Hidx. }
    assert (Hslot : slot q (Z.land (next_to_process q) 0xFF)
                    = nth m blocks empty_elt).
    { rewrite Hfront, Hslots by lia.
      destruct (decide _) as [| Hd]; [reflexivity | lia]. }
    assert (Hocc : is_Some (data (slot q (Z.land (next_to_process q) 0xFF)))).
    { rewrite Hslot. rewrite Forall_forall in Hfull. apply Hfull.
      apply list_elem_of_In, nth_In. exact Hmk. }
    change (remove_run (S fuel) q) with
      (match remove_next q with
       | (e, q') =>
           match data e with
           | Some _ =>
               let '(l, q'') := remove_run fuel q' in
               ((next_to_process q, e) :: l, q'')
           | None => ([], q')
           end
       end).
    rewrite remove_next_occupied by exact Hocc.
    destruct Hocc as [x Hx]. rewrite Hx.
    set (q' := {| cbuf := <[Z.to_nat (Z.land (next_to_process q) 0xFF)
                            := empty_elt]> (cbuf q);
                  next_to_process := wrap32 (next_to_process q + 1) |}).
    destruct (IH fuel (S m) q') as (I1 & I2 & I3).
    + lia.
    + lia.
    + subst q'. simpl. rewrite length_insert. exact Hlen.
    + subst q'. simpl. rewrite Hntp. unfold wrap32.
      rewrite Zplus_mod_idemp_l. f_equal. lia.
    + intros i Hi. subst q'. rewrite Hfront.
      assert (Hpos : 0 <= (n + Z.of_nat m) mod 256 < 256)
        by (apply Z.mod_pos_bound; lia).
      destruct (decide (i = m)) as [-> | Hne].
      * destruct q as [l nq]. simpl cbuf. simpl next_to_process.
        rewrite (slot_insert_eq
                   {| cbuf := l; next_to_process := wrap32 (nq + 1) |})
          by assumption.
        destruct (decide _) as [Hd |]; [lia | reflexivity].
      * destruct q as [l nq]. simpl cbuf. simpl next_to_process.
        assert (Hposi : 0 <= (n + Z.of_nat i) mod 256 < 256)
          by (apply Z.mod_pos_bound; lia).
        assert (Hdiff : (n + Z.of_nat m) mod 256 <> (n + Z.of_nat i) mod 256).
        { intros Heq. apply Hne. symmetry.
          apply (slot_index_inj n m i); [lia | lia | exact Heq]. }
        rewrite (slot_insert_ne l nq (wrap32 (nq + 1))) by (lia || exact Hdiff).
        rewrite Hslots by exact Hi.
        destruct (decide (m <= i < length blocks)%nat);
          destruct (decide (S m <= i < length blocks)%nat);
          try reflexivity; lia.
    + destruct (remove_run fuel q') as [l q''] eqn:Hrun.
      simpl in I1, I2, I3. simpl.
      rewrite I1, I2, I3, Hslot, Hntp.
      split; [| split; [| reflexivity]].
      * symmetry. apply drop_S.
        destruct (nth_lookup_or_length blocks m empty_elt) as [H | H];
          [exact H | lia].
      * do 2 f_equal. lia.
Qed.

End Reorder.

(** X9: reassembly undoes any reordering within the window.
    Take up to 256 blocks numbered [n], [n+1], ... (modulo 2^32) and hand
    them to [insert] on an empty queue whose next expected number is [n],
    in an arbitrary order of arrival (a permutation [order] of their
    indices).  Every [insert] succeeds, and draining the queue with
    [remove_next] then yields exactly the blocks in sequence order with
    their payloads and opcodes, leaving the queue empty and expecting the
    number after the last block. *)
Theorem reassembly_restores_sequence_order (n : Z)
    (blocks : list reassembly_elt) (order : list nat) :
  is_u32 n ->
  (length blocks <= 256)%nat ->
  Forall (fun e => is_Some (data e)) blocks ->
  Permutation order (seq 0 (length blocks)) ->
  let after := insert_all (map (arrival n blocks) order)
                 {| cbuf := repeat empty_elt 256; next_to_process := n |} in
  let drained := remove_run (S (length blocks)) (snd after) in
  fst after = repeat true (length blocks) /\
  map snd (fst drained) = blocks /\
  map fst (fst drained) = consecutive n (length blocks) /\
  snd drained = {| cbuf := repeat empty_elt 256;
                   next_to_process := wrap32 (n + Z.of_nat (length blocks)) |}.
Proof.
  intros Hn Hk Hfull Hperm after drained.
  assert (Hnd : List.NoDup order).
  { apply (Permutation_NoDup (Permutation_sym Hperm)), List.seq_NoDup. }
  assert (Hmem : forall i, i ∈ order <-> (i < length blocks)%nat).
  { intros i. rewrite list_elem_of_In. split; intros H.
    - apply (Permutation_in _ Hperm), in_seq in H. lia.
    - apply (Permutation_in _ (Permutation_sym Hperm)), in_seq. lia. }
  destruct (insert_phase n blocks Hn Hk Hfull order []
              {| cbuf := repeat empty_elt 256; next_to_process := n |} Hnd)
    as (q1 & Hall & Hlen1 & Hntp1 & Hs1).
  - intros i Hi. split; [apply Hmem; exact Hi | apply not_elem_of_nil].
  - apply repeat_length.
  - reflexivity.
  - intros i Hi.
    rewrite slot_empty_queue by (apply Z.mod_pos_bound; lia).
    destruct (decide (i ∈ [])); [exfalso; eapply not_elem_of_nil; eauto |].
    reflexivity.
  - subst drained after. cbv beta. rewrite Hall. simpl fst. simpl snd.
    rewrite (Permutation_length Hperm), length_seq.
    split; [reflexivity |].
    destruct (remove_phase n blocks Hn Hk Hfull (length blocks)
                (S (length blocks)) 0 q1)
      as (R1 & R2 & R3).
    + lia.
    + lia.
    + exact Hlen1.
    + rewrite Hntp1, Z.add_0_r. symmetry. apply Z.mod_small. exact Hn.
    + intros i Hi. rewrite Hs1 by exact Hi.
      destruct (decide (i ∈ order ++ [])) as [Hd | Hd];
        destruct (decide (0 <= i < length blocks)%nat) as [Hd' | Hd'];
        try reflexivity; exfalso; rewrite app_nil_r, Hmem in Hd; lia.
    + rewrite skipn_O in R1. rewrite Z.add_0_r in R2.
      split; [exact R1 |]. split; [exact R2 | exact R3].
Qed.

Lemma reassembly_restores_sequence_order_witness :
  let blocks := [ {| data := Some [104]; op := op_DAT |};
                  {| data := Some [105]; op := op_DAT |};
                  {| data := Some []; op := op_FIN |} ] in
  let after := insert_all
                 [ (1, op_FIN, []); (4294967295, op_DAT, [104]);
                   (0, op_DAT, [105]) ]
                 {| cbuf := repeat empty_elt 256;
                    next_to_process := 4294967295 |} in
  let drained := remove_run 4 (snd after) in
  fst after = [true; true; true] /\
  map snd (fst drained) = blocks /\
  map fst (fst drained) = [4294967295; 0; 1] /\
  snd drained = {| cbuf := repeat empty_elt 256; next_to_process := 2 |}.
Proof.
  apply (reassembly_restores_sequence_order 4294967295
           [ {| data := Some [104]; op := op_DAT |};
             {| data := Some [105]; op := op_DAT |};
             {| data := Some []; op := op_FIN |} ] [2%nat; 0%nat; 1%nat]).
  - unfold is_u32. lia.
  - simpl. lia.
  - repeat constructor; eexists; reflexivity.
  - simpl. eapply perm_trans; [apply perm_swap | apply perm_skip, perm_swap].
Defined.

(** ** Lifting a property of one block to the sending entry points *)

Section Lift.
Context {St : Type}.
Variable M : steg_module St.
Variable K : ciphers.
Variable R : @chop_circuit_t St -> @chop_circuit_t St -> Prop.
Hypothesis R_refl : forall c, R c c.
Hypothesis R_trans : forall a b c, R a b -> R b c -> R a c.
Hypothesis R_call : forall c x, R c (do_call c x).
Hypothesis R_put : forall c cn, R c (put_conn c cn).
Hypothesis R_dead : forall c n, R c (with_dead_cycles c n).
Hypothesis R_block :
  forall conn blocksize c,
    holds_on_return R c (send_targeted2 M K conn blocksize c).

Lemma lift_trans (a b : @chop_circuit_t St) (o : outcome) :
  R a b -> holds_on_return R b o -> holds_on_return R a o.
Proof using R_trans.
  intros Hab. destruct o; simpl; try tauto. apply R_trans. exact Hab.
Qed.

Lemma lift_send_targeted1 (conn : chop_conn_t) (c : @chop_circuit_t St) :
  holds_on_return R c (send_targeted1 M K conn c).
Proof using R_refl R_block.
  unfold send_targeted1. destruct (steg conn); [| exact I].
  destruct (_ <? MIN_BLOCK_SIZE); [apply R_refl |]. apply R_block.
Qed.

Lemma lift_conn_must_send (id : Z) (c : @chop_circuit_t St) :
  holds_on_return R c (conn_must_send M K id c).
Proof using All.
  unfold conn_must_send.
  destruct (find_conn id (downstreams c)) as [cn |]; [| exact I].
  simpl steg. destruct (steg cn).
  - match goal with |- context [send_targeted1 M K ?x ?y] =>
      pose proof (lift_send_targeted1 x y) as H;
      destruct (send_targeted1 M K x y) as [rc c' | |]
    end; [| exact I | exact I].
    simpl in H.
    assert (H' : R c c') by (eapply R_trans; [apply R_put | exact H]).
    destruct (rc =? 0); simpl; [exact H' |].
    eapply R_trans; [exact H' | apply R_call].
  - simpl. eapply R_trans; [apply R_put | apply R_call].
Qed.

Lemma lift_eof_loop (ids : list Z) (c : @chop_circuit_t St) :
  holds_on_return R c (eof_loop M K ids c).
Proof using All.
  revert c. induction ids as [| id ids IH]; intros c; simpl.
  - apply R_refl.
  - destruct (find_conn id (downstreams c)) as [cn |]; [| exact I].
    destruct (must_send_pending cn).
    + pose proof (lift_conn_must_send id c) as H.
      destruct (conn_must_send M K id c) as [rc c' | |]; [| exact I | exact I].
      simpl in H. eapply lift_trans; [exact H |].
      eapply lift_trans; [apply R_call | apply IH].
    + eapply lift_trans; [apply R_call | apply IH].
Qed.

Lemma lift_check_for_eof (c : @chop_circuit_t St) :
  holds_on_return R c (check_for_eof M K c).
Proof using All.
  unfold check_for_eof. destruct (_ && _).
  - eapply lift_trans; [apply R_call | apply lift_eof_loop].
  - destruct (negb _); [apply R_call | apply R_refl].
Qed.

Lemma lift_send_loop (fuel : nat) (c : @chop_circuit_t St) :
  holds_on_return R c (send_loop M K fuel c).
Proof using R_refl R_trans R_block.
  revert c. induction fuel as [| fuel IH]; intros c; simpl; [exact I |].
  destruct (pick_connection M _ c) as [[target |] blocksize].
  - pose proof (R_block target blocksize c) as H.
    destruct (send_targeted2 M K target blocksize c) as [rc c' | |];
      [| exact I | exact I].
    simpl in H. destruct (rc =? 0); [| exact H].
    destruct (_ >? 0); [| exact H].
    eapply lift_trans; [exact H | apply IH].
  - apply R_refl.
Qed.

Lemma lift_send (c : @chop_circuit_t St) :
  holds_on_return R c (send M K c).
Proof using All.
  unfold send. simpl downstreams.
  destruct (downstreams c) as [| c0 l].
  - simpl. eapply R_trans; apply R_call.
  - match goal with |- context [send_loop M K ?f ?x] =>
      pose proof (lift_send_loop f x) as H;
      destruct (send_loop M K f x) as [rc c' | |]
    end; [| exact I | exact I].
    simpl in H.
    assert (H' : R c c') by (eapply R_trans; [apply R_call | exact H]).
    destruct (rc =? 0); [| exact H'].
    eapply lift_trans; [exact H' |].
    eapply lift_trans; [apply R_dead | apply lift_check_for_eof].
Qed.

End Lift.

(** ** Every byte taken from upstream goes out in a block *)

Lemma block_header_enc_lens (K : ciphers) (s d p : Z) (f : opcode_t) :
  legal_opcode f -> 0 <= d < 2 ^ 16 -> 0 <= p < 2 ^ 16 ->
  dlen (block_header_enc K s d p f) = d /\
  plen (block_header_enc K s d p f) = p.
Proof.
  intros Hf Hd Hp.
  assert (Hf0 : 0 <= f) by (destruct Hf; lia).
  unfold block_header_enc.
  rewrite (proj2 (legal_opcode_test f Hf0) Hf).
  unfold dlen, plen, at_. simpl clear. simpl nth.
  rewrite !be16_roundtrip by assumption. split; reflexivity.
Qed.

Section Moves.
Context {St : Type}.
Variable M : steg_module St.
Variable K : ciphers.

Lemma moves_refl (c : @chop_circuit_t St) : moves K c c.
Proof.
  exists [], []. simpl. rewrite app_nil_r. repeat split. constructor.
Qed.

Lemma moves_same (c c' : @chop_circuit_t St) :
  up_input c' = up_input c -> wire c' = wire c -> moves K c c'.
Proof.
  intros Hi Hw. exists [], []. simpl. rewrite app_nil_r, Hi, Hw.
  repeat split. constructor.
Qed.

Lemma moves_trans (a b c : @chop_circuit_t St) :
  moves K a b -> moves K b c -> moves K a c.
Proof.
  intros (ch1 & bl1 & Hi1 & Hw1 & Hc1) (ch2 & bl2 & Hi2 & Hw2 & Hc2).
  exists (ch1 ++ ch2), (bl1 ++ bl2).
  rewrite concat_app, <- app_assoc, <- Hi2, <- Hi1, Hw2, Hw1, app_assoc.
  repeat split. apply Forall2_app; assumption.
Qed.

Lemma send_targeted2_moves (conn : chop_conn_t) (blocksize : Z)
    (c : @chop_circuit_t St) :
  holds_on_return (moves K) c (send_targeted2 M K conn blocksize c).
Proof.
  destruct (send_targeted2 M K conn blocksize c) as [rc c' | |] eqn:E;
    simpl; [| exact I | exact I].
  unfold send_targeted2 in E. destruct (negb _); [discriminate |].
  set (avail := Z.of_nat (length (up_input c))) in E.
  assert (Hcase : exists d f,
            (f = op_DAT \/ f = op_FIN) /\ 0 <= d /\
            send_targeted5 M K conn d
              (wrap64 (wrap64 (blocksize - MIN_BLOCK_SIZE) - d)) f
              payload_xmit_pending c = Ret rc c').
  { destruct (avail >? SECTION_LEN).
    - exists SECTION_LEN, op_DAT. split; [left; reflexivity |].
      split; [unfold SECTION_LEN; lia | exact E].
    - destruct (upstream_eof c && negb (sent_fin c)).
      + exists avail, op_FIN. split; [right; reflexivity |].
        split; [subst avail; lia | exact E].
      + exists avail, op_DAT. split; [left; reflexivity |].
        split; [subst avail; lia | exact E]. }
  clear E. destruct Hcase as (d & f & Hf & Hd & E).
  set (p := wrap64 (wrap64 (blocksize - MIN_BLOCK_SIZE) - d)) in E.
  assert (Hp : 0 <= p) by (subst p; unfold wrap64; apply Z.mod_pos_bound; lia).
  apply send_targeted5_inv in E
    as [[_ ->] | (_ & Hdle & Hple & _ & Hsrc & conn' & bytes & cease & _ & _ & ->)];
    [apply moves_refl |].
  change SECTION_LEN with 65535 in Hdle, Hple.
  simpl in Hsrc.
  assert (Hlegal : legal_opcode f).
  { unfold legal_opcode.
    destruct Hf as [-> | ->]; vm_compute; intuition congruence. }
  unfold wrap16. rewrite (Z.mod_small d), (Z.mod_small p) by lia.
  destruct (block_header_enc_lens K (send_seq c) d p f Hlegal
              ltac:(lia) ltac:(lia)) as [Hdl Hpl].
  exists [firstn (Z.to_nat d) (up_input c)],
         [{| wb_conn := serial conn;
             wb_hdr := block_header_enc K (send_seq c) d p f;
             wb_block :=
               seal_block K (block_header_enc K (send_seq c) d p f)
                 (firstn (Z.to_nat d) (up_input c)
                  ++ repeat 0 (Z.to_nat p));
             wb_sent := bytes |}].
  simpl. rewrite app_nil_r, firstn_skipn.
  split; [reflexivity |]. split; [reflexivity |].
  constructor; [| constructor].
  unfold carries. simpl. rewrite Hdl, Hpl, length_firstn.
  split; [lia | reflexivity].
Qed.

Lemma send_moves (c : @chop_circuit_t St) :
  holds_on_return (moves K) c (send M K c).
Proof.
  apply lift_send.
  - apply moves_refl.
  - apply moves_trans.
  - intros; apply moves_same; reflexivity.
  - intros; apply moves_same; reflexivity.
  - intros; apply moves_same; reflexivity.
  - apply send_targeted2_moves.
Qed.

(** X10: the sending entry points lose no upstream byte and
    invent none.  Whenever [send], [send_eof] or the must-send path of
    a connection returns, what has gone from the upstream input buffer
    is a prefix of it, and that prefix, cut into consecutive chunks, is
    exactly the data of the blocks the call has put on the wire, in
    order: each new block announces the length of its chunk in its
    header and is the sealed form of that chunk followed by its
    padding; the rest of the buffer is untouched. *)
Theorem sent_blocks_carry_the_taken_input (c : @chop_circuit_t St) :
  holds_on_return (moves K) c (send M K c) /\
  holds_on_return (moves K) c (send_eof M K c) /\
  (forall id, holds_on_return (moves K) c (conn_must_send M K id c)).
Proof.
  split; [apply send_moves |]. split.
  - unfold send_eof.
    eapply (lift_trans (moves K) moves_trans);
      [| apply send_moves].
    apply moves_same; reflexivity.
  - intros id. apply lift_conn_must_send.
    + apply moves_refl.
    + apply moves_trans.
    + intros; apply moves_same; reflexivity.
    + intros; apply moves_same; reflexivity.
    + intros; apply moves_same; reflexivity.
    + apply send_targeted2_moves.
Qed.

End Moves.

(** ** The loops end *)

Lemma occupied_le_length (q : reassembly_queue) :
  (occupied q <= length (cbuf q))%nat.
Proof. unfold occupied. apply List.filter_length_le. Qed.

Lemma filter_insert_empty (l : list reassembly_elt) (i : nat)
    (e : reassembly_elt) :
  l !! i = Some e -> is_full e = true ->
  (length (List.filter is_full (<[i:=empty_elt]> l))
   < length (List.filter is_full l))%nat.
Proof.
  intros Hl He.
  assert (Hi : (i < length l)%nat)
    by (apply lookup_lt_is_Some_1; eexists; exact Hl).
  assert (H1 : List.filter is_full (<[i:=empty_elt]> l)
               = List.filter is_full (take i l)
                 ++ List.filter is_full (drop (S i) l)).
  { rewrite insert_take_drop by exact Hi. rewrite List.filter_app.
    reflexivity. }
  assert (H2 : List.filter is_full l
               = List.filter is_full (take i l)
                 ++ e :: List.filter is_full (drop (S i) l)).
  { rewrite <- (take_drop_middle l i e Hl) at 1.
    rewrite List.filter_app. simpl. rewrite He. reflexivity. }
  rewrite H1, H2, !length_app. simpl. lia.
Qed.

Lemma remove_next_occupied_less (q : reassembly_queue) :
  is_Some (data (fst (remove_next q))) ->
  (occupied (snd (remove_next q)) < occupied q)%nat /\
  length (cbuf (snd (remove_next q))) = length (cbuf q).
Proof.
  intros Hsome. split; [| apply remove_next_length].
  assert (Hocc : is_Some (data (slot q (Z.land (next_to_process q) 0xFF)))).
  { destruct (data (slot q (Z.land (next_to_process q) 0xFF))) eqn:E;
      [eexists; reflexivity |].
    rewrite (remove_next_empty q E) in Hsome. simpl in Hsome.
    destruct Hsome as [x Hx]. discriminate. }
  rewrite (remove_next_occupied q Hocc). simpl snd. unfold occupied. simpl cbuf.
  set (i := Z.to_nat (Z.land (next_to_process q) 0xFF)).
  unfold slot in Hocc. fold i in Hocc.
  destruct (cbuf q !! i) as [e |] eqn:Hl; simpl in Hocc;
    [| destruct Hocc as [x Hx]; discriminate].
  apply (filter_insert_empty (cbuf q) i e Hl).
  unfold is_full. destruct Hocc as [x ->]. reflexivity.
Qed.

Section Terminate.
Context {St : Type}.
Variable M : steg_module St.
Variable K : ciphers.

Lemma send_targeted5_returns (conn : chop_conn_t) (d p : Z) (f : opcode_t)
    (payload : payload_t) (c : @chop_circuit_t St) :
  send_targeted5 M K conn d p f payload c <> OutOfFuel.
Proof.
  unfold send_targeted5.
  repeat match goal with
         | |- context [if ?b then _ else _] => destruct b
         end; try discriminate.
  destruct (conn_send _ _ _ _); try discriminate.
  destruct (payload_drain _ _ _); discriminate.
Qed.

Lemma send_targeted2_returns (conn : chop_conn_t) (blocksize : Z)
    (c : @chop_circuit_t St) :
  send_targeted2 M K conn blocksize c <> OutOfFuel.
Proof.
  unfold send_targeted2. destruct (negb _); [discriminate |].
  destruct (_ >? _); [| destruct (_ && _)]; apply send_targeted5_returns.
Qed.

Lemma send_targeted1_returns (conn : chop_conn_t) (c : @chop_circuit_t St) :
  send_targeted1 M K conn c <> OutOfFuel.
Proof.
  unfold send_targeted1. destruct (steg conn); [| discriminate].
  destruct (_ <? MIN_BLOCK_SIZE); [discriminate |].
  apply send_targeted2_returns.
Qed.

Lemma send_special_returns (f : opcode_t) (payload : payload_t)
    (c : @chop_circuit_t St) :
  send_special M K f payload c <> OutOfFuel.
Proof.
  unfold send_special. destruct (negb _); [discriminate |].
  destruct (pick_connection M _ c) as [[conn |] bs]; [| discriminate].
  destruct (_ <? _); [discriminate | apply send_targeted5_returns].
Qed.

Lemma conn_must_send_returns (id : Z) (c : @chop_circuit_t St) :
  conn_must_send M K id c <> OutOfFuel.
Proof.
  unfold conn_must_send.
  destruct (find_conn id (downstreams c)) as [cn |]; [| discriminate].
  simpl steg. destruct (steg cn); [| discriminate].
  match goal with |- context [send_targeted1 M K ?x ?y] =>
    pose proof (send_targeted1_returns x y) as H;
    destruct (send_targeted1 M K x y) as [rc c' | |]
  end; [| discriminate | congruence].
  destruct (rc =? 0); discriminate.
Qed.

Lemma eof_loop_returns (ids : list Z) (c : @chop_circuit_t St) :
  eof_loop M K ids c <> OutOfFuel.
Proof.
  revert c. induction ids as [| id ids IH]; intros c; simpl; [discriminate |].
  destruct (find_conn id (downstreams c)) as [cn |]; [| discriminate].
  destruct (must_send_pending cn); [| apply IH].
  pose proof (conn_must_send_returns id c) as H.
  destruct (conn_must_send M K id c) as [rc c' | |];
    [apply IH | discriminate | congruence].
Qed.

Lemma check_for_eof_returns (c : @chop_circuit_t St) :
  check_for_eof M K c <> OutOfFuel.
Proof.
  unfold check_for_eof. destruct (_ && _); [apply eof_loop_returns |].
  destruct (negb _); discriminate.
Qed.

(** A block that goes out takes at least one byte of a non-empty
    input. *)
Lemma send_targeted2_progress (conn : chop_conn_t) (blocksize : Z)
    (c c' : @chop_circuit_t St) :
  send_targeted2 M K conn blocksize c = Ret 0 c' ->
  (length (up_input c') < length (up_input c))%nat \/ up_input c' = [].
Proof.
  unfold send_targeted2. destruct (negb _); [discriminate |].
  set (avail := Z.of_nat (length (up_input c))).
  assert (Hd : forall d p f,
            d = avail \/ (avail > SECTION_LEN /\ d = SECTION_LEN) ->
            send_targeted5 M K conn d p f payload_xmit_pending c = Ret 0 c' ->
            (length (up_input c') < length (up_input c))%nat
            \/ up_input c' = []).
  { intros d p f Hd E.
    apply send_targeted5_inv in E
      as [[E _] | (_ & _ & _ & _ & Hsrc & conn' & bytes & cease & _ & _ & ->)];
      [discriminate |].
    simpl in Hsrc. simpl up_input. unfold SECTION_LEN in Hd.
    destruct (up_input c) as [| x l] eqn:Hin.
    - right. apply skipn_nil.
    - left. rewrite length_skipn. subst avail. simpl length in *. lia. }
  destruct (Z.gtb_spec avail SECTION_LEN).
  - apply Hd. right. split; [lia | reflexivity].
  - destruct (_ && _); apply Hd; left; reflexivity.
Qed.

Lemma send_loop_returns (fuel : nat) (c : @chop_circuit_t St) :
  (length (up_input c) < fuel)%nat -> send_loop M K fuel c <> OutOfFuel.
Proof.
  revert c. induction fuel as [| fuel IH]; intros c Hf; [lia |].
  simpl.
  destruct (pick_connection M _ c) as [[target |] blocksize]; [| discriminate].
  pose proof (send_targeted2_returns target blocksize c) as Hr.
  destruct (send_targeted2 M K target blocksize c) as [rc c' | |] eqn:E;
    [| discriminate | congruence].
  destruct (Z.eqb_spec rc 0) as [-> |]; [| discriminate].
  destruct (Z.gtb_spec (Z.of_nat (length (up_input c'))) 0) as [Hpos |];
    [| discriminate].
  apply IH.
  destruct (send_targeted2_progress target blocksize c c' E) as [Hlt | Hnil].
  - lia.
  - rewrite Hnil in Hpos. simpl in Hpos. lia.
Qed.

Lemma send_returns (c : @chop_circuit_t St) : send M K c <> OutOfFuel.
Proof.
  unfold send. simpl downstreams.
  destruct (downstreams c) as [| c0 l]; [discriminate |].
  match goal with |- context [send_loop M K ?f ?x] =>
    pose proof (send_loop_returns f x ltac:(lia)) as H;
    destruct (send_loop M K f x) as [rc c' | |]
  end; [| discriminate | congruence].
  destruct (rc =? 0); [apply check_for_eof_returns | discriminate].
Qed.

Lemma dispatch_queue (blk : reassembly_elt) (c : @chop_circuit_t St)
    (pf pe : bool) :
  recv_queue (fst (fst (dispatch blk c pf pe))) = recv_queue c.
Proof.
  unfold dispatch.
  repeat match goal with
         | |- context [if ?b then _ else _] => destruct b
         end; reflexivity.
Qed.

Lemma send_special_queue (f : opcode_t) (c c' : @chop_circuit_t St)
    (rc : Z) :
  send_special M K f payload_null c = Ret rc c' ->
  recv_queue c' = recv_queue c.
Proof.
  intros E. unfold send_special in E. destruct (negb _); [discriminate |].
  destruct (pick_connection M 0 c) as [[conn |] bs];
    [| injection E as _ <-; reflexivity].
  destruct (_ <? 0); [injection E as _ <-; reflexivity |].
  pose proof (send_targeted5_frame M K conn 0
                (wrap64 (wrap64 (bs - MIN_BLOCK_SIZE) - 0)) f payload_null c)
    as H.
  rewrite E in H. apply H.
Qed.

Lemma process_loop_returns (fuel : nat) :
  forall (c : @chop_circuit_t St) (v : pq_locals),
  (occupied (recv_queue c) < fuel)%nat ->
  process_loop M K fuel c v <> inr OutOfFuel.
Proof.
  induction fuel as [| fuel IH]; intros c v Hf; [lia |].
  simpl.
  pose proof (remove_next_occupied_less (recv_queue c)) as Hless.
  destruct (remove_next (recv_queue c)) as [blk q]. simpl in Hless.
  destruct (data blk) as [payload |] eqn:Hdata; [| discriminate].
  destruct (Hless ltac:(eexists; reflexivity)) as [Hocc _].
  pose proof (dispatch_queue blk (with_recv_queue c q) (pending_fin v)
                (pending_error v)) as Hdq.
  destruct (dispatch blk (with_recv_queue c q) (pending_fin v)
              (pending_error v)) as [[c1 pf] pe].
  simpl in Hdq.
  set (c2 := if pf && negb (received_fin c1)
             then with_received_fin (do_call c1 circuit_recv_eof) true
             else c1).
  assert (Hq2 : recv_queue c2 = q).
  { subst c2. destruct (pf && negb (received_fin c1)); simpl; exact Hdq. }
  assert (Hnext : forall rc c3, recv_queue c3 = q ->
            match Ret rc c3 with
            | Ret _ ckt =>
                process_loop M K fuel ckt
                  {| count := wrap32 (count v + 1); pending_fin := pf;
                     pending_error := pe;
                     sent_error := sent_error v || pe |}
            | r => inr r
            end <> inr OutOfFuel).
  { intros rc c3 H3. apply IH. rewrite H3. lia. }
  destruct (pe && negb (sent_error v)); [| exact (Hnext 0 c2 Hq2)].
  destruct (negb (op blk =? op_RST) && negb (op blk =? op_FIN));
    [| exact (Hnext 0 c2 Hq2)].
  pose proof (send_special_returns op_RST payload_null c2) as Hr.
  destruct (send_special M K op_RST payload_null c2) as [rc c3 | |] eqn:E;
    [| discriminate | congruence].
  apply (Hnext rc c3). rewrite (send_special_queue op_RST c2 c3 rc E).
  exact Hq2.
Qed.

Lemma process_queue_returns (c : @chop_circuit_t St) :
  (length (cbuf (recv_queue c)) <= 256)%nat ->
  process_queue M K c <> OutOfFuel.
Proof.
  intros Hlen. unfold process_queue.
  pose proof (process_loop_returns 257 c
                {| count := 0; pending_fin := false; pending_error := false;
                   sent_error := false |}) as H.
  pose proof (occupied_le_length (recv_queue c)).
  destruct (process_loop M K 257 c _) as [[c2 v2] | o].
  - destruct (sent_error v2); [discriminate |].
    destruct (_ || _); [apply send_returns | apply check_for_eof_returns].
  - intros ->. apply H; [lia | reflexivity].
Qed.

Lemma insert_length (s : Z) (o : opcode_t) (d : evbuffer)
    (q : reassembly_queue) :
  length (cbuf (snd (fst (insert s o d q)))) = length (cbuf q).
Proof.
  unfold insert. destruct (_ >? _); [reflexivity |].
  destruct (data _); [reflexivity |]. simpl. apply length_insert.
Qed.

Lemma recv_step_length (p p' : evbuffer) (c c' : @chop_circuit_t St) :
  recv_step K p c = step_continue p' c' ->
  length (cbuf (recv_queue c')) = length (cbuf (recv_queue c)).
Proof.
  unfold recv_step.
  repeat match goal with
         | |- context [if ?b then _ else _] => destruct b
         end; try discriminate.
  destruct (gcm_decrypt _ _ _) as [plain |]; [| discriminate].
  match goal with |- context [insert ?s ?o ?d ?q] =>
    pose proof (insert_length s o d q) as H;
    destruct (insert s o d q) as [[ok q'] fr]
  end.
  destruct ok; [| discriminate]. intros [= _ <-]. exact H.
Qed.

Lemma recv_loop_length (fuel : nat) :
  forall (p p' : evbuffer) (c c' : @chop_circuit_t St),
  (recv_loop K fuel p c = recv_break p' c'
   \/ recv_loop K fuel p c = recv_error p' c') ->
  length (cbuf (recv_queue c')) = length (cbuf (recv_queue c)).
Proof.
  induction fuel as [| fuel IH]; intros p p' c c' H;
    [destruct H; discriminate |].
  simpl in H. pose proof (recv_step_same K p c) as Hs.
  destruct (recv_step K p c) as [p1 c1 | p1 c1 | p1 c1] eqn:E.
  - rewrite (IH _ _ _ _ H). eapply recv_step_length. exact E.
  - destruct Hs as [-> _]. destruct H as [[= _ <-] | [=]]. reflexivity.
  - subst c1. destruct H as [[=] | [= _ <-]]. reflexivity.
Qed.

Lemma process_loop_length (fuel : nat) :
  forall (c c' : @chop_circuit_t St) (v v' : pq_locals),
  process_loop M K fuel c v = inl (c', v') ->
  length (cbuf (recv_queue c')) = length (cbuf (recv_queue c)).
Proof.
  induction fuel as [| fuel IH]; intros c c' v v' H; [discriminate |].
  simpl in H.
  pose proof (remove_next_length (recv_queue c)) as Hlen.
  destruct (remove_next (recv_queue c)) as [blk q]. simpl in Hlen.
  destruct (data blk) as [payload |];
    [| injection H as <- _; simpl; exact Hlen].
  pose proof (dispatch_queue blk (with_recv_queue c q) (pending_fin v)
                (pending_error v)) as Hdq.
  destruct (dispatch blk (with_recv_queue c q) (pending_fin v)
              (pending_error v)) as [[c1 pf] pe].
  simpl in Hdq.
  set (c2 := if pf && negb (received_fin c1)
             then with_received_fin (do_call c1 circuit_recv_eof) true
             else c1) in H.
  assert (Hq2 : recv_queue c2 = q).
  { subst c2. destruct (pf && negb (received_fin c1)); simpl; exact Hdq. }
  assert (Hnext : forall rc c3, recv_queue c3 = q ->
            match Ret rc c3 with
            | Ret _ ckt =>
                process_loop M K fuel ckt
                  {| count := wrap32 (count v + 1); pending_fin := pf;
                     pending_error := pe;
                     sent_error := sent_error v || pe |}
            | r => inr r
            end = inl (c', v') ->
            length (cbuf (recv_queue c')) = length (cbuf (recv_queue c))).
  { intros rc c3 H3 E. rewrite (IH _ _ _ _ E), H3. exact Hlen. }
  destruct (pe && negb (sent_error v)); [| exact (Hnext 0 c2 Hq2 H)].
  destruct (negb (op blk =? op_RST) && negb (op blk =? op_FIN));
    [| exact (Hnext 0 c2 Hq2 H)].
  destruct (send_special M K op_RST payload_null c2) as [rc c3 | |] eqn:E;
    [| discriminate | discriminate].
  apply (Hnext rc c3); [| exact H].
  rewrite (send_special_queue op_RST c2 c3 rc E). exact Hq2.
Qed.

Lemma process_loop_no_ret (fuel : nat) :
  forall (c : @chop_circuit_t St) (v : pq_locals) (rc : Z)
         (c' : chop_circuit_t),
  process_loop M K fuel c v <> inr (Ret rc c').
Proof.
  induction fuel as [| fuel IH]; intros c v rc c'; [discriminate |].
  simpl. destruct (remove_next (recv_queue c)) as [blk q].
  destruct (data blk); [| discriminate].
  destruct (dispatch _ _ _ _) as [[c1 pf] pe].
  match goal with
  | |- match ?r with _ => _ end <> _ =>
      destruct r as [rc1 c3 | |]; [apply IH | discriminate | discriminate]
  end.
Qed.

Lemma process_queue_eq_inr (c : @chop_circuit_t St) (o : outcome) :
  process_loop M K 257 c
    {| count := 0; pending_fin := false; pending_error := false;
       sent_error := false |} = inr o ->
  process_queue M K c = o.
Proof.
  intros H. unfold process_queue.
  destruct (process_loop M K 257 c _) as [[c0 v0] | o0]; [discriminate |].
  injection H as ->. reflexivity.
Qed.

Lemma process_queue_length (c c' : @chop_circuit_t St) (rc : Z) :
  process_queue M K c = Ret rc c' ->
  length (cbuf (recv_queue c')) = length (cbuf (recv_queue c)).
Proof.
  intros H.
  destruct (process_loop M K 257 c
              {| count := 0; pending_fin := false; pending_error := false;
                 sent_error := false |}) as [[c2 v2] | o] eqn:E.
  - rewrite (process_queue_eq M K c c2 v2 E) in H. cbv zeta in H.
    rewrite <- (process_loop_length _ _ _ _ _ E).
    set (c3 := if count v2 >? 0 then with_dead_cycles c2 0 else c2) in H.
    assert (H3 : recv_queue c3 = recv_queue c2)
      by (subst c3; destruct (count v2 >? 0); reflexivity).
    rewrite <- H3.
    destruct (sent_error v2); [injection H as _ <-; reflexivity |].
    destruct (_ || _).
    + pose proof (send_frame_holds M K c3) as F. rewrite H in F.
      destruct F as [-> _]. reflexivity.
    + pose proof (check_for_eof_frame M K c3) as F. rewrite H in F.
      destruct F as [-> _]. reflexivity.
  - rewrite (process_queue_eq_inr c o E) in H. subst o.
    exfalso. exact (process_loop_no_ret _ _ _ _ _ E).
Qed.

Lemma recv_returns (id : Z) (inbound : list Z) (c : @chop_circuit_t St) :
  (length (cbuf (recv_queue c)) <= 256)%nat ->
  recv M K id inbound c <> OutOfFuel.
Proof.
  intros Hlen. unfold recv.
  destruct (find_conn id (downstreams c)) as [cn |]; [| discriminate].
  destruct (steg cn) as [s |]; [| discriminate].
  destruct (receive M s inbound) as [[[s' hidden] soon] |]; [| discriminate].
  match goal with |- context [recv_loop K ?f ?p ?x] =>
    pose proof (recv_loop_total K f p x ltac:(lia)) as Ht;
    destruct (recv_loop K f p x) as [p' c' | p' c' |] eqn:E
  end; [| discriminate | congruence].
  apply process_queue_returns. simpl.
  rewrite (recv_loop_length _ _ p' c c' (or_introl E)). exact Hlen.
Qed.

Lemma recv_length (id : Z) (inbound : list Z) (c c' : @chop_circuit_t St)
    (rc : Z) :
  recv M K id inbound c = Ret rc c' ->
  length (cbuf (recv_queue c')) = length (cbuf (recv_queue c)).
Proof.
  unfold recv.
  destruct (find_conn id (downstreams c)) as [cn |]; [| discriminate].
  destruct (steg cn) as [s |]; [| discriminate].
  destruct (receive M s inbound) as [[[s' hidden] soon] |];
    [| intros [= _ <-]; reflexivity].
  match goal with |- context [recv_loop K ?f ?p ?x] =>
    destruct (recv_loop K f p x) as [p' c1 | p' c1 |] eqn:E
  end; [| | discriminate].
  - intros H. rewrite (process_queue_length _ _ _ H). simpl.
    eapply recv_loop_length. left. exact E.
  - intros [= _ <-]. simpl.
    eapply recv_loop_length. right. exact E.
Qed.

Lemma perform_length (a : action) (c c' : @chop_circuit_t St) (rc : Z) :
  perform M K a c = Ret rc c' ->
  length (cbuf (recv_queue c')) = length (cbuf (recv_queue c)).
Proof.
  destruct a as [| | id | id inbound | bytes | cn]; simpl; intros H.
  - pose proof (send_frame_holds M K c) as F. rewrite H in F.
    destruct F as [-> _]. reflexivity.
  - unfold send_eof in H.
    pose proof (send_frame_holds M K (with_upstream_eof c true)) as F.
    rewrite H in F. destruct F as [-> _]. reflexivity.
  - pose proof (conn_must_send_frame M K id c) as F. rewrite H in F.
    destruct F as [-> _]. reflexivity.
  - eapply recv_length. exact H.
  - injection H as _ <-. reflexivity.
  - injection H as _ <-. reflexivity.
Qed.

Lemma perform_returns (a : action) (c : @chop_circuit_t St) :
  (length (cbuf (recv_queue c)) <= 256)%nat ->
  perform M K a c <> OutOfFuel.
Proof.
  intros Hlen. destruct a as [| | id | id inbound | bytes | cn]; simpl.
  - apply send_returns.
  - apply send_returns.
  - apply conn_must_send_returns.
  - apply recv_returns. exact Hlen.
  - discriminate.
  - discriminate.
Qed.

(** X11: no entry point of a circuit runs forever.  On a
    circuit whose reassembly queue has its 256 slots, every sequence of
    calls of [send], [send_eof], the must-send path, [recv],
    upstream data arriving and connections being attached comes to an
    end: the loop of [send] takes at least one byte of a non-empty
    input with every block, the loop of [recv] shortens the pending
    buffer with every block, and the loop of [process_queue] empties a
    slot with every pass.  Each call returns or ends the process (at
    a failed assertion, or where it drains a null payload). *)
Theorem every_call_comes_to_an_end (l : list action)
    (c : @chop_circuit_t St) :
  length (cbuf (recv_queue c)) = 256%nat ->
  run M K l c <> OutOfFuel.
Proof.
  revert c. induction l as [| a l IH]; intros c Hlen; simpl; [discriminate |].
  pose proof (perform_returns a c ltac:(lia)) as Hr.
  pose proof (perform_length a c) as Hl.
  destruct (perform M K a c) as [rc c' | |];
    [| discriminate | congruence].
  apply IH. rewrite (Hl c' rc eq_refl). exact Hlen.
Qed.

End Terminate.

Lemma every_call_comes_to_an_end_witness :
  run fixed_room_steg toy_ciphers
      [act_send; act_recv 1 demo_block; act_upstream_data [1; 2; 3];
       act_send_eof; act_must_send 1]
      demo_circuit <> OutOfFuel.
Proof.
  apply (every_call_comes_to_an_end fixed_room_steg toy_ciphers).
  reflexivity.
Defined.

(** ** From one circuit's upstream input to the other's upstream output *)

Section Ships.
Context {St : Type}.
Variable M : steg_module St.
Variable K : ciphers.

Lemma sealed_from_congr (items : list item) :
  forall n m, wrap32 n = wrap32 m ->
  sealed_from K n items = sealed_from K m items.
Proof.
  induction items as [| it t IH]; intros n m H; simpl; [reflexivity |].
  rewrite H. f_equal. apply IH. unfold wrap32 in *.
  rewrite <- (Zplus_mod_idemp_l n), <- (Zplus_mod_idemp_l m), H.
  reflexivity.
Qed.

Lemma sealed_from_wrap (items : list item) (n : Z) :
  sealed_from K (wrap32 n) items = sealed_from K n items.
Proof.
  apply sealed_from_congr. unfold wrap32. apply Z.mod_mod. lia.
Qed.

Lemma sealed_from_app (a b : list item) (n : Z) :
  sealed_from K n (a ++ b)
  = sealed_from K n a ++ sealed_from K (n + Z.of_nat (length a)) b.
Proof.
  revert n. induction a as [| it a IH]; intros n.
  - simpl. rewrite Z.add_0_r. reflexivity.
  - simpl app. simpl sealed_from. rewrite IH. simpl length.
    do 3 f_equal. lia.
Qed.

Lemma ships_refl (c : @chop_circuit_t St) : ships K c c.
Proof.
  intros Hs. exists [], []. simpl. rewrite app_nil_r, Z.add_0_r.
  repeat split; try constructor.
  symmetry. apply Z.mod_small. exact Hs.
Qed.

Lemma ships_same (c c' : @chop_circuit_t St) :
  up_input c' = up_input c -> wire c' = wire c ->
  send_seq c' = send_seq c -> upstream_eof c' = upstream_eof c ->
  ships K c c'.
Proof.
  intros Hi Hw Hq He Hs. exists [], []. simpl.
  rewrite app_nil_r, Z.add_0_r, Hi, Hw, Hq, He.
  repeat split; try constructor.
  symmetry. apply Z.mod_small. exact Hs.
Qed.

Lemma ships_trans (a b c : @chop_circuit_t St) :
  ships K a b -> ships K b c -> ships K a c.
Proof.
  intros H1 H2 Hs.
  destruct (H1 Hs) as (it1 & bl1 & Hi1 & Hw1 & Hb1 & Hq1 & Hok1 & He1).
  assert (Hsb : is_u32 (send_seq b)).
  { rewrite Hq1. unfold is_u32, wrap32. apply Z.mod_pos_bound. lia. }
  destruct (H2 Hsb) as (it2 & bl2 & Hi2 & Hw2 & Hb2 & Hq2 & Hok2 & He2).
  exists (it1 ++ it2), (bl1 ++ bl2).
  rewrite map_app, concat_app, <- app_assoc, <- Hi2, <- Hi1.
  rewrite Hw2, Hw1, app_assoc, map_app, Hb1, Hb2, Hq1.
  rewrite sealed_from_wrap, sealed_from_app.
  repeat split.
  - rewrite Hq2, Hq1, length_app, Nat2Z.inj_add. unfold wrap32.
    rewrite Zplus_mod_idemp_l. f_equal. lia.
  - apply Forall_app. split; [exact Hok1 |].
    rewrite <- He1. exact Hok2.
  - congruence.
Qed.

Lemma send_targeted2_ships (conn : chop_conn_t) (blocksize : Z)
    (c : @chop_circuit_t St) :
  holds_on_return (ships K) c (send_targeted2 M K conn blocksize c).
Proof.
  destruct (send_targeted2 M K conn blocksize c) as [rc c' | |] eqn:E;
    simpl; [| exact I | exact I].
  unfold send_targeted2 in E. destruct (negb _); [discriminate |].
  set (avail := Z.of_nat (length (up_input c))) in E.
  assert (Hcase : exists d f,
            (f = op_DAT \/ (f = op_FIN /\ upstream_eof c = true)) /\ 0 <= d /\
            send_targeted5 M K conn d
              (wrap64 (wrap64 (blocksize - MIN_BLOCK_SIZE) - d)) f
              payload_xmit_pending c = Ret rc c').
  { destruct (avail >? SECTION_LEN).
    - exists SECTION_LEN, op_DAT. split; [left; reflexivity |].
      split; [unfold SECTION_LEN; lia | exact E].
    - destruct (upstream_eof c && negb (sent_fin c)) eqn:Eof.
      + exists avail, op_FIN. split.
        * right. split; [reflexivity |].
          apply andb_true_iff in Eof. apply Eof.
        * split; [subst avail; lia | exact E].
      + exists avail, op_DAT. split; [left; reflexivity |].
        split; [subst avail; lia | exact E]. }
  clear E. destruct Hcase as (d & f & Hf & Hd & E).
  set (p := wrap64 (wrap64 (blocksize - MIN_BLOCK_SIZE) - d)) in E.
  assert (Hp : 0 <= p) by (subst p; unfold wrap64; apply Z.mod_pos_bound; lia).
  apply send_targeted5_inv in E
    as [[_ ->] | (_ & Hdle & Hple & _ & Hsrc & conn' & bytes & cease & _ & _ & ->)];
    [apply ships_refl |].
  simpl in Hsrc. intros Hs.
  exists [(f, firstn (Z.to_nat d) (up_input c), p)],
         [{| wb_conn := serial conn;
             wb_hdr := block_header_enc K (send_seq c) (wrap16 d)
                         (wrap16 p) f;
             wb_block :=
               seal_block K (block_header_enc K (send_seq c) (wrap16 d)
                               (wrap16 p) f)
                 (firstn (Z.to_nat d) (up_input c)
                  ++ repeat 0 (Z.to_nat p));
             wb_sent := bytes |}].
  assert (Hlen : Z.of_nat (length (firstn (Z.to_nat d) (up_input c))) = d)
    by (rewrite length_firstn; lia).
  simpl. unfold item_chunk at 1. simpl.
  rewrite app_nil_r, firstn_skipn, Hlen.
  unfold wrap16, wrap32 at 1.
  change SECTION_LEN with 65535 in *.
  rewrite (Z.mod_small d), (Z.mod_small p), (Z.mod_small (send_seq c))
    by (try exact Hs; lia).
  repeat split; try reflexivity.
  constructor; [| constructor].
  unfold item_ok. rewrite Hlen. change SECTION_LEN with 65535.
  split; [exact Hf |]. split; [lia |]. split; lia.
Qed.

Lemma send_ships (c : @chop_circuit_t St) :
  holds_on_return (ships K) c (send M K c).
Proof.
  apply lift_send.
  - apply ships_refl.
  - apply ships_trans.
  - intros; apply ships_same; reflexivity.
  - intros; apply ships_same; reflexivity.
  - intros; apply ships_same; reflexivity.
  - apply send_targeted2_ships.
Qed.

End Ships.

Lemma insert_true_inv (s : Z) (o : opcode_t) (d : evbuffer)
    (q q' : reassembly_queue) (fr : list evbuffer) :
  insert s o d q = (true, q', fr) ->
  wrap32 (s - next_to_process q) <= 255 /\
  data (slot q (s mod 256)) = None.
Proof.
  unfold insert, window. rewrite insert_index. change (2 ^ 8) with 256.
  destruct (Z.gtb_spec (wrap32 (s - next_to_process q)) 255);
    [discriminate |].
  destruct (data (slot q (s mod 256))); [discriminate |].
  intros _. split; [lia | reflexivity].
Qed.

Lemma item_arrivals_shift (x : reassembly_elt) (t : list reassembly_elt)
    (n : Z) (i : nat) :
  arrival n (x :: t) (S i) = arrival (n + 1) t i.
Proof.
  unfold arrival. simpl nth. do 2 f_equal. f_equal. lia.
Qed.

Lemma item_arrivals_indexed (items : list item) (n : Z) :
  item_arrivals n items
  = map (arrival n (map item_elt items)) (seq 0 (length items)).
Proof.
  revert n. induction items as [| it t IH]; intros n; [reflexivity |].
  simpl length. simpl seq. simpl map. simpl item_arrivals.
  f_equal.
  - unfold arrival. simpl. rewrite Z.add_0_r. reflexivity.
  - rewrite IH, <- seq_shift, map_map. apply map_ext. intros i.
    symmetry. apply item_arrivals_shift.
Qed.

Section Receive.
Context {St : Type}.
Variable M : steg_module St.
Variable K : ciphers.
Hypothesis HL : cipher_lengths K.
Hypothesis HI : cipher_inverse K.

(** What the loop of [recv] needs of an item to take its block. *)
Lemma sealed_recv_step (s : Z) (it : item) (rest : list Z)
    (r : @chop_circuit_t St) :
  legal_opcode (fst (fst it)) -> is_u32 s ->
  Z.of_nat (length (item_chunk it)) <= 65535 -> 0 <= snd it <= 65535 ->
  Forall is_u8 (item_chunk it) ->
  is_u32 (next_to_process (recv_queue r)) ->
  wrap32 (s - next_to_process (recv_queue r)) <= 255 ->
  data (slot (recv_queue r) (s mod 256)) = None ->
  recv_step K (sealed K s it ++ rest) r
  = step_continue rest
      (with_recv_queue r
         (snd (fst (insert s (fst (fst it)) (item_chunk it)
                      (recv_queue r))))).
Proof using HL HI.
  destruct it as [[f chunk] p]. unfold item_chunk. simpl fst. simpl snd.
  intros Hf Hs Hd Hp Hbytes Hw Hwin Hfree.
  unfold sealed.
  set (d := Z.of_nat (length chunk)) in *.
  set (hdr := block_header_enc K s d p f).
  set (plain := chunk ++ repeat 0 (Z.to_nat p)).
  assert (Hin : in_window (window (recv_queue r)) s)
    by (apply in_window_delta; assumption).
  destruct (header_fields_of_enc K s d p f (window (recv_queue r))
              Hf Hs ltac:(subst d; lia) ltac:(lia) Hw)
    as (Hsq & Hdl & Hpl & Hop & Htot & Hval).
  fold hdr in Hsq, Hdl, Hpl, Hop, Htot, Hval.
  destruct (block_header_enc_clear K s d p f Hf) as [Hcl Hci].
  fold hdr in Hcl, Hci.
  assert (Hn : length (nonce hdr) = 16%nat).
  { unfold nonce. rewrite Hci. apply (ecb_encrypt_length K HL). reflexivity. }
  assert (Hplain : length plain = (length chunk + Z.to_nat p)%nat).
  { subst plain. rewrite length_app, repeat_length. reflexivity. }
  destruct (gcm_encrypt_length K HL plain (nonce hdr)) as [Hct Htag].
  set (ct := fst (gcm_encrypt K plain (nonce hdr))) in *.
  set (tag := snd (gcm_encrypt K plain (nonce hdr))) in *.
  assert (Hb8 : Forall is_u8 plain).
  { subst plain. apply Forall_app. split; [exact Hbytes |].
    apply Forall_forall. intros x Hx.
    apply list_elem_of_In, repeat_spec in Hx. subst x.
    unfold is_u8. lia. }
  assert (Hblock : seal_block K hdr plain ++ rest
                   = nonce hdr ++ ((ct ++ tag) ++ rest)).
  { unfold seal_block. fold ct tag. rewrite <- !app_assoc. reflexivity. }
  assert (Hdec : block_header_dec K (nonce hdr ++ ((ct ++ tag) ++ rest))
                 = hdr) by (apply block_header_dec_enc; assumption).
  unfold recv_step. rewrite Hblock, Hdec.
  rewrite !length_app, Hn, Hct, Htag, Hplain.
  change MIN_BLOCK_SIZE with 32. change HEADER_LEN with 16.
  destruct (Z.eqb_spec (Z.of_nat (16 + (length chunk + Z.to_nat p + 16
                                       + length rest))) 0); [lia |].
  destruct (Z.ltb_spec (Z.of_nat (16 + (length chunk + Z.to_nat p + 16
                                       + length rest))) 32); [lia |].
  rewrite (proj2 Hval Hin). simpl negb. cbv iota.
  rewrite Htot.
  destruct (Z.ltb_spec (Z.of_nat (16 + (length chunk + Z.to_nat p + 16
                                       + length rest))) (32 + d + p));
    [subst d; lia |].
  rewrite skipn_app, Hn, Nat.sub_diag, skipn_O, skipn_all2 by lia.
  simpl app.
  replace (Z.to_nat (32 + d + p - 16)) with (length (ct ++ tag))
    by (rewrite length_app, Hct, Htag, Hplain; subst d; lia).
  rewrite firstn_app, Nat.sub_diag, firstn_O, app_nil_r, firstn_all.
  rewrite skipn_app, Nat.sub_diag, skipn_O, skipn_all. simpl app.
  subst ct tag. rewrite (gcm_decrypt_encrypt K HI plain (nonce hdr) Hb8).
  rewrite Hdl, Hsq, Hop.
  assert (Hdata : firstn (Z.to_nat d) plain = chunk).
  { subst plain d. rewrite Nat2Z.id, firstn_app, Nat.sub_diag, firstn_O,
      app_nil_r. apply firstn_all. }
  rewrite Hdata.
  rewrite insert_accepts by assumption. reflexivity.
Qed.

Lemma with_recv_queue_same (r : @chop_circuit_t St) :
  with_recv_queue r (recv_queue r) = r.
Proof. destruct r. reflexivity. Qed.

Lemma sealed_length (s : Z) (it : item) :
  (16 <= length (sealed K s it))%nat.
Proof using HL.
  destruct it as [[f chunk] p]. unfold sealed, seal_block.
  rewrite length_app.
  pose proof (proj2 (gcm_encrypt_length K HL
                       (chunk ++ repeat 0 (Z.to_nat p))
                       (nonce (block_header_enc K s
                                 (Z.of_nat (length chunk)) p f)))).
  rewrite length_app. lia.
Qed.

(** The loop of [recv] over blocks that are all accepted does the
    insertions one after the other and ends at the empty buffer. *)
Lemma recv_loop_inserts (items : list item) :
  forall (n : Z) (r : @chop_circuit_t St) (fuel : nat),
  Forall (fun it => legal_opcode (fst (fst it)) /\
                    Z.of_nat (length (item_chunk it)) <= 65535 /\
                    0 <= snd it <= 65535 /\
                    Forall is_u8 (item_chunk it)) items ->
  is_u32 (next_to_process (recv_queue r)) ->
  fst (insert_all (item_arrivals n items) (recv_queue r))
  = repeat true (length items) ->
  (length (concat (sealed_from K n items)) < fuel)%nat ->
  recv_loop K fuel (concat (sealed_from K n items)) r
  = recv_break []
      (with_recv_queue r
         (snd (insert_all (item_arrivals n items) (recv_queue r)))).
Proof using HL HI.
  induction items as [| it t IH]; intros n r fuel Hok Hw Hall Hfuel;
    (destruct fuel as [| fuel]; [lia |]).
  - simpl. rewrite with_recv_queue_same. reflexivity.
  - apply Forall_cons in Hok as [(Hf & Hd & Hp & Hb) Hok].
    simpl sealed_from in *. simpl concat in *.
    simpl item_arrivals in *. simpl insert_all in *.
    destruct (insert (wrap32 n) (fst (fst it)) (item_chunk it)
                (recv_queue r)) as [[ok q'] fr] eqn:Hins.
    destruct (insert_all (item_arrivals (n + 1) t) q') as [oks q''] eqn:Htl.
    simpl in Hall. injection Hall as -> Hoks.
    destruct (insert_true_inv _ _ _ _ _ _ Hins) as [Hwin Hfree].
    assert (Hsq : is_u32 (wrap32 n))
      by (unfold is_u32, wrap32; apply Z.mod_pos_bound; lia).
    simpl recv_loop.
    rewrite (sealed_recv_step (wrap32 n) it _ r Hf Hsq Hd Hp Hb Hw Hwin Hfree).
    rewrite Hins. simpl snd. simpl fst.
    assert (Hntp : next_to_process q' = next_to_process (recv_queue r)).
    { rewrite insert_accepts in Hins by assumption.
      injection Hins as <- _. reflexivity. }
    rewrite (IH (n + 1) (with_recv_queue r q') fuel Hok).
    + simpl recv_queue. rewrite Htl. reflexivity.
    + simpl recv_queue. rewrite Hntp. exact Hw.
    + simpl recv_queue. rewrite Htl. exact Hoks.
    + rewrite length_app in Hfuel.
      pose proof (sealed_length (wrap32 n) it). lia.
Qed.

End Receive.

Lemma all_dat_run (del : list (Z * reassembly_elt)) :
  Forall (fun e => op e = op_DAT) (map snd del) ->
  dats_then_fin del /\ has_fin del = false.
Proof.
  induction del as [| [s e] del IH]; simpl; intros H.
  - split; [constructor | reflexivity].
  - apply Forall_cons in H as [He H]. destruct (IH H) as [I1 I2].
    split; [apply dtf_dat; assumption |].
    unfold has_fin in *. simpl. rewrite He, I2. reflexivity.
Qed.

Lemma payloads_of_items (del : list (Z * reassembly_elt))
    (items : list item) :
  map snd del = map item_elt items ->
  payloads del = concat (map item_chunk items).
Proof.
  intros H. unfold payloads. f_equal.
  rewrite <- (map_map snd (fun e => default [] (data e))), H, map_map.
  reflexivity.
Qed.

Lemma Forall_concat_inv {A : Type} (P : A -> Prop) (l : list (list A)) :
  Forall P (concat l) -> Forall (Forall P) l.
Proof.
  induction l as [| x l IH]; simpl; intros H; [constructor |].
  apply Forall_app in H as [H1 H2]. constructor; auto.
Qed.

Section EndToEnd.
Context {St : Type}.
Variable M : steg_module St.
Variable K : ciphers.
Hypothesis HL : cipher_lengths K.
Hypothesis HI : cipher_inverse K.

Lemma recv_sealed_items (items : list item) (n : Z)
    (r : @chop_circuit_t St) (id : Z) (rcn : chop_conn_t) (s s' : St)
    (inbound : list Z) (soon : bool) :
  Forall (fun it => fst (fst it) = op_DAT /\
                    Z.of_nat (length (item_chunk it)) <= 65535 /\
                    0 <= snd it <= 65535 /\
                    Forall is_u8 (item_chunk it)) items ->
  (length items <= 256)%nat -> is_u32 n ->
  recv_queue r = {| cbuf := repeat empty_elt 256; next_to_process := n |} ->
  received_fin r = false -> up_input r = [] -> upstream_eof r = false ->
  find_conn id (downstreams r) = Some rcn -> steg rcn = Some s ->
  recv_pending rcn = [] ->
  receive M s inbound = Some (s', concat (sealed_from K n items), soon) ->
  exists r',
    recv M K id inbound r = Ret 0 r' /\
    up_output r' = up_output r ++ concat (map item_chunk items) /\
    recv_queue r'
    = {| cbuf := repeat empty_elt 256;
         next_to_process := wrap32 (n + Z.of_nat (length items)) |} /\
    received_fin r' = false.
Proof using HL HI.
  intros Hok Hk Hn Hq Hrf Hin Heof Hfind Hsteg Hpend Hrecv.
  set (blocks := map item_elt items).
  assert (Hkb : length blocks = length items) by apply length_map.
  assert (Hfull : Forall (fun e => is_Some (data e)) blocks).
  { subst blocks. apply Forall_map. apply Forall_forall. intros it _.
    eexists. reflexivity. }
  assert (Hops : Forall (fun e => op e = op_DAT) blocks).
  { subst blocks. apply Forall_map.
    eapply Forall_impl; [exact Hok |]. intros it (H & _). exact H. }
  (* the insertions *)
  destruct (insert_phase n blocks Hn ltac:(lia) Hfull (seq 0 (length blocks)) []
              (recv_queue r) (List.seq_NoDup _ _))
    as (q1 & Hall & Hlen1 & Hntp1 & Hs1).
  { intros i Hi. apply list_elem_of_In, in_seq in Hi.
    split; [lia | apply not_elem_of_nil]. }
  { rewrite Hq. apply repeat_length. }
  { rewrite Hq. reflexivity. }
  { intros i Hi. rewrite Hq.
    rewrite slot_empty_queue by (apply Z.mod_pos_bound; lia).
    destruct (decide (i ∈ [])); [exfalso; eapply not_elem_of_nil; eauto |].
    reflexivity. }
  rewrite Hkb in Hall. subst blocks.
  rewrite <- item_arrivals_indexed in Hall.
  rewrite length_seq in Hall.
  (* the loop of recv *)
  assert (Hloop : forall fuel,
            (length (concat (sealed_from K n items)) < fuel)%nat ->
            recv_loop K fuel (concat (sealed_from K n items)) r
            = recv_break [] (with_recv_queue r q1)).
  { intros fuel Hfuel.
    rewrite (recv_loop_inserts K HL HI items n r fuel).
    - rewrite Hall. reflexivity.
    - eapply Forall_impl; [exact Hok |].
      intros it (Hf & Hd & Hp & Hb). rewrite Hf.
      repeat split; try assumption; try lia.
      unfold legal_opcode, op_DAT. lia.
    - rewrite Hq. exact Hn.
    - rewrite Hall. reflexivity.
    - exact Hfuel. }
  unfold recv. rewrite Hfind, Hsteg, Hrecv, Hpend. simpl app.
  rewrite Hloop by lia.
  set (rq := put_conn (with_recv_queue r q1) _).
  (* the removals *)
  destruct (remove_phase n (map item_elt items) Hn ltac:(rewrite Hkb; lia)
              Hfull (length (map item_elt items)) 257 0 q1)
    as (R1 & R2 & R3).
  { rewrite Hkb. lia. }
  { lia. }
  { exact Hlen1. }
  { rewrite Hntp1, Z.add_0_r. symmetry. apply Z.mod_small. exact Hn. }
  { intros i Hi. rewrite Hs1 by exact Hi.
    destruct (decide (i ∈ seq 0 (length (map item_elt items)) ++ []))
      as [Hd | Hd];
      destruct (decide (0 <= i < length (map item_elt items))%nat)
        as [Hd' | Hd']; try reflexivity; exfalso;
      rewrite app_nil_r, list_elem_of_In, in_seq in Hd; lia. }
  rewrite skipn_O in R1. rewrite Hkb in R3.
  destruct (remove_run 257 q1) as [del q2] eqn:Hrun.
  simpl in R1, R2, R3.
  assert (Hdl : length del = length items)
    by (rewrite <- (length_map snd del), R1; exact Hkb).
  destruct (all_dat_run del ltac:(rewrite R1; exact Hops)) as [Hdtf Hnofin].
  destruct (deliver_run M K 257 rq
              {| count := 0; pending_fin := false; pending_error := false;
                 sent_error := false |} del q2 Hrun ltac:(lia) Hdtf Hrf
              eq_refl eq_refl)
    as (c2 & v2 & Hpl & Hout & Hq2 & Hrf2 & _ & _ & _ & Hin2 & Heof2 & _ & _
        & _ & _ & Hse & _).
  rewrite (process_queue_eq M K rq c2 v2 Hpl). cbv zeta.
  change (sent_error {| count := 0; pending_fin := false;
                        pending_error := false; sent_error := false |})
    with false in Hse.
  rewrite Hse.
  set (c3 := if count v2 >? 0 then with_dead_cycles c2 0 else c2).
  assert (H3 : up_output c3 = up_output c2 /\ recv_queue c3 = recv_queue c2
               /\ received_fin c3 = received_fin c2
               /\ up_input c3 = up_input c2
               /\ upstream_eof c3 = upstream_eof c2).
  { subst c3. destruct (count v2 >? 0); repeat split. }
  destruct H3 as (H3a & H3b & H3c & H3d & H3e).
  rewrite H3d, H3e, Hin2, Heof2.
  change (up_input rq) with (up_input r).
  change (upstream_eof rq) with (upstream_eof r).
  rewrite Hin, Heof. simpl orb. cbv iota.
  unfold check_for_eof. rewrite H3c, Hrf2, Hnofin, andb_false_r.
  assert (Hres : up_output c3 = up_output r ++ concat (map item_chunk items)
                 /\ recv_queue c3
                    = {| cbuf := repeat empty_elt 256;
                         next_to_process :=
                           wrap32 (n + Z.of_nat (length items)) |}
                 /\ received_fin c3 = false).
  { rewrite H3a, H3b, H3c, Hout, Hq2, Hrf2, Hnofin, R3.
    rewrite (payloads_of_items del items R1). repeat split. }
  destruct (negb (server_mode c3)); eexists;
    (split; [reflexivity | exact Hres]).
Qed.

(** X12: a batch of up to 256 data blocks that arrives in
    sequence on a connection of a circuit with an empty reassembly
    queue is delivered whole.  When the steg module hands [recv] the
    wire forms of the items, sealed under the sequence numbers from the
    expected one on, and the circuit has nothing of its own to send,
    [recv] returns 0, the upstream output has grown by exactly the data
    of the items in order, and the queue is empty again and expects the
    number after the last block. *)
Theorem recv_delivers_batch_in_sequence (items : list item) (n : Z)
    (r : @chop_circuit_t St) (id : Z) (rcn : chop_conn_t) (s s' : St)
    (inbound : list Z) (soon : bool) :
  Forall (fun it => fst (fst it) = op_DAT /\
                    Z.of_nat (length (item_chunk it)) <= 65535 /\
                    0 <= snd it <= 65535 /\
                    Forall is_u8 (item_chunk it)) items ->
  (length items <= 256)%nat -> is_u32 n ->
  recv_queue r = {| cbuf := repeat empty_elt 256; next_to_process := n |} ->
  received_fin r = false -> up_input r = [] -> upstream_eof r = false ->
  find_conn id (downstreams r) = Some rcn -> steg rcn = Some s ->
  recv_pending rcn = [] ->
  receive M s inbound = Some (s', concat (sealed_from K n items), soon) ->
  exists r',
    recv M K id inbound r = Ret 0 r' /\
    up_output r' = up_output r ++ concat (map item_chunk items) /\
    recv_queue r'
    = {| cbuf := repeat empty_elt 256;
         next_to_process := wrap32 (n + Z.of_nat (length items)) |} /\
    received_fin r' = false.
Proof using HL HI. apply recv_sealed_items. Qed.

(** X13: what [send] takes from one circuit's upstream input, [recv]
    puts on the other circuit's upstream output.  Let [send] return on
    a circuit that is not at its upstream's end of file, having put the
    blocks [blocks] (at most 256) on the wire.  Let those blocks reach,
    in one call of [recv], a connection of a circuit that shares the
    keys, has an empty reassembly queue expecting the sender's first
    sequence number, and has nothing of its own to send.  Then [recv]
    returns 0, and the bytes gone from the sender's input are exactly
    the bytes added to the receiver's output; the receiver then expects
    the sender's next sequence number. *)
Theorem recv_delivers_what_send_took (c c' : @chop_circuit_t St) (rc : Z)
    (blocks : list wire_block)
    (r : @chop_circuit_t St) (id : Z) (rcn : chop_conn_t) (s s' : St)
    (inbound : list Z) (soon : bool) :
  is_u32 (send_seq c) -> upstream_eof c = false ->
  Forall is_u8 (up_input c) ->
  send M K c = Ret rc c' ->
  wire c' = wire c ++ blocks -> (length blocks <= 256)%nat ->
  recv_queue r = {| cbuf := repeat empty_elt 256;
                    next_to_process := send_seq c |} ->
  received_fin r = false -> up_input r = [] -> upstream_eof r = false ->
  find_conn id (downstreams r) = Some rcn -> steg rcn = Some s ->
  recv_pending rcn = [] ->
  receive M s inbound = Some (s', concat (map wb_block blocks), soon) ->
  exists r' taken,
    recv M K id inbound r = Ret 0 r' /\
    up_input c = taken ++ up_input c' /\
    up_output r' = up_output r ++ taken /\
    recv_queue r' = {| cbuf := repeat empty_elt 256;
                       next_to_process := send_seq c' |}.
Proof using HL HI.
  intros Hs Hceof Hbytes Hsend Hwire Hk Hq Hrf Hin Heof Hfind Hsteg Hpend
         Hrecv.
  pose proof (send_ships M K c) as Hship. rewrite Hsend in Hship.
  destruct (Hship Hs) as (items & bl & Hi & Hw & Hb & Hsq & Hok & _).
  rewrite Hwire in Hw. apply app_inv_head in Hw. subst bl.
  assert (Hlen : length items = length blocks).
  { rewrite <- (length_map wb_block blocks), Hb. clear.
    generalize (send_seq c). induction items as [| it t IH]; intros n;
      simpl; [reflexivity |]. f_equal. apply IH. }
  assert (Hb8 : Forall (Forall is_u8) (map item_chunk items)).
  { apply Forall_concat_inv. rewrite Hi in Hbytes.
    apply Forall_app in Hbytes. apply Hbytes. }
  assert (Hgood : Forall (fun it => fst (fst it) = op_DAT /\
                    Z.of_nat (length (item_chunk it)) <= 65535 /\
                    0 <= snd it <= 65535 /\
                    Forall is_u8 (item_chunk it)) items).
  { rewrite Forall_map in Hb8. rewrite Forall_forall in *.
    intros it Hit. specialize (Hok it Hit). specialize (Hb8 it Hit).
    destruct it as [[f chunk] p]. unfold item_ok in Hok.
    change SECTION_LEN with 65535 in Hok.
    destruct Hok as ([-> | [_ Habs]] & Hd & Hp);
      [| rewrite Hceof in Habs; discriminate].
    unfold item_chunk in *. simpl in *. repeat split; try assumption; lia. }
  rewrite Hb in Hrecv.
  destruct (recv_sealed_items items (send_seq c) r id rcn s s' inbound soon
              Hgood ltac:(lia) Hs Hq Hrf Hin Heof Hfind Hsteg Hpend Hrecv)
    as (r' & Hr & Hout & Hq' & _).
  exists r', (concat (map item_chunk items)).
  split; [exact Hr |]. split; [exact Hi |]. split; [exact Hout |].
  rewrite Hq', Hsq. reflexivity.
Qed.

End EndToEnd.

Lemma recv_delivers_batch_in_sequence_witness :
  let items : list item := [(op_DAT, [104; 105], 1); (op_DAT, [33], 0)] in
  let r := with_recv_queue
             (add_downstream chaff_conn (chop_circuit_new true 7))
             {| cbuf := repeat empty_elt 256;
                next_to_process := 4294967295 |} in
  exists r',
    recv fixed_room_steg toy_ciphers 1
         (concat (sealed_from toy_ciphers 4294967295 items)) r = Ret 0 r' /\
    up_output r' = up_output r ++ concat (map item_chunk items) /\
    recv_queue r'
    = {| cbuf := repeat empty_elt 256;
         next_to_process := wrap32 (4294967295 + Z.of_nat (length items)) |} /\
    received_fin r' = false.
Proof.
  intros items r.
  apply (recv_delivers_batch_in_sequence fixed_room_steg toy_ciphers
           toy_cipher_lengths toy_cipher_inverse items 4294967295 r 1
           chaff_conn 100 100 _ false).
  - repeat constructor; simpl; unfold is_u8; lia.
  - simpl. lia.
  - unfold is_u32. lia.
  - reflexivity.
  - reflexivity.
  - reflexivity.
  - reflexivity.
  - reflexivity.
  - reflexivity.
  - reflexivity.
  - reflexivity.
Defined.

Lemma recv_delivers_what_send_took_witness :
  let c' := outcome_circuit demo_circuit
              (send fixed_room_steg toy_ciphers demo_circuit) in
  let r := add_downstream chaff_conn (chop_circuit_new true 7) in
  exists r' taken,
    recv fixed_room_steg toy_ciphers 1 (concat (map wb_block (wire c'))) r
      = Ret 0 r' /\
    up_input demo_circuit = taken ++ up_input c' /\
    up_output r' = up_output r ++ taken /\
    recv_queue r' = {| cbuf := repeat empty_elt 256;
                       next_to_process := send_seq c' |}.
Proof.
  intros c' r.
  apply (recv_delivers_what_send_took fixed_room_steg toy_ciphers
           toy_cipher_lengths toy_cipher_inverse demo_circuit c' 0
           (wire c') r 1 chaff_conn 100 100 _ false).
  - unfold is_u32. simpl. lia.
  - reflexivity.
  - simpl. repeat constructor; unfold is_u8; lia.
  - vm_compute. reflexivity.
  - reflexivity.
  - vm_compute. lia.
  - reflexivity.
  - reflexivity.
  - reflexivity.
  - reflexivity.
  - reflexivity.
  - reflexivity.
  - reflexivity.
  - reflexivity.
Defined.

(** ** Invariants of a circuit over every run *)

Section Invariant.
Context {St : Type}.
Variable M : steg_module St.
Variable K : ciphers.
Variable P : @chop_circuit_t St -> Prop.
Hypothesis P_call : forall c x, P c -> P (do_call c x).
Hypothesis P_downstreams : forall c l, P c -> P (with_downstreams c l).
Hypothesis P_dead : forall c n, P c -> P (with_dead_cycles c n).
Hypothesis P_queue : forall c q, P c -> P (with_recv_queue c q).
Hypothesis P_out : forall c o, P c -> P (with_up_output c o).
Hypothesis P_rfin : forall c b, P c -> P (with_received_fin c b).
Hypothesis P_eof : forall c, P c -> P (with_upstream_eof c true).
Hypothesis P_input : forall c i, P c -> P (with_up_input c i).
Hypothesis P_block :
  forall conn blocksize c rc c',
    P c -> send_targeted2 M K conn blocksize c = Ret rc c' -> P c'.
Hypothesis P_rst :
  forall c rc c',
    P c -> send_special M K op_RST payload_null c = Ret rc c' -> P c'.

Lemma inv_send (c : @chop_circuit_t St) :
  holds_on_return (preserves P) c (send M K c).
Proof using P_call P_downstreams P_dead P_block.
  apply lift_send; unfold preserves.
  - auto.
  - auto.
  - intros; apply P_call; assumption.
  - intros; unfold put_conn; apply P_downstreams; assumption.
  - intros; apply P_dead; assumption.
  - intros conn bs c0.
    destruct (send_targeted2 M K conn bs c0) as [rc c' | |] eqn:E;
      simpl; auto.
    intros H. eapply P_block; eauto.
Qed.

Lemma inv_check_for_eof (c : @chop_circuit_t St) :
  holds_on_return (preserves P) c (check_for_eof M K c).
Proof using P_call P_downstreams P_dead P_block.
  apply lift_check_for_eof; unfold preserves.
  - auto.
  - auto.
  - intros; apply P_call; assumption.
  - intros; unfold put_conn; apply P_downstreams; assumption.
  - intros; apply P_dead; assumption.
  - intros conn bs c0.
    destruct (send_targeted2 M K conn bs c0) as [rc c' | |] eqn:E;
      simpl; auto.
    intros H. eapply P_block; eauto.
Qed.

Lemma inv_conn_must_send (id : Z) (c : @chop_circuit_t St) :
  holds_on_return (preserves P) c (conn_must_send M K id c).
Proof using P_call P_downstreams P_dead P_block.
  apply lift_conn_must_send; unfold preserves.
  - auto.
  - auto.
  - intros; apply P_call; assumption.
  - intros; unfold put_conn; apply P_downstreams; assumption.
  - intros; apply P_dead; assumption.
  - intros conn bs c0.
    destruct (send_targeted2 M K conn bs c0) as [rc c' | |] eqn:E;
      simpl; auto.
    intros H. eapply P_block; eauto.
Qed.

Lemma inv_dispatch (blk : reassembly_elt) (c : @chop_circuit_t St)
    (pf pe : bool) :
  P c -> P (fst (fst (dispatch blk c pf pe))).
Proof using P_call P_out.
  intros H. unfold dispatch.
  repeat match goal with
         | |- context [if ?b then _ else _] => destruct b
         end; simpl; auto.
Qed.

Lemma inv_process_loop (fuel : nat) :
  forall (c : @chop_circuit_t St) (v : pq_locals),
  P c ->
  match process_loop M K fuel c v with
  | inl (c', _) => P c'
  | inr (Ret _ c') => P c'
  | inr _ => True
  end.
Proof using P_call P_out P_rfin P_queue P_rst.
  induction fuel as [| fuel IH]; intros c v Hc; simpl; [exact I |].
  destruct (remove_next (recv_queue c)) as [blk q].
  destruct (data blk) as [payload |]; [| apply P_queue; exact Hc].
  pose proof (inv_dispatch blk (with_recv_queue c q) (pending_fin v)
                (pending_error v) (P_queue c q Hc)) as Hd.
  destruct (dispatch blk (with_recv_queue c q) (pending_fin v)
              (pending_error v)) as [[c1 pf] pe].
  simpl in Hd.
  set (c2 := if pf && negb (received_fin c1)
             then with_received_fin (do_call c1 circuit_recv_eof) true
             else c1).
  assert (H2 : P c2).
  { subst c2. destruct (pf && negb (received_fin c1)); auto. }
  set (r := if pe && negb (sent_error v)
            then if negb (op blk =? op_RST) && negb (op blk =? op_FIN)
                 then send_special M K op_RST payload_null c2
                 else Ret 0 c2
            else Ret 0 c2).
  assert (Hr : match r with Ret _ c3 => P c3 | _ => True end).
  { subst r. destruct (pe && negb (sent_error v));
      [destruct (negb (op blk =? op_RST) && negb (op blk =? op_FIN)) |];
      try exact H2.
    destruct (send_special M K op_RST payload_null c2) as [rc c3 | |] eqn:E;
      try exact I.
    eapply P_rst; eauto. }
  destruct r as [rc c3 | |]; [| exact I | exact I].
  apply IH. exact Hr.
Qed.

Lemma inv_process_queue (c : @chop_circuit_t St) :
  holds_on_return (preserves P) c (process_queue M K c).
Proof using All.
  destruct (process_loop M K 257 c
              {| count := 0; pending_fin := false; pending_error := false;
                 sent_error := false |}) as [[c2 v2] | o] eqn:E.
  - rewrite (process_queue_eq M K c c2 v2 E). cbv zeta.
    pose proof (inv_process_loop 257 c
                  {| count := 0; pending_fin := false;
                     pending_error := false; sent_error := false |}) as H.
    rewrite E in H.
    set (c3 := if count v2 >? 0 then with_dead_cycles c2 0 else c2).
    assert (H3 : P c -> P c3).
    { intros Hc. subst c3. destruct (count v2 >? 0); auto. }
    destruct (sent_error v2); [exact H3 |]. clear H.
    destruct (_ || _).
    + pose proof (inv_send c3) as Hs. clear E.
      destruct (send M K c3); simpl in Hs |- *; auto.
      unfold preserves in *. auto.
    + pose proof (inv_check_for_eof c3) as Hs. clear E.
      destruct (check_for_eof M K c3); simpl in Hs |- *; auto.
      unfold preserves in *. auto.
  - rewrite (process_queue_eq_inr M K c o E).
    destruct o as [rc c' | |]; simpl; auto.
    exfalso. exact (process_loop_no_ret M K _ _ _ _ _ E).
Qed.

Lemma same_but_queue_eq (c c' : @chop_circuit_t St) :
  same_but_queue c c' -> c' = with_recv_queue c (recv_queue c').
Proof.
  unfold same_but_queue. intros H.
  repeat match goal with H : _ /\ _ |- _ => destruct H end.
  destruct c, c'. unfold with_recv_queue. simpl in *. congruence.
Qed.

Lemma inv_recv (id : Z) (inbound : list Z) (c : @chop_circuit_t St) :
  holds_on_return (preserves P) c (recv M K id inbound c).
Proof using All.
  unfold recv.
  destruct (find_conn id (downstreams c)) as [cn |]; [| exact I].
  destruct (steg cn) as [s |]; [| exact I].
  destruct (receive M s inbound) as [[[s' hidden] soon] |];
    [| simpl; unfold preserves; auto].
  pose proof (recv_loop_same K (S (length (recv_pending cn ++ hidden)))
                (recv_pending cn ++ hidden) c) as H.
  destruct (recv_loop K _ _ c) as [p c' | p c' |]; [| | exact I].
  - apply same_but_queue_eq in H.
    match goal with |- holds_on_return (preserves P) c (process_queue M K ?x) =>
      pose proof (inv_process_queue x) as Hq;
      destruct (process_queue M K x) as [rc c2 | |]
    end; simpl in Hq |- *; auto.
    unfold preserves in *. intros Hc. apply Hq. unfold put_conn.
    apply P_downstreams. rewrite H. apply P_queue. exact Hc.
  - apply same_but_queue_eq in H. simpl. unfold preserves. intros Hc.
    unfold put_conn. apply P_downstreams. rewrite H. apply P_queue. exact Hc.
Qed.

Lemma inv_perform (a : action) (c : @chop_circuit_t St) :
  holds_on_return (preserves P) c (perform M K a c).
Proof using All.
  destruct a as [| | id | id inbound | bytes | cn]; simpl.
  - apply inv_send.
  - unfold send_eof.
    pose proof (inv_send (with_upstream_eof c true)) as H.
    destruct (send M K _); simpl in H |- *; auto.
    unfold preserves in *. auto.
  - apply inv_conn_must_send.
  - apply inv_recv.
  - unfold preserves. auto.
  - unfold preserves, add_downstream. auto.
Qed.

Lemma inv_run (l : list action) (c : @chop_circuit_t St) :
  holds_on_return (preserves P) c (run M K l c).
Proof using All.
  revert c. induction l as [| a l IH]; intros c; simpl.
  - unfold preserves. auto.
  - pose proof (inv_perform a c) as H.
    destruct (perform M K a c) as [rc c' | |]; [| exact I | exact I].
    simpl in H. specialize (IH c').
    destruct (run M K l c'); simpl in H, IH |- *; auto.
    unfold preserves in *. auto.
Qed.

End Invariant.

(** ** One FIN, and only at the end of the upstream's data *)

Lemma opcode_enc (K : ciphers) (s d p : Z) (f : opcode_t) :
  legal_opcode f -> opcode (block_header_enc K s d p f) = f.
Proof.
  intros Hf.
  assert (Hf0 : 0 <= f) by (destruct Hf; lia).
  unfold block_header_enc.
  rewrite (proj2 (legal_opcode_test f Hf0) Hf).
  unfold opcode, at_. simpl. unfold wrap8.
  apply Z.mod_small. destruct Hf; lia.
Qed.

Section Fin.
Context {St : Type}.
Variable M : steg_module St.
Variable K : ciphers.

Lemma commit_fin_inv (c : @chop_circuit_t St) (conn' : chop_conn_t)
    (id s d p : Z) (f : opcode_t) (block bytes : list Z) (cease : bool)
    (rest : evbuffer) :
  fin_inv c -> legal_opcode f ->
  (f = op_FIN -> sent_fin c = false /\ upstream_eof c = true) ->
  fin_inv (commit_block c conn'
             {| wb_conn := id; wb_hdr := block_header_enc K s d p f;
                wb_block := block; wb_sent := bytes |} cease rest f).
Proof.
  intros [Hn He] Hf Hfin. unfold fin_inv, fin_blocks in *. simpl.
  rewrite List.filter_app, length_app. simpl.
  rewrite (opcode_enc K s d p f Hf).
  destruct (Z.eqb_spec f op_FIN) as [-> | Hne].
  - destruct (Hfin eq_refl) as [Hsf Hue]. rewrite Hsf in Hn.
    simpl. split; [lia | intros _; exact Hue].
  - simpl. split; [lia | exact He].
Qed.

Lemma send_targeted2_fin_inv (conn : chop_conn_t) (blocksize : Z)
    (c c' : @chop_circuit_t St) (rc : Z) :
  fin_inv c -> send_targeted2 M K conn blocksize c = Ret rc c' ->
  fin_inv c'.
Proof.
  intros Hinv E.
  unfold send_targeted2 in E. destruct (negb _); [discriminate |].
  set (avail := Z.of_nat (length (up_input c))) in E.
  assert (Hcase : exists d f,
            (f = op_DAT \/
             (f = op_FIN /\ sent_fin c = false /\ upstream_eof c = true)) /\
            send_targeted5 M K conn d
              (wrap64 (wrap64 (blocksize - MIN_BLOCK_SIZE) - d)) f
              payload_xmit_pending c = Ret rc c').
  { destruct (avail >? SECTION_LEN).
    - exists SECTION_LEN, op_DAT. split; [left; reflexivity | exact E].
    - destruct (upstream_eof c && negb (sent_fin c)) eqn:Eof.
      + exists avail, op_FIN. split; [| exact E].
        right. apply andb_true_iff in Eof as [H1 H2].
        apply negb_true_iff in H2. auto.
      + exists avail, op_DAT. split; [left; reflexivity | exact E]. }
  clear E. destruct Hcase as (d & f & Hf & E).
  apply send_targeted5_inv in E
    as [[_ ->] | (_ & _ & _ & _ & _ & conn' & bytes & cease & _ & _ & ->)];
    [exact Hinv |].
  apply commit_fin_inv; [exact Hinv | |].
  - unfold legal_opcode. destruct Hf as [-> | [-> _]]; vm_compute;
      intuition congruence.
  - intros ->. destruct Hf as [Habs | [_ H]]; [discriminate | exact H].
Qed.

Lemma send_special_rst_fin_inv (c c' : @chop_circuit_t St) (rc : Z) :
  fin_inv c -> send_special M K op_RST payload_null c = Ret rc c' ->
  fin_inv c'.
Proof.
  intros Hinv E. unfold send_special in E.
  destruct (negb _); [discriminate |].
  destruct (pick_connection M 0 c) as [[conn |] bs];
    [| injection E as _ <-; exact Hinv].
  destruct (_ <? 0); [injection E as _ <-; exact Hinv |].
  apply send_targeted5_inv in E
    as [[_ ->] | (_ & _ & _ & _ & _ & conn' & bytes & cease & _ & _ & ->)];
    [exact Hinv |].
  apply commit_fin_inv; [exact Hinv | |].
  - unfold legal_opcode. vm_compute. intuition congruence.
  - discriminate.
Qed.

Lemma run_fin_inv (l : list action) (c : @chop_circuit_t St) :
  holds_on_return (preserves fin_inv) c (run M K l c).
Proof.
  apply inv_run.
  - intros c0 x H. exact H.
  - intros c0 x H. exact H.
  - intros c0 x H. exact H.
  - intros c0 x H. exact H.
  - intros c0 x H. exact H.
  - intros c0 x H. exact H.
  - intros c0 [Hn He]. split; [exact Hn | reflexivity].
  - intros c0 x H. exact H.
  - intros conn bs c0 rc c' H E. eapply send_targeted2_fin_inv; eauto.
  - intros c0 rc c' H E. eapply send_special_rst_fin_inv; eauto.
Qed.

(** X14: a circuit sends FIN at most once, and only after its
    upstream has reached end of file.  Over every sequence of calls of
    the entry points ([send], [send_eof], the must-send path, [recv],
    upstream data arriving, connections being attached) that starts
    from a circuit whose [sent_fin] flag agrees with its wire, as it
    does on a new circuit, the wire holds one FIN block when [sent_fin]
    is set and none when it is clear, and [sent_fin] is never set
    while [upstream_eof] is clear. *)
Theorem fin_is_sent_once_and_only_at_eof (l : list action)
    (c c' : @chop_circuit_t St) (rc : Z) :
  fin_inv c -> run M K l c = Ret rc c' ->
  length (fin_blocks c') = (if sent_fin c' then 1%nat else 0%nat) /\
  (sent_fin c' = true -> upstream_eof c' = true).
Proof.
  intros Hinv Hrun. pose proof (run_fin_inv l c) as H.
  rewrite Hrun in H. exact (H Hinv).
Qed.

End Fin.

Lemma fin_is_sent_once_and_only_at_eof_witness :
  let l := [act_send; act_send_eof; act_upstream_data [1; 2]; act_send;
            act_must_send 1] in
  let c' := outcome_circuit demo_circuit
              (run fixed_room_steg toy_ciphers l demo_circuit) in
  length (fin_blocks c') = (if sent_fin c' then 1%nat else 0%nat) /\
  (sent_fin c' = true -> upstream_eof c' = true).
Proof.
  intros l c'.
  apply (fin_is_sent_once_and_only_at_eof fixed_room_steg toy_ciphers l
           demo_circuit c' 0).
  - split; [reflexivity | discriminate].
  - vm_compute. reflexivity.
Defined.

(** ** Answering protocol errors *)

Section Rst.
Context {St : Type}.
Variable M : steg_module St.
Variable K : ciphers.

(** What a call that sends no RST keeps. *)
Lemma commit_rst_count (c : @chop_circuit_t St) (conn' : chop_conn_t)
    (id s d p : Z) (f : opcode_t) (block bytes : list Z) (cease : bool)
    (rest : evbuffer) :
  legal_opcode f ->
  length (rst_blocks (commit_block c conn'
             {| wb_conn := id; wb_hdr := block_header_enc K s d p f;
                wb_block := block; wb_sent := bytes |} cease rest f))
  = (length (rst_blocks c) + (if (f =? op_RST)%Z then 1 else 0))%nat.
Proof.
  intros Hf. unfold rst_blocks. simpl.
  rewrite List.filter_app, length_app. simpl.
  rewrite (opcode_enc K s d p f Hf).
  destruct (f =? op_RST); reflexivity.
Qed.

Lemma send_targeted2_no_rst (conn : chop_conn_t) (blocksize : Z)
    (c : @chop_circuit_t St) :
  holds_on_return
    (fun c c' => length (rst_blocks c') = length (rst_blocks c))
    c (send_targeted2 M K conn blocksize c).
Proof.
  destruct (send_targeted2 M K conn blocksize c) as [rc c' | |] eqn:E;
    simpl; [| exact I | exact I].
  unfold send_targeted2 in E. destruct (negb _); [discriminate |].
  set (avail := Z.of_nat (length (up_input c))) in E.
  assert (Hcase : exists d f,
            (f = op_DAT \/ f = op_FIN) /\
            send_targeted5 M K conn d
              (wrap64 (wrap64 (blocksize - MIN_BLOCK_SIZE) - d)) f
              payload_xmit_pending c = Ret rc c').
  { destruct (avail >? SECTION_LEN).
    - exists SECTION_LEN, op_DAT. split; [left; reflexivity | exact E].
    - destruct (upstream_eof c && negb (sent_fin c)).
      + exists avail, op_FIN. split; [right; reflexivity | exact E].
      + exists avail, op_DAT. split; [left; reflexivity | exact E]. }
  clear E. destruct Hcase as (d & f & Hf & E).
  apply send_targeted5_inv in E
    as [[_ ->] | (_ & _ & _ & _ & _ & conn' & bytes & cease & _ & _ & ->)];
    [reflexivity |].
  rewrite commit_rst_count.
  - destruct Hf as [-> | ->]; simpl; lia.
  - unfold legal_opcode. destruct Hf as [-> | ->]; vm_compute;
      intuition congruence.
Qed.

Lemma send_no_rst (c : @chop_circuit_t St) :
  holds_on_return
    (fun c c' => length (rst_blocks c') = length (rst_blocks c))
    c (send M K c).
Proof.
  apply lift_send.
  - reflexivity.
  - intros a b c0 H1 H2. congruence.
  - reflexivity.
  - reflexivity.
  - reflexivity.
  - apply send_targeted2_no_rst.
Qed.

Lemma check_for_eof_no_rst (c : @chop_circuit_t St) :
  holds_on_return
    (fun c c' => length (rst_blocks c') = length (rst_blocks c))
    c (check_for_eof M K c).
Proof.
  apply lift_check_for_eof.
  - reflexivity.
  - intros a b c0 H1 H2. congruence.
  - reflexivity.
  - reflexivity.
  - reflexivity.
  - apply send_targeted2_no_rst.
Qed.

Lemma dispatch_wire (blk : reassembly_elt) (c : @chop_circuit_t St)
    (pf pe : bool) :
  wire (fst (fst (dispatch blk c pf pe))) = wire c /\
  up_input (fst (fst (dispatch blk c pf pe))) = up_input c.
Proof.
  unfold dispatch.
  repeat match goal with
         | |- context [if ?b then _ else _] => destruct b
         end; simpl; split; reflexivity.
Qed.

(** The loop of [process_queue] leaves the wire and the upstream input
    as they are when it comes to its end: its only send is
    [send_special(op_RST, 0)], which returns only when nothing has
    been sent. *)
Lemma process_loop_wire (fuel : nat) :
  forall (c c' : @chop_circuit_t St) (v v' : pq_locals),
  process_loop M K fuel c v = inl (c', v') ->
  wire c' = wire c /\ up_input c' = up_input c.
Proof.
  induction fuel as [| fuel IH]; intros c c' v v' H; [discriminate |].
  simpl in H.
  destruct (remove_next (recv_queue c)) as [blk q].
  destruct (data blk) as [payload |];
    [| injection H as <- <-; split; reflexivity].
  pose proof (dispatch_wire blk (with_recv_queue c q) (pending_fin v)
                (pending_error v)) as [Hw Hi].
  destruct (dispatch blk (with_recv_queue c q) (pending_fin v)
              (pending_error v)) as [[c1 pf] pe].
  simpl in Hw, Hi.
  set (c2 := if pf && negb (received_fin c1)
             then with_received_fin (do_call c1 circuit_recv_eof) true
             else c1) in H.
  assert (Hw2 : wire c2 = wire c)
    by (subst c2; destruct (pf && negb (received_fin c1)); exact Hw).
  assert (Hi2 : up_input c2 = up_input c)
    by (subst c2; destruct (pf && negb (received_fin c1)); exact Hi).
  destruct (pe && negb (sent_error v)).
  - destruct (negb (op blk =? op_RST) && negb (op blk =? op_FIN)).
    + destruct (send_special M K op_RST payload_null c2)
        as [rc c3 | |] eqn:E; [| discriminate | discriminate].
      destruct (send_special_null_ret M K op_RST c2 c3 rc E) as [_ ->].
      destruct (IH c2 c' _ v' H) as [Hw' Hi']. split; congruence.
    + destruct (IH c2 c' _ v' H) as [Hw' Hi']. split; congruence.
  - destruct (IH c2 c' _ v' H) as [Hw' Hi']. split; congruence.
Qed.

(** X15: [process_queue] never returns with an RST block sent.
    When it returns, the wire holds as many RST blocks as before the
    call: the only send of its loop is [send_special(op_RST, 0)], from
    which the call comes back only when no block has gone out, and
    [send] or [check_for_eof] at its end add DAT and FIN blocks
    only. *)
Theorem process_queue_returns_without_rst (c c' : @chop_circuit_t St)
    (rc : Z) :
  process_queue M K c = Ret rc c' ->
  length (rst_blocks c') = length (rst_blocks c).
Proof.
  intros H.
  destruct (process_loop M K 257 c
              {| count := 0; pending_fin := false; pending_error := false;
                 sent_error := false |}) as [[c2 v2] | o] eqn:E.
  - rewrite (process_queue_eq M K c c2 v2 E) in H. cbv zeta in H.
    destruct (process_loop_wire 257 c c2 _ v2 E) as [Hw _].
    clear E.
    set (c3 := if count v2 >? 0 then with_dead_cycles c2 0 else c2) in H.
    assert (H3 : length (rst_blocks c3) = length (rst_blocks c)).
    { unfold rst_blocks. rewrite <- Hw. subst c3.
      destruct (count v2 >? 0); reflexivity. }
    destruct (sent_error v2).
    + injection H as <- <-. exact H3.
    + rewrite <- H3. destruct (_ || _).
      * pose proof (send_no_rst c3) as Hs. rewrite H in Hs. exact Hs.
      * pose proof (check_for_eof_no_rst c3) as Hs. rewrite H in Hs.
        exact Hs.
  - rewrite (process_queue_eq_inr M K c o E) in H. subst o.
    exfalso. exact (process_loop_no_ret M K _ _ _ _ _ E).
Qed.

(** The first pass of the loop over a block in error that is neither
    an RST nor a FIN. *)
Lemma process_loop_error_block (n : nat) (c : @chop_circuit_t St)
    (v : pq_locals) (blk : reassembly_elt) (q : reassembly_queue)
    (payload : evbuffer) :
  remove_next (recv_queue c) = (blk, q) ->
  data blk = Some payload ->
  op blk <> op_RST -> op blk <> op_FIN ->
  op blk <> op_DAT \/ (payload <> [] /\ received_fin c = true) ->
  pending_fin v = false -> sent_error v = false ->
  process_loop M K (S n) c v =
    match send_special M K op_RST payload_null (with_recv_queue c q) with
    | Ret _ ckt =>
        process_loop M K n ckt
          {| count := wrap32 (count v + 1); pending_fin := false;
             pending_error := true; sent_error := true |}
    | r => inr r
    end.
Proof.
  intros Hrm Hdata Hrst Hfin Herr Hpf Hse. simpl. rewrite Hrm, Hdata.
  unfold dispatch. rewrite Hdata. simpl default.
  apply Z.eqb_neq in Hrst, Hfin. rewrite Hrst, Hfin, Hpf, Hse.
  cbv iota.
  destruct Herr as [Hdat | [Hne Hrf]].
  - apply Z.eqb_neq in Hdat. rewrite Hdat. cbv iota. simpl andb. cbv iota.
    destruct (send_special M K op_RST payload_null _); reflexivity.
  - destruct (op blk =? op_DAT).
    + simpl received_fin. rewrite Hrf.
      destruct payload as [| x l]; [congruence |].
      simpl length.
      destruct (Z.eqb_spec (Z.of_nat (S (length l))) 0) as [H0 |]; [lia |].
      cbv iota. simpl andb. cbv iota.
      destruct (send_special M K op_RST payload_null _); reflexivity.
    + cbv iota. simpl andb. cbv iota.
      destruct (send_special M K op_RST payload_null _); reflexivity.
Qed.

(** X23: the RST that answers a protocol error ends the
    process.  When the block at the front of the queue is in error (a
    rekeying or unknown opcode, or data after the peer's FIN) and a
    connection takes the RST block that [process_queue] sends in
    answer, [send_targeted] goes on to [evbuffer_drain] with the null
    payload of [send_special(op_RST, 0)]: the call does not return. *)
Theorem rst_answer_ends_the_process (c : @chop_circuit_t St)
    (blk : reassembly_elt) (q : reassembly_queue) (payload : evbuffer)
    (conn conn' : chop_conn_t) (bs : Z) (bytes : list Z) (cease : bool) :
  is_u32 (send_seq c) ->
  remove_next (recv_queue c) = (blk, q) ->
  data blk = Some payload ->
  op blk <> op_RST -> op blk <> op_FIN ->
  op blk <> op_DAT \/ (payload <> [] /\ received_fin c = true) ->
  pick_connection M 0 c = (Some conn, bs) ->
  conn_send M conn
    (seal_block K (block_header_enc K (send_seq c) 0 0 op_RST) []) c
    = conn_sent conn' bytes cease ->
  process_queue M K c = Crash.
Proof.
  intros Hseq Hrm Hdata Hrst Hfin Herr Hpick Hsend.
  apply process_queue_eq_inr.
  rewrite (process_loop_error_block 256 c
             {| count := 0; pending_fin := false; pending_error := false;
                sent_error := false |}
             blk q payload Hrm Hdata Hrst Hfin Herr eq_refl eq_refl).
  rewrite (send_special_null_eq M K op_RST (with_recv_queue c q)
             ltac:(unfold legal_opcode; vm_compute; intuition congruence)
             Hseq).
  change (pick_connection M 0 (with_recv_queue c q))
    with (pick_connection M 0 c).
  rewrite Hpick.
  change (conn_send M conn
            (seal_block K
               (block_header_enc K (send_seq (with_recv_queue c q)) 0 0
                  op_RST) []) (with_recv_queue c q))
    with (conn_send M conn
            (seal_block K (block_header_enc K (send_seq c) 0 0 op_RST) [])
            c).
  rewrite Hsend. reflexivity.
Qed.

Lemma dispatch_calls (blk : reassembly_elt) (c : @chop_circuit_t St)
    (pf pe : bool) (x : call) :
  In x (calls c) -> In x (calls (fst (fst (dispatch blk c pf pe)))).
Proof.
  intros H. unfold dispatch.
  repeat match goal with
         | |- context [if ?b then _ else _] => destruct b
         end; simpl; try exact H; apply in_or_app; left; exact H.
Qed.

(** Once an error has been answered, the loop sends nothing more and
    runs to the end of the queued blocks. *)
Lemma process_loop_after_error (fuel : nat) :
  forall (c : @chop_circuit_t St) (v : pq_locals),
  sent_error v = true ->
  (occupied (recv_queue c) < fuel)%nat ->
  exists c' v',
    process_loop M K fuel c v = inl (c', v') /\
    wire c' = wire c /\ up_input c' = up_input c /\
    sent_error v' = true /\
    (forall x, In x (calls c) -> In x (calls c')).
Proof.
  induction fuel as [| fuel IH]; intros c v Hse Hocc; [lia |].
  simpl.
  pose proof (remove_next_occupied_less (recv_queue c)) as Hless.
  destruct (remove_next (recv_queue c)) as [blk q]. simpl in Hless.
  destruct (data blk) as [payload |].
  - destruct (Hless ltac:(eexists; reflexivity)) as [Hlt _].
    pose proof (dispatch_queue blk (with_recv_queue c q) (pending_fin v)
                  (pending_error v)) as Hdq.
    pose proof (dispatch_wire blk (with_recv_queue c q) (pending_fin v)
                  (pending_error v)) as [Hdw Hdi].
    pose proof (dispatch_calls blk (with_recv_queue c q) (pending_fin v)
                  (pending_error v)) as Hdc.
    destruct (dispatch blk (with_recv_queue c q) (pending_fin v)
                (pending_error v)) as [[c1 pf] pe].
    simpl in Hdq, Hdw, Hdi, Hdc.
    rewrite Hse, andb_false_r. simpl orb.
    set (c2 := if pf && negb (received_fin c1)
               then with_received_fin (do_call c1 circuit_recv_eof) true
               else c1).
    assert (H2 : recv_queue c2 = q /\ wire c2 = wire c
                 /\ up_input c2 = up_input c
                 /\ forall x, In x (calls c) -> In x (calls c2)).
    { subst c2. destruct (pf && negb (received_fin c1)); simpl;
        repeat split; try assumption.
      intros x Hx. apply in_or_app. left. apply Hdc. exact Hx. }
    destruct H2 as (Hq2 & Hw2 & Hi2 & Hc2).
    destruct (IH c2 {| count := wrap32 (count v + 1); pending_fin := pf;
                       pending_error := pe; sent_error := true |}
                eq_refl ltac:(rewrite Hq2; lia))
      as (c' & v' & E & Hw & Hi & Hs & Hc).
    exists c', v'. split; [exact E |].
    repeat split; try congruence. intros x Hx. apply Hc, Hc2, Hx.
  - exists (with_recv_queue c q), v. repeat split; auto.
Qed.

Lemma process_loop_rst_block (n : nat) (c : @chop_circuit_t St)
    (v : pq_locals) (blk : reassembly_elt) (q : reassembly_queue)
    (payload : evbuffer) :
  remove_next (recv_queue c) = (blk, q) ->
  data blk = Some payload -> op blk = op_RST ->
  pending_fin v = false -> sent_error v = false ->
  process_loop M K (S n) c v =
  process_loop M K n
    (do_call (with_recv_queue c q) circuit_recv_eof)
    {| count := wrap32 (count v + 1); pending_fin := false;
       pending_error := true; sent_error := true |}.
Proof.
  intros Hrm Hdata Hop Hpf Hse. simpl. rewrite Hrm, Hdata.
  unfold dispatch. rewrite Hop, Hpf, Hse.
  change (op_RST =? op_FIN) with false. change (op_RST =? op_DAT) with false.
  change (op_RST =? op_RST) with true. cbv iota. simpl andb. cbv iota.
  reflexivity.
Qed.

(** X16: an RST block from the peer is not answered.  When the
    block at the front of the queue is an RST, [process_queue] tells
    the framework that the circuit has reached end of file
    ([circuit_recv_eof]), sends no block at all, not even when further
    queued blocks are in error, takes nothing from the upstream input,
    and returns -1. *)
Theorem received_rst_is_not_answered (c : @chop_circuit_t St)
    (blk : reassembly_elt) (q : reassembly_queue) (payload : evbuffer) :
  (length (cbuf (recv_queue c)) <= 256)%nat ->
  remove_next (recv_queue c) = (blk, q) ->
  data blk = Some payload -> op blk = op_RST ->
  exists c',
    process_queue M K c = Ret (-1) c' /\
    wire c' = wire c /\ up_input c' = up_input c /\
    In circuit_recv_eof (calls c').
Proof.
  intros Hlen Hrm Hdata Hop.
  pose proof (remove_next_occupied_less (recv_queue c)) as Hless.
  rewrite Hrm in Hless. simpl in Hless.
  destruct (Hless ltac:(rewrite Hdata; eexists; reflexivity)) as [Hlt _].
  pose proof (occupied_le_length (recv_queue c)) as Hle.
  destruct (process_loop_after_error 256
              (do_call (with_recv_queue c q) circuit_recv_eof)
              {| count := wrap32 (0 + 1); pending_fin := false;
                 pending_error := true; sent_error := true |}
              eq_refl ltac:(simpl recv_queue; lia))
    as (c2 & v2 & E & Hw & Hi & Hs & Hc).
  assert (E' : process_loop M K 257 c
                 {| count := 0; pending_fin := false;
                    pending_error := false; sent_error := false |}
               = inl (c2, v2)).
  { rewrite (process_loop_rst_block 256 c
               {| count := 0; pending_fin := false;
                  pending_error := false; sent_error := false |}
               blk q payload Hrm Hdata Hop eq_refl eq_refl).
    exact E. }
  rewrite (process_queue_eq M K c c2 v2 E'). cbv zeta. rewrite Hs.
  eexists. split; [reflexivity |].
  destruct (count v2 >? 0); simpl; (split; [exact Hw |]);
    (split; [exact Hi |]); apply Hc; simpl; apply in_or_app; right;
    left; reflexivity.
Qed.

End Rst.

Lemma process_queue_returns_without_rst_witness :
  let c := with_recv_queue (chop_circuit_new true 7)
             (snd (insert_all [(0, op_RK1, [1]); (1, op_RK2, [2])]
                     reassembly_queue_new)) in
  let c' := outcome_circuit c (process_queue fixed_room_steg toy_ciphers c) in
  process_queue fixed_room_steg toy_ciphers c = Ret (-1) c' /\
  length (rst_blocks c') = length (rst_blocks c).
Proof.
  intros c c'.
  assert (E : process_queue fixed_room_steg toy_ciphers c = Ret (-1) c')
    by (vm_compute; reflexivity).
  split; [exact E |].
  exact (process_queue_returns_without_rst fixed_room_steg toy_ciphers
           c c' (-1) E).
Defined.

Lemma rst_answer_ends_the_process_witness :
  process_queue fixed_room_steg toy_ciphers
    (with_recv_queue
       (add_downstream chaff_conn (chop_circuit_new true 7))
       (snd (insert_all [(0, op_RK1, [1]); (1, op_RK2, [2])]
               reassembly_queue_new)))
  = Crash.
Proof.
  eapply (rst_answer_ends_the_process fixed_room_steg toy_ciphers _ _ _ [1]).
  - unfold is_u32. simpl. lia.
  - vm_compute. reflexivity.
  - reflexivity.
  - vm_compute. discriminate.
  - vm_compute. discriminate.
  - left. vm_compute. discriminate.
  - vm_compute. reflexivity.
  - vm_compute. reflexivity.
Defined.

Lemma received_rst_is_not_answered_witness :
  let c := with_recv_queue
             (add_downstream chaff_conn (chop_circuit_new true 7))
             (snd (insert_all [(0, op_RST, [1]); (1, op_RK2, [2])]
                     reassembly_queue_new)) in
  exists c',
    process_queue fixed_room_steg toy_ciphers c = Ret (-1) c' /\
    wire c' = wire c /\ up_input c' = up_input c /\
    In circuit_recv_eof (calls c').
Proof.
  intros c.
  apply (received_rst_is_not_answered fixed_room_steg toy_ciphers c
           (fst (remove_next (recv_queue c)))
           (snd (remove_next (recv_queue c))) [1]).
  - vm_compute. lia.
  - vm_compute. reflexivity.
  - reflexivity.
  - reflexivity.
Defined.

(** ** Reading the configuration *)

Section ConfigProofs.
Variable resolvable : String.string -> bool -> option String.string -> bool.
Variable steg_is_supported : String.string -> bool.

Lemma init_loop_accepts (listen_up : bool)
    (pairs : list (String.string * String.string)) :
  forall cfg,
  Forall (pair_ok resolvable steg_is_supported listen_up) pairs ->
  init_loop resolvable steg_is_supported listen_up (flat_pairs pairs) cfg
  = (true,
     {| mode := mode cfg; up_address := up_address cfg;
        down_addresses := down_addresses cfg
                          ++ map (down_of listen_up) pairs;
        steg_targets := steg_targets cfg ++ map snd pairs |}).
Proof.
  induction pairs as [| [a s] pairs IH]; intros cfg Hok.
  - simpl. rewrite !app_nil_r. destruct cfg. reflexivity.
  - apply Forall_cons in Hok as [[Ha Hs] Hok]. simpl in Ha, Hs.
    change (flat_pairs ((a, s) :: pairs)) with (a :: s :: flat_pairs pairs).
    simpl init_loop. unfold resolve_address_port. rewrite Ha, Hs.
    simpl negb. cbv iota. rewrite IH by exact Hok. simpl.
    rewrite <- !app_assoc. reflexivity.
Qed.

Lemma init_loop_inv (listen_up : bool) (n : nat) :
  forall rest cfg cfg',
  (length rest <= n)%nat ->
  init_loop resolvable steg_is_supported listen_up rest cfg = (true, cfg') ->
  exists pairs,
    rest = flat_pairs pairs /\
    Forall (pair_ok resolvable steg_is_supported listen_up) pairs.
Proof.
  induction n as [| n IH]; intros rest cfg cfg' Hlen H.
  - destruct rest; [| simpl in Hlen; lia]. exists []. split; [reflexivity |].
    constructor.
  - destruct rest as [| a [| s rest]].
    + exists []. split; [reflexivity | constructor].
    + simpl in H. unfold resolve_address_port in H.
      destruct (resolvable a (negb listen_up) None); discriminate.
    + simpl in H. unfold resolve_address_port in H.
      destruct (resolvable a (negb listen_up) None) eqn:Ha; [| discriminate].
      destruct (steg_is_supported s) eqn:Hs; [| discriminate].
      simpl in H. apply IH in H; [| simpl in Hlen; lia].
      destruct H as (pairs & -> & Hok).
      exists ((a, s) :: pairs). split; [reflexivity |].
      constructor; [split; assumption | exact Hok].
Qed.

Lemma flat_pairs_length (pairs : list (String.string * String.string)) :
  length (flat_pairs pairs) = (2 * length pairs)%nat.
Proof.
  unfold flat_pairs. induction pairs as [| p pairs IH]; simpl; [reflexivity |].
  simpl in IH. rewrite IH. lia.
Qed.

(** What [init] accepts, and the configuration it then leaves. *)
Lemma init_accepts (options : list String.string)
    (cfg cfg' : chop_config_t) :
  init resolvable steg_is_supported options cfg = (true, cfg') ->
  exists m up pairs defport md listen_up,
    options = m :: up :: flat_pairs pairs /\ pairs <> [] /\
    mode_of m = Some (defport, md, listen_up) /\
    resolvable up listen_up (Some defport) = true /\
    Forall (pair_ok resolvable steg_is_supported listen_up) pairs /\
    cfg' = {| mode := md;
              up_address := Some {| ai_text := up; ai_passive := listen_up;
                                    ai_defport := Some defport |};
              down_addresses := down_addresses cfg
                                ++ map (down_of listen_up) pairs;
              steg_targets := steg_targets cfg ++ map snd pairs |}.
Proof.
  unfold init. intros H.
  destruct (Nat.ltb_spec (length options) 3) as [| Hn]; [discriminate |].
  destruct options as [| m [| up rest]]; try discriminate.
  destruct (mode_of m) as [[[defport md] listen_up] |] eqn:Hm;
    [| discriminate].
  unfold resolve_address_port in H.
  destruct (resolvable up listen_up (Some defport)) eqn:Hup; [| discriminate].
  pose proof H as Hinv.
  apply (init_loop_inv listen_up (length rest)) in Hinv; [| lia].
  destruct Hinv as (pairs & -> & Hok).
  rewrite (init_loop_accepts listen_up pairs _ Hok) in H.
  injection H as <-.
  exists m, up, pairs, defport, md, listen_up.
  repeat split; try assumption.
  intros ->. simpl in Hn. lia.
Qed.

(** X17: the command lines [init] accepts.  [init] returns
    true exactly when the options are a mode word ([client], [socks]
    or [server]), an upstream address that resolves with the mode's
    default port, and then one or more pairs of a downstream address
    that resolves without a default port and a supported
    steganographer; the upstream address is resolved for listening in
    the client modes and the downstream addresses in server mode.  In
    particular three options are never enough, although the length
    test lets them through. *)
Theorem init_accepts_exactly_paired_options
    (options : list String.string) (cfg : chop_config_t) :
  fst (init resolvable steg_is_supported options cfg) = true <->
  exists m up pairs defport md listen_up,
    options = m :: up :: flat_pairs pairs /\ pairs <> [] /\
    mode_of m = Some (defport, md, listen_up) /\
    resolvable up listen_up (Some defport) = true /\
    Forall (pair_ok resolvable steg_is_supported listen_up) pairs.
Proof.
  split.
  - destruct (init resolvable steg_is_supported options cfg) as [ok cfg']
      eqn:E.
    simpl. intros ->. apply init_accepts in E.
    destruct E as (m & up & pairs & defport & md & lu & H1 & H2 & H3 & H4
                   & H5 & _).
    exists m, up, pairs, defport, md, lu. repeat split; assumption.
  - intros (m & up & pairs & defport & md & lu & -> & Hne & Hm & Hup & Hok).
    unfold init.
    destruct (Nat.ltb_spec (length (m :: up :: flat_pairs pairs)) 3) as [Hn |].
    + simpl in Hn. rewrite flat_pairs_length in Hn.
      destruct pairs; [congruence | simpl in Hn; lia].
    + rewrite Hm. unfold resolve_address_port. rewrite Hup.
      rewrite (init_loop_accepts lu pairs _ Hok). reflexivity.
Qed.

(** X18: the configuration [init] leaves when it succeeds
    on a configuration without addresses.  There are at least four
    options and their number is even; there is one steganographer for
    each downstream address; every address [get_listen_addrs] gives out
    was resolved for listening and every address [get_target_addrs]
    gives out was not; and both give an address for index 0. *)
Theorem init_leaves_matching_addresses (options : list String.string)
    (cfg cfg' : chop_config_t) :
  down_addresses cfg = [] -> steg_targets cfg = [] ->
  init resolvable steg_is_supported options cfg = (true, cfg') ->
  (4 <= length options)%nat /\
  length options = (2 + 2 * length (down_addresses cfg'))%nat /\
  length (steg_targets cfg') = length (down_addresses cfg') /\
  (forall n a, get_listen_addrs cfg' n = Some a -> ai_passive a = true) /\
  (forall n a, get_target_addrs cfg' n = Some a -> ai_passive a = false) /\
  is_Some (get_listen_addrs cfg' 0) /\ is_Some (get_target_addrs cfg' 0).
Proof.
  intros Hd Hs H. apply init_accepts in H.
  destruct H as (m & up & pairs & defport & md & lu & -> & Hne & Hm & Hup
                 & Hok & ->).
  rewrite Hd, Hs. simpl app.
  assert (Hmode : (md = LSN_SIMPLE_SERVER /\ lu = false)
                  \/ (md <> LSN_SIMPLE_SERVER /\ lu = true)).
  { unfold mode_of in Hm.
    destruct (String.eqb m "client"); [injection Hm as _ <- <-; right;
                                       split; [discriminate | reflexivity] |].
    destruct (String.eqb m "socks"); [injection Hm as _ <- <-; right;
                                      split; [discriminate | reflexivity] |].
    destruct (String.eqb m "server"); [| discriminate].
    injection Hm as _ <- <-. left. split; reflexivity. }
  assert (Hdown : forall n a, map (down_of lu) pairs !! n = Some a ->
                              ai_passive a = negb lu).
  { intros n a Hn. apply list_lookup_fmap_Some in Hn as (p & -> & _).
    reflexivity. }
  assert (Hfirst : is_Some (map (down_of lu) pairs !! 0%nat)).
  { destruct pairs; [congruence |]. eexists. reflexivity. }
  simpl length. rewrite flat_pairs_length, !length_map.
  split; [destruct pairs; [congruence | simpl; lia] |].
  split; [lia |]. split; [reflexivity |].
  unfold get_listen_addrs, get_target_addrs. simpl.
  destruct Hmode as [[-> ->] | [Hmd ->]].
  - repeat split.
    + intros n a Hn. apply (Hdown n a Hn).
    + intros n a Hn. destruct (n =? 0)%nat; [| discriminate].
      injection Hn as <-. reflexivity.
    + exact Hfirst.
    + eexists. reflexivity.
  - destruct md; try congruence; repeat split;
      try (intros n a Hn; destruct (n =? 0)%nat; [| discriminate];
           injection Hn as <-; reflexivity);
      try (intros n a Hn; apply (Hdown n a Hn));
      try exact Hfirst; eexists; reflexivity.
Qed.

End ConfigProofs.

Local Open Scope string_scope.

Lemma init_leaves_matching_addresses_witness :
  let options := ["server"; "127.0.0.1:9005"; "192.168.1.99:11253"; "http";
                  "192.168.1.99:11254"; "skype"] in
  let cfg' := snd (init (fun _ _ _ => true) (fun _ => true) options
                        blank_config) in
  (4 <= length options)%nat /\
  length options = (2 + 2 * length (down_addresses cfg'))%nat /\
  length (steg_targets cfg') = length (down_addresses cfg') /\
  (forall n a, get_listen_addrs cfg' n = Some a -> ai_passive a = true) /\
  (forall n a, get_target_addrs cfg' n = Some a -> ai_passive a = false) /\
  is_Some (get_listen_addrs cfg' 0) /\ is_Some (get_target_addrs cfg' 0).
Proof.
  intros options cfg'.
  apply (init_leaves_matching_addresses (fun _ _ _ => true) (fun _ => true)
           options blank_config cfg').
  - reflexivity.
  - reflexivity.
  - reflexivity.
Defined.

Local Close Scope string_scope.

(** ** Circuit ids and the handshake *)


Section Handshake.
Context {St : Type}.
Variable M : steg_module St.

Lemma pick_circuit_id_spec (rng : list Z)
    (circuits : gmap Z (option (@chop_circuit_t St))) (id : Z) (rng' : list Z) :
  pick_circuit_id rng circuits = Some (id, rng') ->
  id <> 0 /\ circuits !! id = None /\
  exists skipped,
    rng = skipped ++ id :: rng' /\
    Forall (fun x => x = 0 \/ is_Some (circuits !! x)) skipped.
Proof.
  revert id rng'. induction rng as [| x rng IH]; intros id rng' H;
    [discriminate |].
  simpl in H. destruct (Z.eqb_spec x 0) as [-> | Hx].
  - destruct (IH _ _ H) as (H1 & H2 & sk & -> & Hsk).
    split; [exact H1 |]. split; [exact H2 |].
    exists (0 :: sk). split; [reflexivity |].
    constructor; [left; reflexivity | exact Hsk].
  - destruct (circuits !! x) as [e |] eqn:Hl.
    + destruct (IH _ _ H) as (H1 & H2 & sk & -> & Hsk).
      split; [exact H1 |]. split; [exact H2 |].
      exists (x :: sk). split; [reflexivity |].
      constructor; [right; rewrite Hl; eexists; reflexivity | exact Hsk].
    + injection H as <- <-. split; [exact Hx |]. split; [exact Hl |].
      exists []. split; [reflexivity | constructor].
Qed.

Lemma pick_circuit_id_finds (rng : list Z)
    (circuits : gmap Z (option (@chop_circuit_t St))) (x : Z) :
  In x rng -> x <> 0 -> circuits !! x = None ->
  is_Some (pick_circuit_id rng circuits).
Proof.
  intros Hin Hx Hl. induction rng as [| y rng IH]; [destruct Hin |].
  simpl. destruct (Z.eqb_spec y 0) as [-> | Hy].
  - destruct Hin as [<- | Hin]; [congruence | auto].
  - destruct (circuits !! y) eqn:Hy'.
    + destruct Hin as [<- | Hin]; [congruence | auto].
    + eexists. reflexivity.
Qed.

(** X19: the circuit ids a client makes are not zero and not in
    use.  When [circuit_create] returns on a client, the id of the new
    circuit is the first random value that was neither zero nor a key
    of the circuit table (live or stale), the table has gained exactly
    that key, bound to the new circuit, and [chop_conn_t::send] on a
    connection of that circuit that has a steg module does not reach
    its "can't happen" abort.  It does return as soon as one of the
    random values is neither zero nor in use. *)
Theorem client_circuit_ids_are_fresh (md : listen_mode) (rng rng' : list Z)
    (circuits circuits' : gmap Z (option (@chop_circuit_t St)))
    (ckt : @chop_circuit_t St) :
  md <> LSN_SIMPLE_SERVER ->
  circuit_create md rng circuits = Some (ckt, circuits', rng') ->
  circuit_id ckt <> 0 /\ circuits !! circuit_id ckt = None /\
  circuits' = <[circuit_id ckt := Some ckt]> circuits /\
  (exists skipped,
     rng = skipped ++ circuit_id ckt :: rng' /\
     Forall (fun x => x = 0 \/ is_Some (circuits !! x)) skipped) /\
  (forall cn block,
     is_Some (steg cn) -> conn_send M cn block ckt <> conn_send_abort) /\
  (forall rng2 x,
     In x rng2 -> x <> 0 -> circuits !! x = None ->
     is_Some (circuit_create md rng2 circuits)).
Proof.
  intros Hmd H.
  assert (E : circuit_create md rng circuits
              = match pick_circuit_id rng circuits with
                | None => None
                | Some (id, rng') =>
                    Some (chop_circuit_new false id,
                          <[id := Some (chop_circuit_new false id)]> circuits,
                          rng')
                end)
    by (destruct md; try reflexivity; congruence).
  rewrite E in H.
  destruct (pick_circuit_id rng circuits) as [[id r] |] eqn:Hp;
    [| discriminate].
  injection H as <- <- <-. simpl circuit_id.
  destruct (pick_circuit_id_spec rng circuits id r Hp) as (H1 & H2 & H3).
  repeat split; try assumption.
  - intros cn block [s Hs]. unfold conn_send. simpl.
    destruct (Z.eqb_spec id 0); [contradiction |].
    rewrite andb_false_r. rewrite Hs.
    destruct (transmit M s _) as [[s' ce] |]; discriminate.
  - intros rng2 x Hin Hx Hl.
    destruct (pick_circuit_id_finds rng2 circuits x Hin Hx Hl) as [[i r2] Hq].
    destruct md; try congruence; simpl; rewrite Hq; eexists; reflexivity.
Qed.


(** X21: the circuit table never forgets an id, a failed creation
    leaves the id stale, and a failure to open the upstream stops the
    process.  Whenever [recv_handshake] returns, every key of the table
    is still a key, and a stale key (bound to null) is still stale.
    When the handshake names an id that is not in the table and the
    circuit cannot be created, [recv_handshake] returns -1 with the id
    bound to null; every later handshake for that id is then treated as
    one for a stale circuit: it returns 0 and attaches the connection
    to nothing.  When the circuit is created but its upstream cannot be
    opened, [delete ck] runs the destructor on a circuit that is not in
    the table, and an assertion of the destructor fails. *)
Theorem handshake_table_keeps_ids (srv : @chop_conn_t St)
    (circuits : gmap Z (option (@chop_circuit_t St)))
    (create_ok open_ok : bool) :
  let id0 := from_le32 (firstn 4 (recv_pending srv)) in
  (forall t,
     handshake_table (recv_handshake srv circuits create_ok open_ok)
     = Some t ->
     (forall id, is_Some (circuits !! id) -> is_Some (t !! id)) /\
     (forall id, circuits !! id = Some None -> t !! id = Some None)) /\
  (4 <= Z.of_nat (length (recv_pending srv)) ->
   circuits !! id0 = None ->
   (create_ok = false ->
    recv_handshake srv circuits create_ok open_ok
    = hs_failed (with_recv_pending srv (skipn 4 (recv_pending srv)))
                (<[id0 := None]> circuits) /\
    forall srv2 ok1 ok2,
      4 <= Z.of_nat (length (recv_pending srv2)) ->
      from_le32 (firstn 4 (recv_pending srv2)) = id0 ->
      recv_handshake srv2 (<[id0 := None]> circuits) ok1 ok2
      = hs_stale (with_recv_pending srv2 (skipn 4 (recv_pending srv2)))
                 (<[id0 := None]> circuits)) /\
   (create_ok = true -> open_ok = false ->
    recv_handshake srv circuits create_ok open_ok = hs_abort)).
Proof.
  intros id0. subst id0. unfold recv_handshake.
  set (id0 := from_le32 (firstn 4 (recv_pending srv))).
  assert (Hrel : forall t : gmap Z (option (@chop_circuit_t St)),
            release_id (circuit_id (@chop_circuit_new St true 0)) false t
            = None).
  { intros t. unfold release_id. destruct (t !! _); reflexivity. }
  destruct (Z.ltb_spec (Z.of_nat (length (recv_pending srv))) 4) as [Hs | Hs].
  - split; [| intros H; lia].
    intros t [= <-]. split; auto.
  - destruct (circuits !! id0) as [[ck |] |] eqn:Hl; cbv beta iota zeta.
    + split; [| intros _ Habs; discriminate].
      intros t [= <-]. split; intros id Hid;
        (destruct (decide (id = id0)) as [-> | Hne];
         [rewrite lookup_insert_eq | rewrite lookup_insert_ne by congruence]);
        try exact Hid; try congruence. eexists. reflexivity.
    + split; [| intros _ Habs; discriminate].
      intros t [= <-]. split; auto.
    + assert (Hkeep : forall t : gmap Z (option (@chop_circuit_t St)),
                (t = <[id0 := None]> circuits
                 \/ exists x,
                      t = <[id0 := Some x]> (<[id0 := None]> circuits)) ->
                (forall id, is_Some (circuits !! id) -> is_Some (t !! id)) /\
                (forall id, circuits !! id = Some None ->
                            t !! id = Some None)).
      { intros t Ht. split; intros id Hid;
          (destruct (decide (id = id0)) as [-> | Hne];
           [rewrite Hl in Hid; try discriminate;
            destruct Hid as [? Hid]; discriminate |]);
          destruct Ht as [-> | [x ->]];
          rewrite ?lookup_insert_ne by congruence; exact Hid. }
      rewrite Hrel.
      destruct create_ok; simpl negb; cbv beta iota zeta;
        [destruct open_ok; simpl negb; cbv beta iota zeta |].
      * split.
        -- intros t [= <-]. apply Hkeep. right. eexists. reflexivity.
        -- intros _ _. split; intros; discriminate.
      * split; [intros t [=] |].
        intros _ _. split; [intros; discriminate | reflexivity].
      * split.
        -- intros t [= <-]. apply Hkeep. left. reflexivity.
        -- intros _ _. split; [| intros; discriminate].
           intros _. split; [reflexivity |].
           intros srv2 ok1 ok2 H2 Hid2.
           destruct (Z.ltb_spec (Z.of_nat (length (recv_pending srv2))) 4);
             [lia |].
           rewrite Hid2, lookup_insert_eq. reflexivity.
Qed.

End Handshake.

Lemma client_circuit_ids_are_fresh_witness :
  let circuits : gmap Z (option (@chop_circuit_t Z)) := {[ 5 := None ]} in
  let ckt := chop_circuit_new false 9 in
  circuit_id ckt <> 0 /\ circuits !! circuit_id ckt = None /\
  <[9 := Some ckt]> circuits = <[circuit_id ckt := Some ckt]> circuits /\
  (exists skipped,
     [0; 5; 9; 11] = skipped ++ circuit_id ckt :: [11] /\
     Forall (fun x => x = 0 \/ is_Some (circuits !! x)) skipped) /\
  (forall cn block,
     is_Some (steg cn) ->
     conn_send fixed_room_steg cn block ckt <> conn_send_abort) /\
  (forall rng2 x,
     In x rng2 -> x <> 0 -> circuits !! x = None ->
     is_Some (circuit_create LSN_SIMPLE_CLIENT rng2 circuits)).
Proof.
  intros circuits ckt.
  apply (client_circuit_ids_are_fresh fixed_room_steg LSN_SIMPLE_CLIENT
           [0; 5; 9; 11] [11] circuits (<[9 := Some ckt]> circuits) ckt).
  - discriminate.
  - reflexivity.
Defined.


(** ** Timer intervals *)

Lemma flush_xv_pow (dc : Z) :
  flush_xv dc = 2 ^ flush_shift dc /\ 2 <= flush_xv dc <= 2 ^ 19.
Proof.
  unfold flush_xv, flush_shift.
  set (sh := Z.max 1 (Z.min 19 dc)).
  assert (Hsh : 1 <= sh <= 19) by (subst sh; lia).
  rewrite Z.shiftl_1_l.
  assert (Hlo : 2 ^ 1 <= 2 ^ sh) by (apply Z.pow_le_mono_r; lia).
  assert (Hhi : 2 ^ sh <= 2 ^ 19) by (apply Z.pow_le_mono_r; lia).
  change (2 ^ 1) with 2 in Hlo. change (2 ^ 19) with 524288 in *.
  unfold wrap32. rewrite Z.mod_small by lia. lia.
Qed.

(** X22: the flush timer backs off by doubling, and the axe timer
    outlasts it.  The scale [xv] that [flush_interval] hands to the
    random draw is two to the power of [dead_cycles] clamped to 1..19,
    so it never decreases when [dead_cycles] grows and lies between 2
    and 2^19; the clamps of [xv] to 1 and to 10 minutes never apply.
    For a draw between 0 and its first argument (20 minutes), the
    interval is at most 20 minutes and 100 ms, below [axe_interval]. *)
Theorem flush_interval_backs_off_below_axe (rng : Z -> Z -> Z)
    (dc dc' : Z) :
  (forall xv, 0 <= rng (20 * 60 * 1000) xv <= 20 * 60 * 1000) ->
  flush_xv dc = 2 ^ Z.max 1 (Z.min 19 dc) /\
  2 <= flush_xv dc <= 2 ^ 19 /\
  (dc <= dc' -> flush_xv dc <= flush_xv dc') /\
  100 <= flush_interval rng dc <= 20 * 60 * 1000 + 100 /\
  flush_interval rng dc < axe_interval.
Proof.
  intros Hrng.
  destruct (flush_xv_pow dc) as [E B].
  destruct (flush_xv_pow dc') as [E' _].
  split; [exact E |]. split; [exact B |]. split.
  - intros Hle. rewrite E, E'. unfold flush_shift.
    apply Z.pow_le_mono_r; lia.
  - unfold flush_interval, axe_interval, wrap32.
    specialize (Hrng (flush_xv dc)).
    rewrite Z.mod_small by lia. lia.
Qed.

Lemma flush_interval_backs_off_below_axe_witness :
  flush_xv 3 = 2 ^ Z.max 1 (Z.min 19 3) /\
  2 <= flush_xv 3 <= 2 ^ 19 /\
  (3 <= 40 -> flush_xv 3 <= flush_xv 40) /\
  100 <= flush_interval (fun hi _ => hi) 3 <= 20 * 60 * 1000 + 100 /\
  flush_interval (fun hi _ => hi) 3 < axe_interval.
Proof.
  apply (flush_interval_backs_off_below_axe (fun hi _ => hi) 3 40).
  intros xv. lia.
Defined.
